(** * The state-transition engine of the-blockchain-bar (database/state.go)

    A shallow embedding of [database/state.go] and [database/genesis.go]:
    the account ledger, the validation and application of transactions and
    blocks, the speculative copy used by [AddBlock], the append to the block
    log and its replay at start-up.

    Go values are modelled as follows.
    - [uint] and [uint64] are integers in [0, 2^64) held in [Z]; every
      arithmetic operation of the source is followed by its wrap-around.
    - A Go map is a reference: the two tables of a [State] are locations in a
      heap of maps, so that two [State] structs can share a table, as they do
      after [AddBlock] promotes the pending state.
    - A function with a receiver [s *State] is a computation over the struct
      [s] points to, the heap of maps and the files; its Go [error] result is
      an [option Error] ([None] is [nil]).
    - The collaborators that live outside these two files (signature check,
      block hash, proof of work, JSON, the operating system, [sort.Slice])
      are the fields of the class [External]. *)

From Stdlib Require Import ZArith List Lia Bool String Permutation Sorted.
From stdpp Require Import base option gmap strings list fin_maps.
From Stdlib.Strings Require Import Byte.

Local Open Scope Z_scope.

(** ** Machine integers *)

Definition uint_size : Z := 2 ^ 64.

(** Wrap-around of [uint] and [uint64] arithmetic. *)
Definition wrap (z : Z) : Z := z mod uint_size.

Definition is_uint (z : Z) : Prop := 0 <= z < uint_size.

#[global] Instance is_uint_dec (z : Z) : Decision (is_uint z).
Proof. unfold is_uint. apply _. Defined.

(** ** Constants of state.go *)

Definition TxGas : Z := 22.
Definition TxGasPriceDefault : Z := 2.
Definition TxFee : Z := 22.

(** ** Data *)

(** [common.Address] is a 20-byte array and [Hash] a 32-byte array; both are
    only compared and used as keys, and are held as the number they spell. *)
Definition Address : Type := N.
Definition Hash : Type := N.

(** The zero value [Hash{}]. *)
Definition Hash_zero : Hash := 0%N.

Record SignedTx := {
  tx_From : Address;
  tx_To : Address;
  tx_Gas : Z;
  tx_GasPrice : Z;
  tx_Value : Z;
  tx_Nonce : Z;
  tx_Time : Z;
  tx_Sig : list byte
}.

Record BlockHeader := {
  hd_Parent : Hash;
  hd_Number : Z;
  hd_Nonce : Z;
  hd_Time : Z;
  hd_Miner : Address
}.

Record Block := {
  Header : BlockHeader;
  TXs : list SignedTx
}.

Record BlockFS := {
  Key : Hash;
  Value : Block
}.

(** The zero value [Block{}]. *)
Definition Block_zero : Block :=
  {| Header := {| hd_Parent := Hash_zero; hd_Number := 0; hd_Nonce := 0;
                  hd_Time := 0; hd_Miner := 0%N |};
     TXs := [] |}.

Record Genesis := {
  gen_Balances : gmap Address Z;
  gen_Symbol : string;
  gen_ForkTIP1 : Z
}.

(** Locations of Go maps and names of files. *)
Definition loc : Type := positive.

Record State := {
  Balances : loc;
  Account2Nonce : loc;
  dbFile : option string;
  latestBlock : Block;
  latestBlockHash : Hash;
  hasGenesisBlock : bool;
  miningDifficulty : Z;
  forkTIP1 : Z
}.

(** ** Errors *)

(** Errors of the collaborators are passed through by state.go as they are;
    the errors state.go builds itself with [fmt.Errorf] carry the values that
    are formatted into their message. *)
Inductive Error :=
| ErrExternal (msg : string)
| ErrForged (from : Address)
| ErrNonce (from : Address) (expected got : Z)
| ErrGas (gas : Z)
| ErrGasPrice (price : Z)
| ErrPrematureGas
| ErrFunds (from : Address) (balance cost : Z)
| ErrBlockNumber (expected got : Z)
| ErrParent (latest parent : Hash)
| ErrInvalidHash (h : Hash).

(** ** The store and the computations over it *)

Record World := {
  heap : gmap loc (gmap Address Z);
  files : gmap string (list byte)
}.

Record Cfg := {
  this : State;
  world : World
}.

Definition M (A : Type) : Type := Cfg -> A * Cfg.

#[global] Instance M_ret : MRet M := fun A a c => (a, c).
#[global] Instance M_bind : MBind M :=
  fun A B f m c => let '(a, c') := m c in f a c'.

(** Read of a field of [*s]. *)
Definition field {A} (f : State -> A) : M A := fun c => (f (this c), c).

(** Assignment to fields of [*s]. *)
Definition assign (upd : State -> State) : M unit :=
  fun c => (tt, {| this := upd (this c); world := world c |}).

(** Contents of the map at [l]. *)
Definition deref (h : gmap loc (gmap Address Z)) (l : loc) : gmap Address Z :=
  default ∅ (h !! l).

(** [m[k]]: a missing key reads as the zero value, and reading inserts
    nothing. *)
Definition index (h : gmap loc (gmap Address Z)) (l : loc) (k : Address) : Z :=
  default 0 (deref h l !! k).

Definition mapIndex (l : loc) (k : Address) : M Z :=
  fun c => (index (heap (world c)) l k, c).

(** [m[k] = v]. *)
Definition store (l : loc) (k : Address) (v : Z) (w : World) : World :=
  {| heap := <[l := <[k := v]> (deref (heap w) l)]> (heap w); files := files w |}.

#[global] Arguments store : simpl never.

Definition mapAssign (l : loc) (k : Address) (v : Z) : M unit :=
  fun c => (tt, {| this := this c; world := store l k v (world c) |}).

(** [make(map[common.Address]uint)]: a location not yet in use. *)
Definition make : M loc :=
  fun c =>
    let l := fresh (dom (heap (world c))) in
    (l, {| this := this c;
           world := {| heap := <[l := ∅]> (heap (world c));
                       files := files (world c) |} |}).

(** Call of [m] with a pointer to the struct [st] in place of the receiver;
    the struct as [m] leaves it is returned with the result. *)
Definition on {A} (st : State) (m : M A) : M (A * State) :=
  fun c =>
    let '(a, c') := m {| this := st; world := world c |} in
    ((a, this c'), {| this := this c; world := world c' |}).

(** ** Collaborators *)

Class External := {
  (** Declared in database/tx.go and database/block.go, which are not among
      the source files: [tx.IsAuthentic()], [b.Hash()], [IsBlockHashValid]
      and the constant [BlockReward]. *)
  IsAuthentic : SignedTx -> bool * option string;
  Block_Hash : Block -> string + Hash;
  IsBlockHashValid : Hash -> Z -> bool;
  BlockReward : Z;
  (** [sort.Slice(x, less)]: the contents of [x] afterwards. *)
  sort_Slice : forall A : Type, (A -> A -> bool) -> list A -> list A;
  (** [json.Marshal] of a [BlockFS] and [json.Unmarshal] into one. *)
  json_Marshal : BlockFS -> string + list byte;
  json_Unmarshal : list byte -> string + BlockFS;
  (** [os.File.Write] on a file opened with [O_APPEND]: from the contents
      of the file and the bytes to write, the number of bytes written and
      the error. *)
  os_Write : list byte -> list byte -> nat * option string;
  (** Start-up: the text of the genesis file, the helpers of database/fs.go
      (not among the source files), and the Go library calls on files. *)
  genesisJson : list byte;
  InitDataDirIfNotExists :
    string -> list byte -> gmap string (list byte) ->
    option string * gmap string (list byte);
  getGenesisJsonFilePath : string -> string;
  getBlocksDbFilePath : string -> string;
  ioutil_ReadFile : string -> gmap string (list byte) -> string + list byte;
  json_Unmarshal_Genesis : list byte -> string + Genesis;
  (** [os.OpenFile(path, O_APPEND|O_RDWR, 0600)] *)
  os_OpenFile : string -> gmap string (list byte) -> string + string;
  (** The tokens [scanner.Scan()] delivers over the contents of a file, each
      with what [scanner.Err()] answers after it. *)
  bufio_Scan : list byte -> list (list byte * option string)
}.

(** The comparison [applyTXs] sorts with: [txs[i].Time < txs[j].Time]. *)
Definition txLess (a b : SignedTx) : bool := tx_Time a <? tx_Time b.

(** What the documentation of [sort.Slice] promises for that comparison: the
    slice is permuted into an order with no inversion. The sort is not
    guaranteed to be stable. *)
Definition SliceContract (E : External) : Prop :=
  forall txs : list SignedTx,
    Permutation txs (sort_Slice SignedTx txLess txs) /\
    StronglySorted (fun a b => txLess b a = false) (sort_Slice SignedTx txLess txs).

Section Engine.

Context {E : External}.

(** ** Fees *)

(** Modelled from the spec: [Tx.Cost] and [Tx.GasCost] are declared in
    database/tx.go, which is not among the source files. "total cost = value +
    (fork active ? gas*gas_price : flat_fee)", "cost = gas × gas_price"; the
    result has the type [uint] of the balances it is compared with and
    subtracted from in state.go. *)
Definition GasCost (tx : SignedTx) : Z := wrap (tx_Gas tx * tx_GasPrice tx).

Definition Cost (tx : SignedTx) (isTip1Fork : bool) : Z :=
  if isTip1Fork then wrap (tx_Value tx + GasCost tx)
  else wrap (tx_Value tx + TxFee).

(** Modelled from the spec: [Block.GasReward] is declared in
    database/block.go, which is not among the source files. "the sum of
    gas*gas_price over all transactions in the block". *)
Definition GasReward (b : Block) : Z :=
  fold_left (fun reward tx => wrap (reward + GasCost tx)) (TXs b) 0.

(** ** Queries *)

Definition LatestBlock : M Block := field latestBlock.

Definition LatestBlockHash : M Hash := field latestBlockHash.

Definition NextBlockNumber : M Z :=
  has ← field hasGenesisBlock;
  if negb has then mret 0
  else
    b ← LatestBlock;
    mret (wrap (hd_Number (Header b) + 1)).

Definition GetNextAccountNonce (account : Address) : M Z :=
  nonces ← field Account2Nonce;
  n ← mapIndex nonces account;
  mret (wrap (n + 1)).

Definition ChangeMiningDifficulty (newDifficulty : Z) : M unit :=
  assign (fun s =>
    {| Balances := Balances s; Account2Nonce := Account2Nonce s;
       dbFile := dbFile s; latestBlock := latestBlock s;
       latestBlockHash := latestBlockHash s;
       hasGenesisBlock := hasGenesisBlock s;
       miningDifficulty := newDifficulty; forkTIP1 := forkTIP1 s |}).

Definition IsTIP1Fork : M bool :=
  n ← NextBlockNumber;
  f ← field forkTIP1;
  mret (f <=? n).

(** ** Copy *)

(** [for k, v := range src { dst[k] = v }] *)
Definition copyEntries (src dst : loc) : M unit :=
  fun c =>
    (tt, {| this := this c;
            world := map_fold (fun k v w => store dst k v w) (world c)
                              (deref (heap (world c)) src) |}).

Definition Copy : M State :=
  s ← field (fun s : State => s);
  balances ← make;
  account2nonce ← make;
  _ ← copyEntries (Balances s) balances;
  _ ← copyEntries (Account2Nonce s) account2nonce;
  mret {| Balances := balances; Account2Nonce := account2nonce;
          dbFile := None; latestBlock := latestBlock s;
          latestBlockHash := latestBlockHash s;
          hasGenesisBlock := hasGenesisBlock s;
          miningDifficulty := miningDifficulty s; forkTIP1 := forkTIP1 s |}.

(** ** Transactions *)

Definition ValidateTx (tx : SignedTx) : M (option Error) :=
  match IsAuthentic tx with
  | (_, Some err) => mret (Some (ErrExternal err))
  | (false, None) => mret (Some (ErrForged (tx_From tx)))
  | (true, None) =>
    expectedNonce ← GetNextAccountNonce (tx_From tx);
    if negb (tx_Nonce tx =? expectedNonce)
    then mret (Some (ErrNonce (tx_From tx) expectedNonce (tx_Nonce tx)))
    else
      fork ← IsTIP1Fork;
      let feeFields :=
        if (fork : bool) then
          if negb (tx_Gas tx =? TxGas) then Some (ErrGas (tx_Gas tx))
          else if tx_GasPrice tx <? TxGasPriceDefault
               then Some (ErrGasPrice (tx_GasPrice tx))
               else None
        else
          if negb (tx_Gas tx =? 0) || negb (tx_GasPrice tx =? 0)
          then Some ErrPrematureGas
          else None in
      match feeFields with
      | Some err => mret (Some err)
      | None =>
        fork ← IsTIP1Fork;
        balances ← field Balances;
        balance ← mapIndex balances (tx_From tx);
        if balance <? Cost tx fork
        then mret (Some (ErrFunds (tx_From tx) balance (Cost tx fork)))
        else mret None
      end
  end.

Definition ApplyTx (tx : SignedTx) : M (option Error) :=
  err ← ValidateTx tx;
  match err with
  | Some e => mret (Some e)
  | None =>
    balances ← field Balances;
    fork ← IsTIP1Fork;
    fromBalance ← mapIndex balances (tx_From tx);
    _ ← mapAssign balances (tx_From tx) (wrap (fromBalance - Cost tx fork));
    toBalance ← mapIndex balances (tx_To tx);
    _ ← mapAssign balances (tx_To tx) (wrap (toBalance + tx_Value tx));
    nonces ← field Account2Nonce;
    _ ← mapAssign nonces (tx_From tx) (tx_Nonce tx);
    mret None
  end.

(** [for _, tx := range txs { err := ApplyTx(tx, s); ... }] *)
Fixpoint applyEach (txs : list SignedTx) : M (option Error) :=
  match txs with
  | [] => mret None
  | tx :: rest =>
    err ← ApplyTx tx;
    match err with
    | Some e => mret (Some e)
    | None => applyEach rest
    end
  end.

(** [sort.Slice] permutes the array the slice [txs] points to, which is also
    the array of the caller's [b.TXs]: the contents of that array after the
    call are returned with the error. The array of a block handed to
    [AddBlock] is taken not to be that of the latest block of the state. *)
Definition applyTXs (txs : list SignedTx) : M (option Error * list SignedTx) :=
  let sorted := sort_Slice SignedTx txLess txs in
  err ← applyEach sorted;
  mret (err, sorted).

(** ** Blocks *)

Definition withTXs (b : Block) (txs : list SignedTx) : Block :=
  {| Header := Header b; TXs := txs |}.

(** The block returned with the error is [b] as its caller sees it after the
    call: its transactions are in sorted order once [applyTXs] has run. *)
Definition applyBlock (b : Block) : M (option Error * Block) :=
  latest ← field latestBlock;
  has ← field hasGenesisBlock;
  latestHash ← field latestBlockHash;
  let nextExpectedBlockNumber := wrap (hd_Number (Header latest) + 1) in
  if has && negb (hd_Number (Header b) =? nextExpectedBlockNumber)
  then mret (Some (ErrBlockNumber nextExpectedBlockNumber (hd_Number (Header b))), b)
  else if has && (0 <? hd_Number (Header latest))
               && negb (bool_decide (hd_Parent (Header b) = latestHash))
  then mret (Some (ErrParent latestHash (hd_Parent (Header b))), b)
  else
    match Block_Hash b with
    | inl err => mret (Some (ErrExternal err), b)
    | inr hash =>
      difficulty ← field miningDifficulty;
      if negb (IsBlockHashValid hash difficulty)
      then mret (Some (ErrInvalidHash hash), b)
      else
        '(err, sorted) ← applyTXs (TXs b);
        let b := withTXs b sorted in
        match err with
        | Some e => mret (Some e, b)
        | None =>
          balances ← field Balances;
          miner ← mapIndex balances (hd_Miner (Header b));
          _ ← mapAssign balances (hd_Miner (Header b)) (wrap (miner + BlockReward));
          fork ← IsTIP1Fork;
          miner ← mapIndex balances (hd_Miner (Header b));
          _ ← mapAssign balances (hd_Miner (Header b))
                (if (fork : bool) then wrap (miner + GasReward b)
                 else wrap (miner + wrap (Z.of_nat (length (TXs b)) * TxFee)));
          mret (None, b)
        end
    end.

(** ** The block log *)

Definition newline : byte := Byte.x0a.

(** [s.dbFile.Write(data)]: the bytes the operating system reports as written
    are appended to the file; a nil file answers [os.ErrInvalid]. *)
Definition File_Write (f : option string) (data : list byte) : M (Z * option Error) :=
  fun c =>
    match f with
    | None => ((0, Some (ErrExternal "invalid argument")), c)
    | Some path =>
      let old := default [] (files (world c) !! path) in
      let '(n, err) := os_Write old data in
      ((Z.of_nat n, ErrExternal <$> err),
       {| this := this c;
          world := {| heap := heap (world c);
                      files := <[path := old ++ take n data]> (files (world c)) |} |})
    end.

Definition AddBlock (b : Block) : M (Hash * option Error) :=
  pendingState ← Copy;
  '(err, b, pendingState) ← on pendingState (applyBlock b);
  match err with
  | Some e => mret (Hash_zero, Some e)
  | None =>
    match Block_Hash b with
    | inl e => mret (Hash_zero, Some (ErrExternal e))
    | inr blockHash =>
      let blockFs := {| Key := blockHash; Value := b |} in
      match json_Marshal blockFs with
      | inl e => mret (Hash_zero, Some (ErrExternal e))
      | inr blockFsJson =>
        f ← field dbFile;
        '(_, err) ← File_Write f (blockFsJson ++ [newline]);
        match err with
        | Some e => mret (Hash_zero, Some e)
        | None =>
          _ ← assign (fun s =>
            {| Balances := Balances pendingState;
               Account2Nonce := Account2Nonce pendingState;
               dbFile := dbFile s;
               latestBlock := b;
               latestBlockHash := blockHash;
               hasGenesisBlock := true;
               miningDifficulty := miningDifficulty pendingState;
               forkTIP1 := forkTIP1 s |});
          mret (blockHash, None)
        end
      end
    end
  end.

Fixpoint AddBlocks (blocks : list Block) : M (option Error) :=
  match blocks with
  | [] => mret None
  | b :: rest =>
    '(_, err) ← AddBlock b;
    match err with
    | Some e => mret (Some e)
    | None => AddBlocks rest
    end
  end.

(** ** Start-up *)

(** genesis.go *)
Definition loadGenesis (path : string) (fs : gmap string (list byte)) : string + Genesis :=
  match ioutil_ReadFile path fs with
  | inl err => inl err
  | inr content => json_Unmarshal_Genesis content
  end.

(** The loop [for scanner.Scan() { ... }] of [NewStateFromDisk] over the
    tokens the scanner delivers. *)
Fixpoint replay (tokens : list (list byte * option string)) : M (option Error) :=
  match tokens with
  | [] => mret None
  | (blockFsJson, scanErr) :: rest =>
    match scanErr with
    | Some err => mret (Some (ErrExternal err))
    | None =>
      if (length blockFsJson =? 0)%nat then mret None
      else
        match json_Unmarshal blockFsJson with
        | inl err => mret (Some (ErrExternal err))
        | inr blockFs =>
          '(err, b) ← applyBlock (Value blockFs);
          match err with
          | Some e => mret (Some e)
          | None =>
            _ ← assign (fun s =>
              {| Balances := Balances s; Account2Nonce := Account2Nonce s;
                 dbFile := dbFile s;
                 latestBlock := b;
                 latestBlockHash := Key blockFs;
                 hasGenesisBlock := true;
                 miningDifficulty := miningDifficulty s;
                 forkTIP1 := forkTIP1 s |});
            replay rest
          end
        end
    end
  end.

Definition NewStateFromDisk (dataDir : string) (miningDifficulty : Z)
    (w : World) : (Error + State) * World :=
  let '(err, fs) := InitDataDirIfNotExists dataDir genesisJson (files w) in
  let w := {| heap := heap w; files := fs |} in
  match err with
  | Some e => (inl (ErrExternal e), w)
  | None =>
    match loadGenesis (getGenesisJsonFilePath dataDir) fs with
    | inl e => (inl (ErrExternal e), w)
    | inr gen =>
      let balances := fresh (dom (heap w)) in
      let h := <[balances := gen_Balances gen]> (heap w) in
      let account2nonce := fresh (dom h) in
      let h := <[account2nonce := ∅]> h in
      let w := {| heap := h; files := fs |} in
      match os_OpenFile (getBlocksDbFilePath dataDir) fs with
      | inl e => (inl (ErrExternal e), w)
      | inr f =>
        let state :=
          {| Balances := balances; Account2Nonce := account2nonce;
             dbFile := Some f; latestBlock := Block_zero;
             latestBlockHash := Hash_zero; hasGenesisBlock := false;
             miningDifficulty := miningDifficulty;
             forkTIP1 := gen_ForkTIP1 gen |} in
        let '(err, c) :=
          replay (bufio_Scan (default [] (fs !! f)))
                 {| this := state; world := w |} in
        match err with
        | Some e => (inl e, world c)
        | None => (inr (this c), world c)
        end
      end
    end
  end.

End Engine.

(** ** Reading a configuration *)

Definition balanceOf (c : Cfg) (account : Address) : Z :=
  index (heap (world c)) (Balances (this c)) account.

Definition nonceOf (c : Cfg) (account : Address) : Z :=
  index (heap (world c)) (Account2Nonce (this c)) account.

(** What [s.NextBlockNumber()] and [s.IsTIP1Fork()] answer in [c]. *)
Definition nextBlockNumber (c : Cfg) : Z := fst (NextBlockNumber c).

Definition forkActive (c : Cfg) : bool := fst (IsTIP1Fork c).

(** The two tables of the state are distinct maps, and balances are [uint]
    values. *)
Definition tables_ok (c : Cfg) : Prop :=
  Balances (this c) <> Account2Nonce (this c) /\
  map_Forall (fun _ balance => is_uint balance)
             (deref (heap (world c)) (Balances (this c))).

(** [c'] differs from [c] at most in the contents of the two tables of the
    state of [c]: the struct, the files and every other map are the same. *)
Definition writesTablesOnly (c c' : Cfg) : Prop :=
  this c' = this c /\
  files (world c') = files (world c) /\
  forall l : loc,
    l <> Balances (this c) -> l <> Account2Nonce (this c) ->
    heap (world c') !! l = heap (world c) !! l.

(** The sum over the transactions of gas times gas price, as a sum of
    integers. *)
Definition sumGasTimesPrice (txs : list SignedTx) : Z :=
  foldr (fun tx sum => tx_Gas tx * tx_GasPrice tx + sum) 0 txs.

(** The state [NewStateFromDisk] builds from the genesis before it reads the
    block log [f], with the world it leaves: two new maps, the first holding
    the balances of the genesis. *)
Definition seedCfg (gen : Genesis) (f : string) (difficulty : Z)
    (fs : gmap string (list byte)) (w : World) : Cfg :=
  let balances := fresh (dom (heap w)) in
  let h := <[balances := gen_Balances gen]> (heap w) in
  let account2nonce := fresh (dom h) in
  {| this := {| Balances := balances; Account2Nonce := account2nonce;
                dbFile := Some f; latestBlock := Block_zero;
                latestBlockHash := Hash_zero; hasGenesisBlock := false;
                miningDifficulty := difficulty;
                forkTIP1 := gen_ForkTIP1 gen |};
     world := {| heap := <[account2nonce := ∅]> h; files := fs |} |}.

(** What [NewStateFromDisk] returns after the loop. *)
Definition afterReplay (r : option Error * Cfg) : (Error + State) * World :=
  match fst r with
  | Some e => (inl e, world (snd r))
  | None => (inr (this (snd r)), world (snd r))
  end.

(** A data directory with a genesis file and the block log [log]. *)
Definition dataDirWith (log : list byte) : World :=
  {| heap := ∅;
     files := {[ "node/genesis.json"%string := [];
                 "node/block.db"%string := log ]} |}.

(** ** Kinds of errors *)

Definition isForged (e : option Error) : Prop := exists a, e = Some (ErrForged a).
Definition isBadNonce (e : option Error) : Prop :=
  exists a expected got, e = Some (ErrNonce a expected got).
Definition isInsufficientGas (e : option Error) : Prop := exists g, e = Some (ErrGas g).
Definition isInsufficientGasPrice (e : option Error) : Prop :=
  exists p, e = Some (ErrGasPrice p).
Definition isPrematureGasFields (e : option Error) : Prop := e = Some ErrPrematureGas.
Definition isInsufficientFunds (e : option Error) : Prop :=
  exists a balance cost, e = Some (ErrFunds a balance cost).
Definition isWrongBlockNumber (e : option Error) : Prop :=
  exists expected got, e = Some (ErrBlockNumber expected got).
Definition isWrongParent (e : option Error) : Prop :=
  exists latest parent, e = Some (ErrParent latest parent).

(** The errors that the validation of a transaction can return. *)
Definition fromValidation (e : Error) : bool :=
  match e with
  | ErrBlockNumber _ _ | ErrParent _ _ | ErrInvalidHash _ => false
  | _ => true
  end.

(** ** Order of the transactions of a block *)

(** Transactions with equal timestamps keep their relative order: for every
    timestamp, the transactions bearing it come in [sorted] in the order they
    have in [txs]. *)
Definition TiesKeepOrder (txs sorted : list SignedTx) : Prop :=
  forall t : Z,
    List.filter (fun tx => tx_Time tx =? t) sorted =
    List.filter (fun tx => tx_Time tx =? t) txs.

(** Ascending timestamps. *)
Definition ByTime (txs : list SignedTx) : Prop :=
  StronglySorted (fun a b => tx_Time a <= tx_Time b) txs.

(** ** Instances of the collaborators *)

(** Insertion sort, which is stable. *)
Fixpoint insertBy {A} (less : A -> A -> bool) (x : A) (l : list A) : list A :=
  match l with
  | [] => [x]
  | y :: rest => if less y x then y :: insertBy less x rest else x :: y :: rest
  end.

Definition insertionSort (A : Type) (less : A -> A -> bool) (l : list A) : list A :=
  foldr (insertBy less) [] l.

(** [sort.Slice] as the Go releases up to 1.18 run it on a slice of at most
    12 elements: one pass of Shell sort with gap 6,
    [for i := 6; i < n; i++ { if less(i, i-6) { swap(i, i-6) } }],
    then insertion sort. Longer slices, which go through quicksort there,
    take the same path here, which sorts them as well. *)
Definition swapIfLess {A} (less : A -> A -> bool) (l : list A) (i : nat) : list A :=
  match l !! i, l !! (i - 6)%nat with
  | Some x, Some y => if less x y then <[i := y]> (<[(i - 6)%nat := x]> l) else l
  | _, _ => l
  end.

Definition shellPass {A} (less : A -> A -> bool) (l : list A) : list A :=
  fold_left (swapIfLess less) (seq 6 (length l - 6)) l.

Definition shellInsertionSort (A : Type) (less : A -> A -> bool) (l : list A) : list A :=
  insertionSort A less (shellPass less l).

(** Lines of a file, as [bufio.ScanLines] splits a short file read without
    error. *)
Fixpoint splitLines (line : list byte) (content : list byte) : list (list byte) :=
  match content with
  | [] => match line with [] => [] | _ => [rev line] end
  | b :: rest =>
    if Byte.eqb b newline then rev line :: splitLines [] rest
    else splitLines (b :: line) rest
  end.

(** A toy record format: an opening brace, the low byte of the block number
    and a closing brace. *)
Definition toyMarshal (blockFs : BlockFS) : string + list byte :=
  match Byte.of_N (Z.to_N (hd_Number (Header (Value blockFs)) mod 256)) with
  | Some n => inr [Byte.x7b; n; Byte.x7d]
  | None => inl "unsupported value"%string
  end.

Definition toyUnmarshal (data : list byte) : string + BlockFS :=
  match data with
  | [Byte.x7b; n; Byte.x7d] =>
    inr {| Key := (Byte.to_N n + 1)%N;
           Value := {| Header := {| hd_Parent := Byte.to_N n;
                                    hd_Number := Z.of_N (Byte.to_N n);
                                    hd_Nonce := 0; hd_Time := 0;
                                    hd_Miner := 9%N |};
                       TXs := [] |} |}
  | _ => inl "invalid character looking for beginning of value"%string
  end.

(** A disk that holds [capacity] bytes per file: a write that does not fit
    is cut short and reported. *)
Definition boundedWrite (capacity : nat) (old data : list byte) : nat * option string :=
  let room := (capacity - length old)%nat in
  if (length data <=? room)%nat then (length data, None)
  else (room, Some "no space left on device"%string).

Definition lookupFile (path : string) (fs : gmap string (list byte)) : string + list byte :=
  match fs !! path with
  | Some content => inr content
  | None => inl "no such file or directory"%string
  end.

Definition toyGenesis : Genesis :=
  {| gen_Balances := {[ 1%N := 1000 ]}; gen_Symbol := "TBB"; gen_ForkTIP1 := 35 |}.

(** A transaction is taken as authentic when it bears a signature; the hash
    of a block is read off its number and its first transaction. *)
Definition toyExternal (sort : forall A : Type, (A -> A -> bool) -> list A -> list A)
    (capacity : nat) : External :=
  {| IsAuthentic := fun tx =>
       (match tx_Sig tx with [] => false | _ => true end, None);
     Block_Hash := fun b =>
       inr (Z.to_N (hd_Number (Header b)) * 1000
            + match TXs b with [] => 0 | tx :: _ => tx_From tx end + 1)%N;
     IsBlockHashValid := fun _ _ => true;
     BlockReward := 100;
     sort_Slice := sort;
     json_Marshal := toyMarshal;
     json_Unmarshal := toyUnmarshal;
     os_Write := boundedWrite capacity;
     genesisJson := [];
     InitDataDirIfNotExists := fun _ _ fs => (None, fs);
     getGenesisJsonFilePath := fun dir => (dir ++ "/genesis.json")%string;
     getBlocksDbFilePath := fun dir => (dir ++ "/block.db")%string;
     ioutil_ReadFile := lookupFile;
     json_Unmarshal_Genesis := fun _ => inr toyGenesis;
     os_OpenFile := fun path fs =>
       match lookupFile path fs with inl e => inl e | inr _ => inr path end;
     bufio_Scan := fun content => (fun line => (line, None)) <$> splitLines [] content |}.

Definition stableNode : External := toyExternal insertionSort 64.
Definition shellNode : External := toyExternal shellInsertionSort 64.
Definition fullDiskNode : External := toyExternal insertionSort 2.

(** A record format that keeps the whole block: every number in hexadecimal
    digits of fixed width (16 for a hash, an address or a [uint], 2 for a
    count or a byte), the key first, then the header, the number of
    transactions and the transactions, each ending with its signature. *)
Definition hexDigit (n : N) : byte :=
  nth (N.to_nat n)
      [Byte.x30; Byte.x31; Byte.x32; Byte.x33; Byte.x34; Byte.x35; Byte.x36; Byte.x37;
       Byte.x38; Byte.x39; Byte.x61; Byte.x62; Byte.x63; Byte.x64; Byte.x65; Byte.x66]
      Byte.x30.

Definition hexValue (b : byte) : option N :=
  let n := Byte.to_N b in
  if ((48 <=? n) && (n <=? 57))%N then Some (n - 48)%N
  else if ((97 <=? n) && (n <=? 102))%N then Some (n - 87)%N
  else None.

Fixpoint hexOf (digits : nat) (n : N) : list byte :=
  match digits with
  | O => []
  | S d => hexOf d (n / 16) ++ [hexDigit (n mod 16)]
  end.

Definition hexTo (digits : list byte) : option N :=
  fold_left (fun acc b =>
               match acc, hexValue b with
               | Some a, Some v => Some (a * 16 + v)%N
               | _, _ => None
               end) digits (Some 0%N).

Definition readN (width : nat) (input : list byte) : option (N * list byte) :=
  if (length input <? width)%nat then None
  else match hexTo (take width input) with
       | Some n => Some (n, drop width input)
       | None => None
       end.

Definition readZ (width : nat) (input : list byte) : option (Z * list byte) :=
  match readN width input with
  | Some (n, rest) => Some (Z.of_N n, rest)
  | None => None
  end.

Fixpoint readBytes (count : nat) (input : list byte) : option (list byte * list byte) :=
  match count with
  | O => Some ([], input)
  | S k =>
    match readN 2 input with
    | Some (n, rest) =>
      match Byte.of_N n, readBytes k rest with
      | Some b, Some (bs, rest) => Some (b :: bs, rest)
      | _, _ => None
      end
    | None => None
    end
  end.

Definition writeTx (tx : SignedTx) : list byte :=
  hexOf 16 (tx_From tx) ++ hexOf 16 (tx_To tx)
  ++ hexOf 16 (Z.to_N (tx_Gas tx)) ++ hexOf 16 (Z.to_N (tx_GasPrice tx))
  ++ hexOf 16 (Z.to_N (tx_Value tx)) ++ hexOf 16 (Z.to_N (tx_Nonce tx))
  ++ hexOf 16 (Z.to_N (tx_Time tx))
  ++ hexOf 2 (N.of_nat (length (tx_Sig tx)))
  ++ flat_map (fun b => hexOf 2 (Byte.to_N b)) (tx_Sig tx).

Definition readTx (input : list byte) : option (SignedTx * list byte) :=
  match readN 16 input with
  | Some (from, input) =>
    match readN 16 input with
    | Some (to, input) =>
      match readZ 16 input with
      | Some (gas, input) =>
        match readZ 16 input with
        | Some (gasPrice, input) =>
          match readZ 16 input with
          | Some (value, input) =>
            match readZ 16 input with
            | Some (nonce, input) =>
              match readZ 16 input with
              | Some (time, input) =>
                match readN 2 input with
                | Some (count, input) =>
                  match readBytes (N.to_nat count) input with
                  | Some (sig, input) =>
                    Some ({| tx_From := from; tx_To := to; tx_Gas := gas;
                             tx_GasPrice := gasPrice; tx_Value := value;
                             tx_Nonce := nonce; tx_Time := time; tx_Sig := sig |},
                          input)
                  | None => None
                  end
                | None => None
                end
              | None => None
              end
            | None => None
            end
          | None => None
          end
        | None => None
        end
      | None => None
      end
    | None => None
    end
  | None => None
  end.

Fixpoint readTxs (count : nat) (input : list byte) : option (list SignedTx * list byte) :=
  match count with
  | O => Some ([], input)
  | S k =>
    match readTx input with
    | Some (tx, rest) =>
      match readTxs k rest with
      | Some (txs, rest) => Some (tx :: txs, rest)
      | None => None
      end
    | None => None
    end
  end.

Definition recordMarshal (blockFs : BlockFS) : string + list byte :=
  let b := Value blockFs in
  inr (hexOf 16 (Key blockFs)
       ++ hexOf 16 (hd_Parent (Header b)) ++ hexOf 16 (Z.to_N (hd_Number (Header b)))
       ++ hexOf 16 (Z.to_N (hd_Nonce (Header b))) ++ hexOf 16 (Z.to_N (hd_Time (Header b)))
       ++ hexOf 16 (hd_Miner (Header b))
       ++ hexOf 2 (N.of_nat (length (TXs b)))
       ++ flat_map writeTx (TXs b)).

Definition recordUnmarshal (data : list byte) : string + BlockFS :=
  let decoded :=
    match readN 16 data with
    | Some (key, input) =>
      match readN 16 input with
      | Some (parent, input) =>
        match readZ 16 input with
        | Some (number, input) =>
          match readZ 16 input with
          | Some (nonce, input) =>
            match readZ 16 input with
            | Some (time, input) =>
              match readN 16 input with
              | Some (miner, input) =>
                match readN 2 input with
                | Some (count, input) =>
                  match readTxs (N.to_nat count) input with
                  | Some (txs, []) =>
                    Some {| Key := key;
                            Value := {| Header := {| hd_Parent := parent;
                                                     hd_Number := number;
                                                     hd_Nonce := nonce;
                                                     hd_Time := time;
                                                     hd_Miner := miner |};
                                        TXs := txs |} |}
                  | _ => None
                  end
                | None => None
                end
              | None => None
              end
            | None => None
            end
          | None => None
          end
        | None => None
        end
      | None => None
      end
    | None => None
    end in
  match decoded with
  | Some blockFs => inr blockFs
  | None => inl "invalid character looking for beginning of value"%string
  end.

(** A node that keeps whole records, whose hash of a block depends on the
    number of the block, on the nonce of its header and on the transaction
    that comes first, and whose proof of work asks for a hash that ends in
    [difficulty] zero bits. *)
Definition recordingNode : External :=
  {| IsAuthentic := @IsAuthentic stableNode;
     Block_Hash := fun b =>
       inr (Z.to_N (hd_Number (Header b)) * 1000 + Z.to_N (hd_Nonce (Header b))
            + match TXs b with [] => 0 | tx :: _ => Z.to_N (tx_Nonce tx) end)%N;
     IsBlockHashValid := fun hash difficulty => Z.of_N hash mod 2 ^ difficulty =? 0;
     BlockReward := 100;
     sort_Slice := insertionSort;
     json_Marshal := recordMarshal;
     json_Unmarshal := recordUnmarshal;
     os_Write := boundedWrite 4096;
     genesisJson := [];
     InitDataDirIfNotExists := @InitDataDirIfNotExists stableNode;
     getGenesisJsonFilePath := @getGenesisJsonFilePath stableNode;
     getBlocksDbFilePath := @getBlocksDbFilePath stableNode;
     ioutil_ReadFile := @ioutil_ReadFile stableNode;
     json_Unmarshal_Genesis := @json_Unmarshal_Genesis stableNode;
     os_OpenFile := @os_OpenFile stableNode;
     bufio_Scan := @bufio_Scan stableNode |}.

Definition alice : Address := 1%N.
Definition bob : Address := 2%N.
Definition carol : Address := 7%N.

(** A ledger in which [alice] holds 1000 and [bob] holds 5, with no block
    committed and the fork at block [fork]. *)
Definition ledger (fork : Z) : Cfg :=
  {| this := {| Balances := 1%positive; Account2Nonce := 2%positive;
                dbFile := Some "block.db"%string; latestBlock := Block_zero;
                latestBlockHash := Hash_zero; hasGenesisBlock := false;
                miningDifficulty := 0; forkTIP1 := fork |};
     world := {| heap := {[ 1%positive := {[ alice := 1000; bob := 5 ]};
                            2%positive := ∅ ]};
                 files := {[ "block.db"%string := [] ]} |} |}.

Definition transfer (from to : Address) (value nonce time gas gasPrice : Z) : SignedTx :=
  {| tx_From := from; tx_To := to; tx_Gas := gas; tx_GasPrice := gasPrice;
     tx_Value := value; tx_Nonce := nonce; tx_Time := time;
     tx_Sig := [Byte.x01] |}.

Definition blockOf (number : Z) (parent : Hash) (miner : Address)
    (txs : list SignedTx) : Block :=
  {| Header := {| hd_Parent := parent; hd_Number := number; hd_Nonce := 0;
                  hd_Time := 0; hd_Miner := miner |};
     TXs := txs |}.

(** The block [b] with the nonce [nonce] in its header. *)
Definition mined (nonce : Z) (b : Block) : Block :=
  {| Header := {| hd_Parent := hd_Parent (Header b); hd_Number := hd_Number (Header b);
                  hd_Nonce := nonce; hd_Time := hd_Time (Header b);
                  hd_Miner := hd_Miner (Header b) |};
     TXs := TXs b |}.

(** ** Ledgers *)

(** Two configurations hold the same ledger: the scalar fields of the two
    states agree and their tables have the same entries, wherever the maps
    are in the heap. *)
Definition sameLedger (c1 c2 : Cfg) : Prop :=
  latestBlock (this c1) = latestBlock (this c2) /\
  latestBlockHash (this c1) = latestBlockHash (this c2) /\
  hasGenesisBlock (this c1) = hasGenesisBlock (this c2) /\
  miningDifficulty (this c1) = miningDifficulty (this c2) /\
  forkTIP1 (this c1) = forkTIP1 (this c2) /\
  deref (heap (world c1)) (Balances (this c1)) =
    deref (heap (world c2)) (Balances (this c2)) /\
  deref (heap (world c1)) (Account2Nonce (this c1)) =
    deref (heap (world c2)) (Account2Nonce (this c2)).

(** The sum of the balances of the state. *)
Definition totalSupply (c : Cfg) : Z :=
  map_fold (fun _ balance sum => balance + sum) 0
           (deref (heap (world c)) (Balances (this c))).

(** The number of transactions of [txs] sent by [account]. *)
Definition sentBy (account : Address) (txs : list SignedTx) : Z :=
  Z.of_nat (length (List.filter (fun tx => N.eqb (tx_From tx) account) txs)).

(** What the documentation of [os.File.Write] promises: a write that returns
    no error has written all the bytes. *)
Definition WriteContract (E : External) : Prop :=
  forall (old data : list byte) (n : nat),
    os_Write old data = (n, None) -> n = length data.

(** The tables of the state are two distinct maps of the heap. *)
Definition ledger_ok (c : Cfg) : Prop :=
  Balances (this c) ∈ dom (heap (world c)) /\
  Account2Nonce (this c) ∈ dom (heap (world c)) /\
  Balances (this c) <> Account2Nonce (this c).

(** The configuration [AddBlock] applies the block in: the struct [Copy]
    returned as the receiver, in the world [Copy] left. *)
Definition pendingCfg (c : Cfg) : Cfg :=
  {| this := fst (Copy c); world := world (snd (Copy c)) |}.

(** The block as [applyTXs] leaves it, with its transactions sorted. *)
Definition sortedBlock {E : External} (b : Block) : Block :=
  withTXs b (sort_Slice SignedTx txLess (TXs b)).

(** The transactions of the block come in strictly ascending order of
    timestamp. *)
Definition inTimeOrder (b : Block) : Prop :=
  StronglySorted (fun tx tx' => tx_Time tx < tx_Time tx') (TXs b).

(** [token] is the record [AddBlock] writes for the block [b], as the scanner
    delivers it: the bytes [json.Marshal] gives for [b] with its transactions
    sorted under the hash of that block, which are not empty, which
    [json.Unmarshal] decodes to the same value, and which are read without
    error. *)
Definition logged {E : External} (b : Block) (token : list byte * option string) : Prop :=
  exists h,
    Block_Hash (sortedBlock b) = inr h /\
    json_Marshal {| Key := h; Value := sortedBlock b |} = inr (fst token) /\
    json_Unmarshal (fst token) = inr {| Key := h; Value := sortedBlock b |} /\
    fst token <> [] /\
    snd token = None.

(** The fees of a list of transactions under a regime: the gas cost of each
    under the fork, the flat fee before it. *)
Definition feeOf (fork : bool) (tx : SignedTx) : Z :=
  if fork then GasCost tx else TxFee.

Definition feesOf (fork : bool) (txs : list SignedTx) : Z :=
  foldr (fun tx sum => feeOf fork tx + sum) 0 txs.

(** ** Tactics *)

Ltac run :=
  unfold mbind, M_bind, mret, M_ret, field, assign, mapIndex, mapAssign; cbn.

Ltac bools :=
  repeat match goal with
  | H : negb _ = true |- _ => apply negb_true_iff in H
  | H : negb _ = false |- _ => apply negb_false_iff in H
  | H : (_ && _) = true |- _ => apply andb_true_iff in H; destruct H
  | H : (_ || _) = false |- _ => apply orb_false_iff in H; destruct H
  | H : (_ =? _) = true |- _ => apply Z.eqb_eq in H
  | H : (_ =? _) = false |- _ => apply Z.eqb_neq in H
  | H : (_ <? _) = true |- _ => apply Z.ltb_lt in H
  | H : (_ <? _) = false |- _ => apply Z.ltb_ge in H
  | H : (_ <=? _) = true |- _ => apply Z.leb_le in H
  | H : (_ <=? _) = false |- _ => apply Z.leb_gt in H
  end.

Ltac finish :=
  repeat (split ||
          match goal with
          | |- ~ _ => intro
          | |- _ -> _ => intro
          | |- forall _, _ => intro
          end);
  repeat match goal with
  | H : ex _ |- _ => destruct H
  | H : _ /\ _ |- _ => destruct H
  | H : _ \/ _ |- _ => destruct H
  end;
  try congruence; try lia; eauto.

(** Fields of a configuration given by its two components. *)
Ltac cfg_proj :=
  repeat match goal with
  | |- context [this {| this := ?s; world := ?w |}] =>
    change (this {| this := s; world := w |}) with s
  | |- context [world {| this := ?s; world := ?w |}] =>
    change (world {| this := s; world := w |}) with w
  end.

(** * Properties *)

(** ** Running the computations *)

Lemma NextBlockNumber_run (c : Cfg) :
  NextBlockNumber c = (nextBlockNumber c, c).
Proof.
  unfold nextBlockNumber, NextBlockNumber, LatestBlock. run.
  destruct (hasGenesisBlock (this c)); reflexivity.
Qed.

Lemma IsTIP1Fork_run (c : Cfg) : IsTIP1Fork c = (forkActive c, c).
Proof.
  unfold forkActive, IsTIP1Fork. run.
  rewrite NextBlockNumber_run. reflexivity.
Qed.

Lemma GetNextAccountNonce_run (account : Address) (c : Cfg) :
  GetNextAccountNonce account c = (wrap (nonceOf c account + 1), c).
Proof. reflexivity. Qed.

Lemma nextBlockNumber_eq (c : Cfg) :
  nextBlockNumber c =
  if hasGenesisBlock (this c)
  then wrap (hd_Number (Header (latestBlock (this c))) + 1) else 0.
Proof.
  unfold nextBlockNumber, NextBlockNumber, LatestBlock. run.
  destruct (hasGenesisBlock (this c)); reflexivity.
Qed.

Lemma forkActive_eq (c : Cfg) :
  forkActive c = (forkTIP1 (this c) <=? nextBlockNumber c).
Proof.
  unfold forkActive, IsTIP1Fork. run. rewrite NextBlockNumber_run. reflexivity.
Qed.

Lemma forkActive_this (c c' : Cfg) : this c' = this c -> forkActive c' = forkActive c.
Proof.
  intros H. rewrite !forkActive_eq, !nextBlockNumber_eq, H. reflexivity.
Qed.

Lemma ValidateTx_run {E : External} (tx : SignedTx) (c : Cfg) :
  ValidateTx tx c = (fst (ValidateTx tx c), c).
Proof.
  unfold ValidateTx.
  destruct (IsAuthentic tx) as [[|] [msg|]]; try reflexivity.
  unfold mbind, M_bind. rewrite GetNextAccountNonce_run.
  case_match; [reflexivity|].
  rewrite IsTIP1Fork_run.
  case_match; [reflexivity|].
  rewrite IsTIP1Fork_run. run.
  destruct (index _ _ _ <? _); reflexivity.
Qed.

Lemma ValidateTx_result {E : External} (tx : SignedTx) (c : Cfg) :
  fst (ValidateTx tx c) =
  match IsAuthentic tx with
  | (_, Some err) => Some (ErrExternal err)
  | (false, None) => Some (ErrForged (tx_From tx))
  | (true, None) =>
    let expectedNonce := fst (GetNextAccountNonce (tx_From tx) c) in
    if negb (tx_Nonce tx =? expectedNonce)
    then Some (ErrNonce (tx_From tx) expectedNonce (tx_Nonce tx))
    else if forkActive c && negb (tx_Gas tx =? TxGas)
    then Some (ErrGas (tx_Gas tx))
    else if forkActive c && (tx_GasPrice tx <? TxGasPriceDefault)
    then Some (ErrGasPrice (tx_GasPrice tx))
    else if negb (forkActive c) && (negb (tx_Gas tx =? 0) || negb (tx_GasPrice tx =? 0))
    then Some ErrPrematureGas
    else if balanceOf c (tx_From tx) <? Cost tx (forkActive c)
    then Some (ErrFunds (tx_From tx) (balanceOf c (tx_From tx)) (Cost tx (forkActive c)))
    else None
  end.
Proof.
  unfold ValidateTx.
  destruct (IsAuthentic tx) as [[|] [msg|]]; try reflexivity.
  unfold mbind, M_bind. rewrite GetNextAccountNonce_run. cbn [fst].
  destruct (negb (tx_Nonce tx =? _)); [reflexivity|].
  rewrite IsTIP1Fork_run.
  destruct (forkActive c) eqn:Hfork; cbn [andb negb].
  - destruct (negb (tx_Gas tx =? TxGas)); [reflexivity|].
    destruct (tx_GasPrice tx <? TxGasPriceDefault); [reflexivity|].
    rewrite IsTIP1Fork_run, Hfork. run. unfold balanceOf.
    destruct (index _ _ _ <? _); reflexivity.
  - destruct (negb (tx_Gas tx =? 0) || negb (tx_GasPrice tx =? 0)); [reflexivity|].
    rewrite IsTIP1Fork_run, Hfork. run. unfold balanceOf.
    destruct (index _ _ _ <? _); reflexivity.
Qed.

(** C9. Validation of a transaction leaves the configuration it runs on as
    it found it, whatever its verdict: the struct of the state (tables,
    latest block and its hash, genesis flag, difficulty, fork threshold),
    the contents of every map and the files are the same after the call. *)
Theorem ValidateTx_reads_only {E : External} (tx : SignedTx) (c : Cfg) :
  snd (ValidateTx tx c) = c.
Proof. rewrite ValidateTx_run. reflexivity. Qed.

(** C3. With the fork flag being [forkTIP1 <= next block number]: for a
    transaction that reaches the check of the fee fields (authentic, with
    the expected nonce), under the fork validation fails for insufficient
    gas exactly when [tx.Gas] is not 22, and for an insufficient gas price
    exactly when the gas is right and [tx.GasPrice] is below 2; before the
    fork it fails for premature gas fields exactly when [tx.Gas] or
    [tx.GasPrice] is not zero. *)
Theorem ValidateTx_fee_fields {E : External} (tx : SignedTx) (c : Cfg) :
  IsAuthentic tx = (true, None) ->
  tx_Nonce tx = fst (GetNextAccountNonce (tx_From tx) c) ->
  let err := fst (ValidateTx tx c) in
  forkActive c = (forkTIP1 (this c) <=? nextBlockNumber c) /\
  (forkActive c = true ->
     (isInsufficientGas err <-> tx_Gas tx <> 22) /\
     (isInsufficientGasPrice err <-> tx_Gas tx = 22 /\ tx_GasPrice tx < 2) /\
     ~ isPrematureGasFields err) /\
  (forkActive c = false ->
     (isPrematureGasFields err <-> tx_Gas tx <> 0 \/ tx_GasPrice tx <> 0) /\
     ~ isInsufficientGas err /\ ~ isInsufficientGasPrice err).
Proof.
  intros Hauth Hnonce err. split; [apply forkActive_eq|].
  subst err. rewrite ValidateTx_result, Hauth. cbn zeta.
  rewrite <- Hnonce, Z.eqb_refl. cbn [negb].
  unfold isInsufficientGas, isInsufficientGasPrice, isPrematureGasFields,
    TxGas, TxGasPriceDefault.
  split; intros Hfork; rewrite Hfork; cbn [andb negb].
  - destruct (tx_Gas tx =? 22) eqn:Hgas; cbn [negb];
      [destruct (tx_GasPrice tx <? 2) eqn:Hprice;
         [|destruct (balanceOf _ _ <? _)]|];
      bools; finish.
  - destruct (tx_Gas tx =? 0) eqn:Hgas; destruct (tx_GasPrice tx =? 0) eqn:Hprice;
      cbn [negb orb]; try (destruct (balanceOf _ _ <? _)); bools; finish.
Qed.

(** At block 0 of a chain forking at 35 a transaction with gas 7 fails as
    premature; forking at 0, it fails for insufficient gas. *)
Lemma ValidateTx_fee_fields_witness :
  isPrematureGasFields
    (fst (ValidateTx (E := stableNode) (transfer alice bob 100 1 10 7 0) (ledger 35))) /\
  isInsufficientGas
    (fst (ValidateTx (E := stableNode) (transfer alice bob 100 1 10 7 0) (ledger 0))).
Proof.
  split.
  - apply (ValidateTx_fee_fields (E := stableNode) (transfer alice bob 100 1 10 7 0) (ledger 35));
      [reflexivity | reflexivity | reflexivity | left; discriminate].
  - apply (ValidateTx_fee_fields (E := stableNode) (transfer alice bob 100 1 10 7 0) (ledger 0));
      [reflexivity | reflexivity | reflexivity | discriminate].
Defined.

(** ** Reading and writing the heap of maps *)

Lemma index_store (l l' : loc) (k k' : Address) (v : Z) (w : World) :
  index (heap (store l k v w)) l' k' =
  if decide (l = l' /\ k = k') then v else index (heap w) l' k'.
Proof.
  unfold index, deref, store. cbn.
  destruct (decide (l = l')) as [->|Hl].
  - rewrite lookup_insert_eq. cbn.
    destruct (decide (k = k')) as [->|Hk].
    + rewrite lookup_insert_eq. rewrite decide_True by done. reflexivity.
    + rewrite lookup_insert_ne by done. rewrite decide_False by (intros [? ?]; congruence).
      reflexivity.
  - rewrite lookup_insert_ne by done. rewrite decide_False by (intros [? ?]; congruence).
    reflexivity.
Qed.

(** Reads of a heap after writes, by cases on the locations and keys. *)
Ltac heap_cases :=
  rewrite ?index_store;
  repeat case_decide;
  repeat match goal with H : _ /\ _ |- _ => destruct H end;
  try congruence;
  try (exfalso;
       match goal with
       | H : ~ (_ /\ _) |- _ => solve [apply H; split; congruence]
       end).

Lemma store_other (l l' : loc) (k : Address) (v : Z) (w : World) :
  l' <> l -> heap (store l k v w) !! l' = heap w !! l'.
Proof. intros H. unfold store. cbn. by rewrite lookup_insert_ne. Qed.

Lemma balance_is_uint (c : Cfg) (account : Address) :
  tables_ok c -> is_uint (balanceOf c account).
Proof.
  intros [_ H]. unfold balanceOf, index.
  destruct (deref _ _ !! account) as [v|] eqn:Hv; cbn.
  - exact (H account v Hv).
  - unfold is_uint, uint_size. lia.
Qed.

Lemma wrap_is_uint (z : Z) : is_uint (wrap z).
Proof. unfold is_uint, wrap, uint_size. apply Z.mod_pos_bound. lia. Qed.

Lemma wrap_uint (z : Z) : is_uint z -> wrap z = z.
Proof. unfold is_uint, wrap. intros H. apply Z.mod_small. exact H. Qed.

Lemma Cost_is_uint (tx : SignedTx) (fork : bool) : is_uint (Cost tx fork).
Proof. unfold Cost. destruct fork; apply wrap_is_uint. Qed.

(** ** Nonces *)

(** C6. [GetNextAccountNonce] answers the last-used nonce of the account
    plus 1 in [uint] arithmetic, an account absent from the nonce table
    counting as 0, so that its next nonce is 1; and an authentic transaction
    is refused for its nonce exactly when that nonce differs from the next
    nonce of its sender in the snapshot. *)
Theorem next_nonce_rule {E : External} (c : Cfg) :
  (forall account,
     fst (GetNextAccountNonce account c) = wrap (nonceOf c account + 1) /\
     (deref (heap (world c)) (Account2Nonce (this c)) !! account = None ->
      fst (GetNextAccountNonce account c) = 1) /\
     (0 <= nonceOf c account < uint_size - 1 ->
      fst (GetNextAccountNonce account c) = nonceOf c account + 1)) /\
  (forall tx,
     IsAuthentic tx = (true, None) ->
     (isBadNonce (fst (ValidateTx tx c)) <->
      tx_Nonce tx <> fst (GetNextAccountNonce (tx_From tx) c))).
Proof.
  split.
  - intros account. rewrite GetNextAccountNonce_run. cbn [fst].
    split; [reflexivity|]. split.
    + intros Habsent. unfold nonceOf, index. rewrite Habsent. reflexivity.
    + intros Hrange. apply wrap_uint. unfold is_uint. lia.
  - intros tx Hauth. rewrite ValidateTx_result, Hauth. cbn zeta.
    unfold isBadNonce.
    destruct (tx_Nonce tx =? _) eqn:Hnonce; cbn [negb]; bools;
      [|split; [intros _; exact Hnonce | eauto]].
    split; [|congruence].
    intros (a & expected & got & H).
    repeat match type of H with
    | (if ?b then _ else _) = _ => destruct b
    end; congruence.
Qed.

(** A first transaction of [alice] must bear nonce 1: nonce 2 is refused. *)
Lemma next_nonce_rule_witness :
  fst (GetNextAccountNonce alice (ledger 35)) = 1 /\
  isBadNonce (fst (ValidateTx (E := stableNode) (transfer alice bob 100 2 10 0 0)
                              (ledger 35))).
Proof.
  destruct (next_nonce_rule (E := stableNode) (ledger 35)) as [Hnext Hbad].
  split.
  - destruct (Hnext alice) as (_ & Habsent & _). apply Habsent. reflexivity.
  - apply (Hbad (transfer alice bob 100 2 10 0 0)); [reflexivity|].
    vm_compute. discriminate.
Defined.

(** ** Funds *)

Lemma ValidateTx_funds {E : External} (tx : SignedTx) (c : Cfg) :
  let balance := balanceOf c (tx_From tx) in
  let cost := Cost tx (forkActive c) in
  (isInsufficientFunds (fst (ValidateTx tx c)) -> balance < cost) /\
  (fst (ValidateTx tx c) = None -> cost <= balance).
Proof.
  intros balance cost. rewrite ValidateTx_result.
  destruct (IsAuthentic tx) as [[|] [msg|]]; cbn zeta;
    try (split; [intros (a & b & k & H); discriminate | discriminate]).
  fold balance cost.
  repeat match goal with
  | |- context [if ?b then Some ?e else _] =>
    lazymatch e with
    | ErrFunds _ _ _ => fail
    | _ => destruct b; [split; [intros (a & b' & k & H); discriminate | discriminate]|]
    end
  end.
  destruct (balance <? cost) eqn:Hlt; bools.
  - split; [intros _; exact Hlt | discriminate].
  - split; [intros (a & b' & k & H); discriminate | intros _; exact Hlt].
Qed.

Lemma debit_is_exact (balance cost : Z) :
  is_uint balance -> is_uint cost -> cost <= balance ->
  wrap (balance - cost) = balance - cost.
Proof. intros Hb Hc Hle. apply wrap_uint. unfold is_uint in *. lia. Qed.

Lemma ApplyTx_run {E : External} (tx : SignedTx) (c : Cfg) :
  ApplyTx tx c =
  match fst (ValidateTx tx c) with
  | Some e => (Some e, c)
  | None =>
    let balances := Balances (this c) in
    let debited :=
      store balances (tx_From tx)
            (wrap (balanceOf c (tx_From tx) - Cost tx (forkActive c))) (world c) in
    let credited :=
      store balances (tx_To tx)
            (wrap (index (heap debited) balances (tx_To tx) + tx_Value tx)) debited in
    (None, {| this := this c;
              world := store (Account2Nonce (this c)) (tx_From tx) (tx_Nonce tx)
                             credited |})
  end.
Proof.
  unfold ApplyTx, mbind, M_bind. rewrite ValidateTx_run.
  destruct (fst (ValidateTx tx c)); [reflexivity|].
  run. rewrite IsTIP1Fork_run. reflexivity.
Qed.

(** C10. When validation of a transaction succeeds, its cost under the fork
    flag of the state is at most the balance of its sender; the funds check
    refuses only a cost strictly above the balance. [ApplyTx] then succeeds,
    and the subtraction it performs on the balance of the sender does not
    wrap: the value it writes for the sender is the difference
    [balance - cost] itself, which is not negative, and the state it returns
    is that debit followed by the credit of the recipient and the nonce. A
    sender who is not the recipient is left with [balance - cost], with
    exactly 0 when the cost equals the balance. *)
Theorem validated_debit_does_not_underflow {E : External} (tx : SignedTx) (c : Cfg) :
  is_uint (balanceOf c (tx_From tx)) ->
  let balance := balanceOf c (tx_From tx) in
  let cost := Cost tx (forkActive c) in
  (isInsufficientFunds (fst (ValidateTx tx c)) -> balance < cost) /\
  (cost = balance -> ~ isInsufficientFunds (fst (ValidateTx tx c))) /\
  (fst (ValidateTx tx c) = None ->
   cost <= balance /\
   wrap (balance - cost) = balance - cost /\
   0 <= balance - cost /\
   (cost = balance -> wrap (balance - cost) = 0) /\
   let balances := Balances (this c) in
   let debited := store balances (tx_From tx) (balance - cost) (world c) in
   let credited :=
     store balances (tx_To tx)
           (wrap (index (heap debited) balances (tx_To tx) + tx_Value tx)) debited in
   ApplyTx tx c =
     (None, {| this := this c;
               world := store (Account2Nonce (this c)) (tx_From tx) (tx_Nonce tx)
                              credited |}) /\
   index (heap debited) balances (tx_From tx) = balance - cost /\
   (tx_From tx <> tx_To tx -> balances <> Account2Nonce (this c) ->
    balanceOf (snd (ApplyTx tx c)) (tx_From tx) = balance - cost /\
    (cost = balance -> balanceOf (snd (ApplyTx tx c)) (tx_From tx) = 0))).
Proof.
  intros Hbal balance cost.
  pose proof (Cost_is_uint tx (forkActive c)) as Hcost.
  destruct (ValidateTx_funds tx c) as [Hbad Hok].
  fold balance cost in Hbad, Hok, Hcost, Hbal.
  split; [exact Hbad|].
  split; [intros Heq Hfunds; specialize (Hbad Hfunds); lia|].
  intros Hnone. specialize (Hok Hnone).
  pose proof (debit_is_exact balance cost Hbal Hcost Hok) as Hexact.
  split; [exact Hok|]. split; [exact Hexact|]. split; [lia|].
  split; [intros Heq; rewrite Hexact; lia|].
  cbn zeta.
  assert (Hrun : ApplyTx tx c =
    (None, {| this := this c;
              world := store (Account2Nonce (this c)) (tx_From tx) (tx_Nonce tx)
                (store (Balances (this c)) (tx_To tx)
                   (wrap (index (heap (store (Balances (this c)) (tx_From tx)
                                         (balance - cost) (world c)))
                                (Balances (this c)) (tx_To tx) + tx_Value tx))
                   (store (Balances (this c)) (tx_From tx) (balance - cost)
                          (world c))) |})).
  { rewrite ApplyTx_run, Hnone. cbn zeta. fold balance cost. rewrite Hexact.
    reflexivity. }
  split; [exact Hrun|].
  split; [heap_cases|].
  intros Hne Hdistinct. rewrite Hrun. unfold balanceOf. cfg_proj.
  assert (Hleft : index (heap (store (Account2Nonce (this c)) (tx_From tx) (tx_Nonce tx)
                    (store (Balances (this c)) (tx_To tx)
                       (wrap (index (heap (store (Balances (this c)) (tx_From tx)
                                             (balance - cost) (world c)))
                                    (Balances (this c)) (tx_To tx) + tx_Value tx))
                       (store (Balances (this c)) (tx_From tx) (balance - cost)
                              (world c)))))
                  (Balances (this c)) (tx_From tx) = balance - cost) by heap_cases.
  split; [exact Hleft|]. intros Heq.
  transitivity (balance - cost); [exact Hleft | lia].
Qed.

(** [alice] holds 1000: before the fork a transfer of 978 costs 1000, is
    accepted, and [ApplyTx] leaves her 0. *)
Lemma validated_debit_does_not_underflow_witness :
  Cost (transfer alice bob 978 1 10 0 0) (forkActive (ledger 35)) <=
  balanceOf (ledger 35) alice /\
  fst (ApplyTx (E := stableNode) (transfer alice bob 978 1 10 0 0) (ledger 35)) = None /\
  balanceOf (snd (ApplyTx (E := stableNode) (transfer alice bob 978 1 10 0 0) (ledger 35)))
            alice = 0.
Proof.
  destruct (validated_debit_does_not_underflow (E := stableNode)
              (transfer alice bob 978 1 10 0 0) (ledger 35)) as (_ & _ & H).
  - vm_compute. split; [discriminate | reflexivity].
  - destruct H as (Hle & _ & _ & _ & Hrun & _ & Hleft); [reflexivity|].
    split; [exact Hle|]. split; [rewrite Hrun; reflexivity|].
    destruct Hleft as [_ Hzero]; [discriminate | discriminate |].
    apply Hzero. reflexivity.
Defined.

(** ** Application of a transaction *)

(** C8, as the code has it. A transaction applied with success on a state
    whose tables are distinct maps of [uint] balances debits its sender by
    its cost, which already contains the value: [value + gas*gas_price]
    under the fork and [value + 22] before it, in [uint] arithmetic. The
    recipient is credited the value in [uint] arithmetic, exactly the value
    when the sum fits; a sender who is also the recipient ends with
    [balance - cost + value]. The last-used nonce of the sender becomes the
    nonce of the transaction, and no other balance or nonce changes. *)
Theorem ApplyTx_effects {E : External} (tx : SignedTx) (c c' : Cfg) :
  tables_ok c ->
  ApplyTx tx c = (None, c') ->
  let cost := Cost tx (forkActive c) in
  cost = wrap (tx_Value tx +
               (if forkActive c then wrap (tx_Gas tx * tx_GasPrice tx) else 22)) /\
  (tx_From tx <> tx_To tx ->
   balanceOf c' (tx_From tx) = balanceOf c (tx_From tx) - cost /\
   balanceOf c' (tx_To tx) = wrap (balanceOf c (tx_To tx) + tx_Value tx) /\
   (is_uint (balanceOf c (tx_To tx) + tx_Value tx) ->
    balanceOf c' (tx_To tx) = balanceOf c (tx_To tx) + tx_Value tx)) /\
  (tx_From tx = tx_To tx ->
   balanceOf c' (tx_From tx) = wrap (balanceOf c (tx_From tx) - cost + tx_Value tx)) /\
  nonceOf c' (tx_From tx) = tx_Nonce tx /\
  (forall account, account <> tx_From tx -> account <> tx_To tx ->
   balanceOf c' account = balanceOf c account) /\
  (forall account, account <> tx_From tx ->
   nonceOf c' account = nonceOf c account).
Proof.
  intros Hok Happly cost.
  pose proof (balance_is_uint c (tx_From tx) Hok) as Hbal.
  destruct Hok as [Hdistinct _].
  rewrite ApplyTx_run in Happly.
  destruct (fst (ValidateTx tx c)) eqn:Hvalid; [discriminate|].
  destruct (ValidateTx_funds tx c) as [_ Hle]. specialize (Hle Hvalid).
  pose proof (debit_is_exact _ _ Hbal (Cost_is_uint tx (forkActive c)) Hle) as Hexact.
  fold cost in Hexact.
  cbn zeta in Happly. apply pair_equal_spec in Happly as [_ <-].
  unfold balanceOf, nonceOf in *. cfg_proj. fold cost.
  split; [|split; [|split; [|split; [|split]]]].
  - unfold cost, Cost, GasCost, TxFee. destruct (forkActive c); reflexivity.
  - intros Hne.
    split; [|split; [|intros Hfits; rewrite <- (wrap_uint _ Hfits)]]; heap_cases.
  - intros Heq. rewrite <- !Heq. heap_cases.
  - heap_cases.
  - intros account Hfrom Hto. heap_cases.
  - intros account Hfrom. heap_cases.
Qed.

(** Before the fork, [alice] sends 100 to [bob]: she pays 122 and he
    receives 100. *)
Lemma ApplyTx_effects_witness :
  exists c',
    ApplyTx (E := stableNode) (transfer alice bob 100 1 10 0 0) (ledger 35) = (None, c') /\
    balanceOf c' alice = 1000 - 122 /\
    balanceOf c' bob = 5 + 100.
Proof.
  eexists. split; [reflexivity|].
  edestruct (ApplyTx_effects (E := stableNode) (transfer alice bob 100 1 10 0 0)
               (ledger 35)) as (_ & H & _).
  - split; [discriminate|]. refine (bool_decide_unpack _ _). vm_compute. exact I.
  - reflexivity.
  - destruct H as (Hfrom & _ & Hto); [discriminate|].
    split; [exact Hfrom|]. apply Hto. vm_compute. split; [discriminate | reflexivity].
Defined.

(** The statement of C8 does not hold as written: the sender is not debited
    [value + cost]. [alice], who holds 1000, sends 100 before the fork; her
    balance falls by the cost 122, not by 100 + 122. *)
Lemma sender_pays_cost_not_value_plus_cost :
  exists c',
    ApplyTx (E := stableNode) (transfer alice bob 100 1 10 0 0) (ledger 35) = (None, c') /\
    Cost (transfer alice bob 100 1 10 0 0) (forkActive (ledger 35)) = 122 /\
    balanceOf (ledger 35) alice - balanceOf c' alice = 122 /\
    balanceOf (ledger 35) alice - balanceOf c' alice <>
    tx_Value (transfer alice bob 100 1 10 0 0)
    + Cost (transfer alice bob 100 1 10 0 0) (forkActive (ledger 35)).
Proof.
  eexists. split; [reflexivity|]. vm_compute. repeat split; discriminate.
Qed.

(** ** What a computation may write *)

Lemma writesTablesOnly_refl (c : Cfg) : writesTablesOnly c c.
Proof. repeat split. Qed.

Lemma writesTablesOnly_trans (c1 c2 c3 : Cfg) :
  writesTablesOnly c1 c2 -> writesTablesOnly c2 c3 -> writesTablesOnly c1 c3.
Proof.
  intros (Hs & Hf & Hh) (Hs' & Hf' & Hh').
  split; [congruence|]. split; [congruence|].
  intros l H1 H2. rewrite Hh' by (rewrite Hs; assumption). apply Hh; assumption.
Qed.

Lemma ApplyTx_frame {E : External} (tx : SignedTx) (c : Cfg) :
  writesTablesOnly c (snd (ApplyTx tx c)).
Proof.
  rewrite ApplyTx_run.
  destruct (fst (ValidateTx tx c)); [apply writesTablesOnly_refl|].
  cbn zeta. cbn [snd]. unfold writesTablesOnly. cfg_proj.
  split; [reflexivity|]. split; [reflexivity|].
  intros l H1 H2. rewrite !store_other by assumption. reflexivity.
Qed.

Lemma applyEach_frame {E : External} (txs : list SignedTx) (c : Cfg) :
  writesTablesOnly c (snd (applyEach txs c)).
Proof.
  revert c. induction txs as [|tx rest IH]; intros c.
  - apply writesTablesOnly_refl.
  - cbn [applyEach]. unfold mbind, M_bind.
    pose proof (ApplyTx_frame tx c) as Hfirst.
    destruct (ApplyTx tx c) as [[e|] c1]; cbn [snd] in *; [exact Hfirst|].
    eapply writesTablesOnly_trans; [exact Hfirst | apply IH].
Qed.

Lemma applyTXs_run {E : External} (txs : list SignedTx) (c : Cfg) :
  applyTXs txs c =
  let sorted := sort_Slice SignedTx txLess txs in
  ((fst (applyEach sorted c), sorted), snd (applyEach sorted c)).
Proof.
  unfold applyTXs, mbind, M_bind. cbn zeta.
  destruct (applyEach _ c). reflexivity.
Qed.

Lemma applyBlock_run {E : External} (b : Block) (c : Cfg) :
  applyBlock b c =
  let latest := latestBlock (this c) in
  let has := hasGenesisBlock (this c) in
  let latestHash := latestBlockHash (this c) in
  let expected := wrap (hd_Number (Header latest) + 1) in
  if has && negb (hd_Number (Header b) =? expected)
  then ((Some (ErrBlockNumber expected (hd_Number (Header b))), b), c)
  else if has && (0 <? hd_Number (Header latest))
               && negb (bool_decide (hd_Parent (Header b) = latestHash))
  then ((Some (ErrParent latestHash (hd_Parent (Header b))), b), c)
  else
    match Block_Hash b with
    | inl err => ((Some (ErrExternal err), b), c)
    | inr hash =>
      if negb (IsBlockHashValid hash (miningDifficulty (this c)))
      then ((Some (ErrInvalidHash hash), b), c)
      else
        let sorted := sort_Slice SignedTx txLess (TXs b) in
        let c1 := snd (applyEach sorted c) in
        match fst (applyEach sorted c) with
        | Some e => ((Some e, withTXs b sorted), c1)
        | None =>
          let balances := Balances (this c1) in
          let miner := hd_Miner (Header b) in
          let rewarded :=
            store balances miner
                  (wrap (index (heap (world c1)) balances miner + BlockReward))
                  (world c1) in
          let fee :=
            if forkActive c1 then GasReward (withTXs b sorted)
            else wrap (Z.of_nat (length sorted) * TxFee) in
          ((None, withTXs b sorted),
           {| this := this c1;
              world := store balances miner
                             (wrap (index (heap rewarded) balances miner + fee))
                             rewarded |})
        end
    end.
Proof.
  unfold applyBlock. run.
  destruct (hasGenesisBlock (this c) && negb _); [reflexivity|].
  destruct (hasGenesisBlock (this c) && _ && negb _); [reflexivity|].
  destruct (Block_Hash b) as [err|hash]; [reflexivity|].
  destruct (negb (IsBlockHashValid _ _)); [reflexivity|].
  rewrite applyTXs_run. cbn zeta.
  destruct (applyEach _ c) as [[e|] c1]; cbn [fst snd]; [reflexivity|].
  rewrite IsTIP1Fork_run.
  rewrite (forkActive_this c1) by reflexivity.
  destruct (forkActive c1); reflexivity.
Qed.

Lemma applyBlock_frame {E : External} (b : Block) (c : Cfg) :
  writesTablesOnly c (snd (applyBlock b c)).
Proof.
  rewrite applyBlock_run. cbn zeta.
  destruct (hasGenesisBlock (this c) && negb _); [apply writesTablesOnly_refl|].
  destruct (hasGenesisBlock (this c) && _ && negb _); [apply writesTablesOnly_refl|].
  destruct (Block_Hash b) as [err|hash]; [apply writesTablesOnly_refl|].
  destruct (negb (IsBlockHashValid _ _)); [apply writesTablesOnly_refl|].
  pose proof (applyEach_frame (sort_Slice SignedTx txLess (TXs b)) c) as Htxs.
  destruct (applyEach _ c) as [[e|] c1]; cbn [fst snd] in *; [exact Htxs|].
  eapply writesTablesOnly_trans; [exact Htxs|].
  unfold writesTablesOnly. cfg_proj.
  split; [reflexivity|]. split; [reflexivity|].
  intros l H1 H2. rewrite !store_other by assumption. reflexivity.
Qed.

(** ** The speculative copy *)

Lemma copyEntries_frame (src dst : loc) (c : Cfg) :
  this (snd (copyEntries src dst c)) = this c /\
  files (world (snd (copyEntries src dst c))) = files (world c) /\
  forall l, l <> dst ->
    heap (world (snd (copyEntries src dst c))) !! l = heap (world c) !! l.
Proof.
  unfold copyEntries. cbn [snd]. cfg_proj.
  split; [reflexivity|].
  apply (map_fold_weak_ind
           (fun w (_ : gmap Address Z) =>
              files w = files (world c) /\
              forall l, l <> dst -> heap w !! l = heap (world c) !! l)).
  - split; reflexivity.
  - intros k v m w _ [Hf Hh]. split; [exact Hf|].
    intros l Hl. rewrite store_other by exact Hl. apply Hh. exact Hl.
Qed.

Lemma Copy_spec (c : Cfg) :
  let pending := fst (Copy c) in
  let c' := snd (Copy c) in
  this c' = this c /\
  files (world c') = files (world c) /\
  (Balances pending ∉ dom (heap (world c))) /\
  (Account2Nonce pending ∉ dom (heap (world c))) /\
  Balances pending <> Account2Nonce pending /\
  (forall l, l <> Balances pending -> l <> Account2Nonce pending ->
     heap (world c') !! l = heap (world c) !! l) /\
  dbFile pending = None /\
  latestBlock pending = latestBlock (this c) /\
  latestBlockHash pending = latestBlockHash (this c) /\
  hasGenesisBlock pending = hasGenesisBlock (this c) /\
  miningDifficulty pending = miningDifficulty (this c) /\
  forkTIP1 pending = forkTIP1 (this c).
Proof.
  unfold Copy, mbind, M_bind, mret, M_ret, field, make.
  cbn [this world heap files].
  set (h := heap (world c)).
  set (l1 := fresh (dom h)).
  set (l2 := fresh (dom (<[l1:=∅]> h))).
  set (c2 := {| this := this c;
                world := {| heap := <[l2:=∅]> (<[l1:=∅]> h);
                            files := files (world c) |} |}).
  destruct (copyEntries_frame (Balances (this c)) l1 c2) as (Hs3 & Hf3 & Hh3).
  destruct (copyEntries (Balances (this c)) l1 c2) as [[] c3]. cbn [snd] in *.
  destruct (copyEntries_frame (Account2Nonce (this c)) l2 c3) as (Hs4 & Hf4 & Hh4).
  destruct (copyEntries (Account2Nonce (this c)) l2 c3) as [[] c4]. cbn [fst snd] in *.
  assert (Hl1 : l1 ∉ dom h) by apply is_fresh.
  assert (Hl2 : l2 ∉ dom (<[l1:=∅]> h)) by apply is_fresh.
  rewrite dom_insert_L in Hl2.
  split; [rewrite Hs4, Hs3; reflexivity|].
  split; [rewrite Hf4, Hf3; reflexivity|].
  split; [exact Hl1|]. split; [set_solver|]. split; [set_solver|].
  split; [|repeat split].
  intros l Hne1 Hne2. rewrite Hh4 by exact Hne2. rewrite Hh3 by exact Hne1.
  subst c2. cbn [world heap].
  rewrite lookup_insert_ne by (intro Heq; exact (Hne2 (eq_sym Heq))).
  rewrite lookup_insert_ne by (intro Heq; exact (Hne1 (eq_sym Heq))).
  reflexivity.
Qed.

Lemma deref_store (l l' : loc) (k : Address) (v : Z) (w : World) :
  deref (heap (store l k v w)) l' =
  if decide (l = l') then <[k := v]> (deref (heap w) l) else deref (heap w) l'.
Proof.
  unfold deref, store. cbn [heap].
  destruct (decide (l = l')) as [->|Hne].
  - rewrite lookup_insert_eq. reflexivity.
  - rewrite lookup_insert_ne by exact Hne. reflexivity.
Qed.

Lemma copyEntries_contents (src dst : loc) (c : Cfg) :
  deref (heap (world (snd (copyEntries src dst c)))) dst =
  deref (heap (world c)) src ∪ deref (heap (world c)) dst.
Proof.
  unfold copyEntries. cbn [snd]. cfg_proj.
  apply (map_fold_weak_ind
           (fun w (m : gmap Address Z) =>
              deref (heap w) dst = m ∪ deref (heap (world c)) dst)).
  - rewrite (left_id_L ∅ (∪)). reflexivity.
  - intros k v m w _ Hw. rewrite deref_store, decide_True by reflexivity.
    rewrite Hw. apply insert_union_l.
Qed.

(** The copy is deep: its tables are new maps with the contents of the
    tables of the state. *)
Lemma Copy_contents (c : Cfg) :
  Balances (this c) ∈ dom (heap (world c)) ->
  Account2Nonce (this c) ∈ dom (heap (world c)) ->
  let pending := fst (Copy c) in
  let c' := snd (Copy c) in
  deref (heap (world c')) (Balances pending) =
    deref (heap (world c)) (Balances (this c)) /\
  deref (heap (world c')) (Account2Nonce pending) =
    deref (heap (world c)) (Account2Nonce (this c)).
Proof.
  intros Hbal Hnon.
  unfold Copy, mbind, M_bind, mret, M_ret, field, make.
  cbn [this world heap files].
  set (h := heap (world c)) in *.
  set (l1 := fresh (dom h)).
  set (l2 := fresh (dom (<[l1:=∅]> h))).
  set (c2 := {| this := this c;
                world := {| heap := <[l2:=∅]> (<[l1:=∅]> h);
                            files := files (world c) |} |}).
  assert (Hl1 : l1 ∉ dom h) by apply is_fresh.
  assert (Hl2 : l2 ∉ dom (<[l1:=∅]> h)) by apply is_fresh.
  rewrite dom_insert_L in Hl2.
  assert (Hne : l1 <> l2).
  { intros Heq. apply Hl2. rewrite <- Heq.
    apply elem_of_union. left. apply elem_of_singleton. reflexivity. }
  assert (Hold : forall l, l ∈ dom h -> l1 <> l /\ l2 <> l).
  { intros l Hl. split; intros Heq.
    - apply Hl1. rewrite Heq. exact Hl.
    - apply Hl2. rewrite Heq. apply elem_of_union. right. exact Hl. }
  assert (Hsrc : forall l, l ∈ dom h -> deref (heap (world c2)) l = deref h l).
  { intros l Hl. destruct (Hold l Hl) as [H1 H2].
    unfold deref. subst c2. cbn [world heap].
    rewrite !lookup_insert_ne by assumption. reflexivity. }
  assert (Hnew1 : deref (heap (world c2)) l1 = ∅).
  { unfold deref. subst c2. cbn [world heap].
    rewrite lookup_insert_ne by (apply not_eq_sym; exact Hne).
    rewrite lookup_insert_eq. reflexivity. }
  assert (Hnew2 : deref (heap (world c2)) l2 = ∅).
  { unfold deref. subst c2. cbn [world heap]. rewrite lookup_insert_eq. reflexivity. }
  assert (Hderef : forall h1 h2 (l : loc),
            h1 !! l = h2 !! l -> deref h1 l = deref h2 l).
  { intros h1 h2 l Heq. unfold deref. rewrite Heq. reflexivity. }
  destruct (Hold _ Hnon) as [Hnon1 _].
  pose proof (copyEntries_contents (Balances (this c)) l1 c2) as Hc3.
  destruct (copyEntries_frame (Balances (this c)) l1 c2) as (_ & _ & Hh3).
  destruct (copyEntries (Balances (this c)) l1 c2) as [[] c3]. cbn [snd] in *.
  pose proof (copyEntries_contents (Account2Nonce (this c)) l2 c3) as Hc4.
  destruct (copyEntries_frame (Account2Nonce (this c)) l2 c3) as (_ & _ & Hh4).
  destruct (copyEntries (Account2Nonce (this c)) l2 c3) as [[] c4]. cbn [fst snd] in *.
  cbn [Balances Account2Nonce]. split.
  - rewrite (Hderef _ _ _ (Hh4 l1 Hne)).
    rewrite Hc3, Hnew1, (Hsrc _ Hbal). apply (right_id_L ∅ (∪)).
  - rewrite Hc4.
    rewrite (Hderef _ _ _ (Hh3 _ (not_eq_sym Hnon1))).
    rewrite (Hderef _ _ _ (Hh3 _ (not_eq_sym Hne))).
    rewrite Hnew2, (Hsrc _ Hnon). apply (right_id_L ∅ (∪)).
Qed.

(** ** Failure of AddBlock *)

Lemma applyBlock_success_block {E : External} (b b' : Block) (c c' : Cfg) :
  applyBlock b c = ((None, b'), c') ->
  b' = withTXs b (sort_Slice SignedTx txLess (TXs b)) /\
  this c' = this c /\
  (exists hash, Block_Hash b = inr hash /\
                IsBlockHashValid hash (miningDifficulty (this c)) = true).
Proof.
  intros Happly.
  pose proof (applyBlock_frame b c) as (Hthis & _).
  rewrite Happly in Hthis. cbn [snd] in Hthis.
  apply (f_equal fst) in Happly. cbn [fst] in Happly.
  revert Happly. rewrite applyBlock_run. cbn zeta.
  destruct (hasGenesisBlock (this c) && negb _); [discriminate|].
  destruct (hasGenesisBlock (this c) && _ && negb _); [discriminate|].
  destruct (Block_Hash b) as [msg|hash]; [discriminate|].
  destruct (IsBlockHashValid _ _) eqn:Hvalid; cbn [negb]; [|discriminate].
  destruct (fst (applyEach _ c)) as [e|]; [discriminate|].
  cbn [fst]. intros Heq. split; [congruence|].
  split; [exact Hthis|]. exists hash. split; [reflexivity | exact Hvalid].
Qed.

(** C1, as the code has it. When [AddBlock] returns an error, the struct of
    the live state is as before the call (tables, latest block and its hash,
    genesis flag, difficulty), and so is every map that existed before it,
    hence every balance and nonce of the live state: the transactions of the
    block that succeeded before the failing one were applied to the copy
    only. The error and the files are those of the first step that fails.
    If [applyBlock] refuses the block on the copy, if the hash of the block
    with its transactions sorted cannot be computed, if the record of that
    block under that hash cannot be serialized, or if the state has no file,
    the files are as before. Otherwise the write of the record and a newline
    has failed: the log holds its former contents followed by as many bytes
    of that record as the operating system reports written, which the code
    does not take back. *)
Theorem AddBlock_failure {E : External} (b : Block) (c c' : Cfg) (h : Hash) (e : Error) :
  AddBlock b c = ((h, Some e), c') ->
  h = Hash_zero /\
  this c' = this c /\
  (forall l, l ∈ dom (heap (world c)) ->
     heap (world c') !! l = heap (world c) !! l) /\
  (Balances (this c) ∈ dom (heap (world c)) ->
   forall account, balanceOf c' account = balanceOf c account) /\
  (Account2Nonce (this c) ∈ dom (heap (world c)) ->
   forall account, nonceOf c' account = nonceOf c account) /\
  match fst (fst (applyBlock b (pendingCfg c))) with
  | Some refused => e = refused /\ files (world c') = files (world c)
  | None =>
    match Block_Hash (sortedBlock b) with
    | inl msg => e = ErrExternal msg /\ files (world c') = files (world c)
    | inr blockHash =>
      match json_Marshal {| Key := blockHash; Value := sortedBlock b |} with
      | inl msg => e = ErrExternal msg /\ files (world c') = files (world c)
      | inr blockFsJson =>
        match dbFile (this c) with
        | None =>
          e = ErrExternal "invalid argument" /\ files (world c') = files (world c)
        | Some path =>
          let old := default [] (files (world c) !! path) in
          exists n msg,
            os_Write old (blockFsJson ++ [newline]) = (n, Some msg) /\
            e = ErrExternal msg /\
            files (world c') =
            <[path := old ++ take n (blockFsJson ++ [newline])]> (files (world c))
        end
      end
    end
  end.
Proof.
  intros Hadd.
  enough (Hmain :
    h = Hash_zero /\ this c' = this c /\
    (forall l, l ∈ dom (heap (world c)) ->
       heap (world c') !! l = heap (world c) !! l) /\
    match fst (fst (applyBlock b (pendingCfg c))) with
    | Some refused => e = refused /\ files (world c') = files (world c)
    | None =>
      match Block_Hash (sortedBlock b) with
      | inl msg => e = ErrExternal msg /\ files (world c') = files (world c)
      | inr blockHash =>
        match json_Marshal {| Key := blockHash; Value := sortedBlock b |} with
        | inl msg => e = ErrExternal msg /\ files (world c') = files (world c)
        | inr blockFsJson =>
          match dbFile (this c) with
          | None =>
            e = ErrExternal "invalid argument" /\ files (world c') = files (world c)
          | Some path =>
            let old := default [] (files (world c) !! path) in
            exists n msg,
              os_Write old (blockFsJson ++ [newline]) = (n, Some msg) /\
              e = ErrExternal msg /\
              files (world c') =
              <[path := old ++ take n (blockFsJson ++ [newline])]> (files (world c))
          end
        end
      end
    end).
  { destruct Hmain as (Hh & Hs & Hheap & Hfiles).
    split; [exact Hh|]. split; [exact Hs|]. split; [exact Hheap|].
    split; [|split; [|exact Hfiles]].
    - intros Hin account. unfold balanceOf, index, deref.
      rewrite Hs, (Hheap _ Hin). reflexivity.
    - intros Hin account. unfold nonceOf, index, deref.
      rewrite Hs, (Hheap _ Hin). reflexivity. }
  revert Hadd. unfold AddBlock, pendingCfg, mbind, M_bind.
  destruct (Copy_spec c) as (Hs1 & Hf1 & Hb & Hn & _ & Hh1 & _).
  destruct (Copy c) as [pending c1]. cbn [fst snd] in *.
  unfold on.
  pose proof (applyBlock_frame b {| this := pending; world := world c1 |}) as Hframe.
  destruct (applyBlock b _) as [[err b'] c2] eqn:Happly.
  destruct Hframe as (_ & Hf2 & Hh2). cbn [snd this world] in Hf2, Hh2.
  assert (Hkeep : forall l, l ∈ dom (heap (world c)) ->
                    heap (world c2) !! l = heap (world c) !! l).
  { intros l Hl. rewrite Hh2, Hh1; [reflexivity| | | |]; intros ->; contradiction. }
  assert (Hfiles : files (world c2) = files (world c)) by congruence.
  cbn [fst].
  destruct err as [e0|].
  { unfold mret, M_ret. intros [= <- <- <-]. cfg_proj. auto. }
  destruct (applyBlock_success_block _ _ _ _ Happly) as (Hb' & _ & _).
  cbn [this TXs] in Hb'. fold (sortedBlock b) in Hb'. subst b'.
  destruct (Block_Hash (sortedBlock b)) as [msg|blockHash].
  { unfold mret, M_ret. intros [= <- <- <-]. cfg_proj. auto. }
  destruct (json_Marshal _) as [msg|blockFsJson] eqn:Hjson.
  { unfold mret, M_ret. intros [= <- <- <-]. cfg_proj. auto. }
  unfold field, File_Write. cfg_proj. rewrite <- Hs1.
  destruct (dbFile (this c1)) as [path|] eqn:Hdb.
  2:{ unfold mret, M_ret. intros [= <- <- <-]. cfg_proj. auto. }
  destruct (os_Write _ _) as [n [msg|]] eqn:Hwrite; cbn [fmap option_fmap option_map].
  2:{ unfold assign, mret, M_ret. intros [= _ ?]. }
  unfold mret, M_ret. intros [= <- <- <-]. cfg_proj. cbn [heap files].
  split; [reflexivity|]. split; [reflexivity|]. split; [exact Hkeep|].
  cbn zeta. exists n, msg. rewrite <- Hfiles. auto.
Qed.

(** A block with a good transaction followed by one with a wrong nonce is
    refused, and [alice] keeps her 1000 although her first transfer was
    valid; nothing is written to the log. On a disk with room for two bytes
    a valid block is refused with the error of the write, and the log holds
    the first two bytes of its record. *)
Lemma AddBlock_failure_witness :
  let blk := blockOf 0 0%N carol [transfer alice bob 100 1 10 0 0;
                                  transfer alice bob 1 5 11 0 0] in
  let c' := snd (AddBlock (E := stableNode) blk (ledger 35)) in
  let good := blockOf 0 0%N carol [transfer alice bob 100 1 10 0 0] in
  let full := snd (AddBlock (E := fullDiskNode) good (ledger 35)) in
  (this c' = this (ledger 35) /\
   (forall account, balanceOf c' account = balanceOf (ledger 35) account) /\
   files (world c') = files (world (ledger 35))) /\
  (this full = this (ledger 35) /\
   files (world full) =
   <[ "block.db"%string := [Byte.x7b; Byte.x00] ]> (files (world (ledger 35)))).
Proof.
  intros blk c' good full. split.
  - destruct (AddBlock_failure (E := stableNode) blk (ledger 35) c'
                Hash_zero (ErrNonce alice 2 5)) as (_ & Hs & _ & Hb & _ & Hf).
    + vm_compute. reflexivity.
    + split; [exact Hs|]. split.
      * apply Hb. apply elem_of_dom. eexists. reflexivity.
      * assert (Hrefused :
          fst (fst (applyBlock (E := stableNode) blk (pendingCfg (ledger 35))))
          = Some (ErrNonce alice 2 5)) by (vm_compute; reflexivity).
        rewrite Hrefused in Hf. exact (proj2 Hf).
  - destruct (AddBlock_failure (E := fullDiskNode) good (ledger 35) full
                Hash_zero (ErrExternal "no space left on device"))
      as (_ & Hs & _ & _ & _ & Hf).
    + vm_compute. reflexivity.
    + split; [exact Hs|].
      assert (Happlied :
        fst (fst (applyBlock (E := fullDiskNode) good (pendingCfg (ledger 35)))) = None)
        by (vm_compute; reflexivity).
      rewrite Happlied in Hf.
      assert (Hhash : Block_Hash (External := fullDiskNode)
                        (sortedBlock (E := fullDiskNode) good) = inr 2%N)
        by (vm_compute; reflexivity).
      rewrite Hhash in Hf.
      assert (Hjson : json_Marshal (External := fullDiskNode)
                        {| Key := 2%N; Value := sortedBlock (E := fullDiskNode) good |}
                      = inr [Byte.x7b; Byte.x00; Byte.x7d])
        by (vm_compute; reflexivity).
      rewrite Hjson in Hf. cbn [dbFile this ledger] in Hf. cbn zeta in Hf.
      destruct Hf as (n & msg & Hwrite & _ & Hfiles).
      assert (n = 2%nat) as -> by (vm_compute in Hwrite; congruence).
      rewrite Hfiles. reflexivity.
Defined.

(** The statement of C1 does not hold as written for a failure of the write
    to the log: on a disk with room for two bytes, [AddBlock] of a valid
    block returns the error of the write and the log, empty before, holds the
    first two bytes of the record of the block. *)
Lemma failed_write_leaves_bytes_in_log :
  exists e c',
    AddBlock (E := fullDiskNode)
             (blockOf 0 0%N carol [transfer alice bob 100 1 10 0 0]) (ledger 35)
    = ((Hash_zero, Some e), c') /\
    files (world (ledger 35)) !! "block.db"%string = Some [] /\
    files (world c') !! "block.db"%string = Some [Byte.x7b; Byte.x00] /\
    files (world c') <> files (world (ledger 35)).
Proof.
  eexists. eexists. split; [vm_compute; reflexivity|].
  split; [reflexivity|]. split; [vm_compute; reflexivity|].
  intros Heq. apply (f_equal (fun fs => fs !! "block.db"%string)) in Heq.
  vm_compute in Heq. discriminate.
Qed.

(** ** Checks on the header of a block *)

Lemma ValidateTx_error_kind {E : External} (tx : SignedTx) (c : Cfg) (e : Error) :
  fst (ValidateTx tx c) = Some e -> fromValidation e = true.
Proof.
  rewrite ValidateTx_result.
  destruct (IsAuthentic tx) as [[|] [msg|]]; cbn zeta;
    try (intros [= <-]; reflexivity).
  repeat match goal with
  | |- context [if ?b then Some _ else _] => destruct b
  end; intros [= <-]; reflexivity.
Qed.

Lemma applyEach_error_kind {E : External} (txs : list SignedTx) (c : Cfg) (e : Error) :
  fst (applyEach txs c) = Some e -> fromValidation e = true.
Proof.
  revert c. induction txs as [|tx rest IH]; intros c; [discriminate|].
  cbn [applyEach]. unfold mbind, M_bind. rewrite ApplyTx_run.
  destruct (fst (ValidateTx tx c)) as [e0|] eqn:Hvalid.
  - unfold mret, M_ret. cbn [fst]. intros Heq.
    assert (e0 = e) by congruence. subst e0.
    eapply ValidateTx_error_kind. exact Hvalid.
  - cbn zeta. apply IH.
Qed.

Ltac kind_clash :=
  match goal with
  | H : Some ?e = Some _, K : fromValidation ?e = true |- _ =>
    injection H as ->; discriminate K
  end.

(** C7. On a state that holds a committed block, [applyBlock] fails for a
    wrong block number exactly when the number of the block differs from the
    number of the latest block plus 1 (in [uint64] arithmetic), and never on
    a state without a committed block. It fails for a wrong parent exactly
    when a block is committed, the number is the expected one, the latest
    block has a number above 0 and the parent hash of the block differs from
    the latest block hash: with no prior block, or a latest block numbered
    0, the parent is not checked. *)
Theorem applyBlock_sequence_and_linkage {E : External} (b : Block) (c : Cfg) :
  let err := fst (fst (applyBlock b c)) in
  let latest := latestBlock (this c) in
  let expected := wrap (hd_Number (Header latest) + 1) in
  (isWrongBlockNumber err <->
   hasGenesisBlock (this c) = true /\ hd_Number (Header b) <> expected) /\
  (isWrongParent err <->
   hasGenesisBlock (this c) = true /\
   hd_Number (Header b) = expected /\
   0 < hd_Number (Header latest) /\
   hd_Parent (Header b) <> latestBlockHash (this c)).
Proof.
  cbn zeta. rewrite applyBlock_run. cbn zeta.
  unfold isWrongBlockNumber, isWrongParent.
  destruct (hasGenesisBlock (this c)); cbn [andb].
  - destruct (hd_Number (Header b) =? _) eqn:Hnum; cbn [negb]; bools;
      [|cbn [fst]; finish].
    destruct (0 <? _) eqn:Hpos; cbn [andb]; bools.
    + destruct (bool_decide _) eqn:Hparent; cbn [negb];
        [apply bool_decide_eq_true in Hparent
        |apply bool_decide_eq_false in Hparent; cbn [fst]; finish].
      destruct (Block_Hash b) as [msg|hash]; [cbn [fst]; finish|].
      destruct (negb _); [cbn [fst]; finish|].
      destruct (fst (applyEach _ c)) as [e|] eqn:Htxs; cbn [fst]; [|finish].
      apply applyEach_error_kind in Htxs.
      finish; kind_clash.
    + destruct (Block_Hash b) as [msg|hash]; [cbn [fst]; finish|].
      destruct (negb _); [cbn [fst]; finish|].
      destruct (fst (applyEach _ c)) as [e|] eqn:Htxs; cbn [fst]; [|finish].
      apply applyEach_error_kind in Htxs.
      finish; kind_clash.
  - destruct (Block_Hash b) as [msg|hash]; [cbn [fst]; finish|].
    destruct (negb _); [cbn [fst]; finish|].
    destruct (fst (applyEach _ c)) as [e|] eqn:Htxs; cbn [fst]; [|finish].
    apply applyEach_error_kind in Htxs.
    finish; kind_clash.
Qed.

(** A block two numbers ahead of the latest one is refused for its number. *)
Lemma applyBlock_sequence_and_linkage_witness :
  let c := snd (AddBlock (E := stableNode) (blockOf 0 0%N carol []) (ledger 35)) in
  isWrongBlockNumber
    (fst (fst (applyBlock (E := stableNode) (blockOf 2 0%N carol []) c))).
Proof.
  intros c.
  apply (applyBlock_sequence_and_linkage (E := stableNode) (blockOf 2 0%N carol []) c).
  split; [reflexivity | vm_compute; discriminate].
Defined.

(** ** Sorting *)

Lemma insertBy_perm {A} (less : A -> A -> bool) (x : A) (l : list A) :
  Permutation (x :: l) (insertBy less x l).
Proof.
  induction l as [|y rest IH]; cbn [insertBy]; [reflexivity|].
  destruct (less y x); [|reflexivity].
  rewrite perm_swap. apply perm_skip. exact IH.
Qed.

Lemma insertionSort_perm {A} (less : A -> A -> bool) (l : list A) :
  Permutation l (insertionSort A less l).
Proof.
  unfold insertionSort. induction l as [|x rest IH]; cbn [foldr]; [reflexivity|].
  rewrite <- insertBy_perm. apply perm_skip. exact IH.
Qed.

Lemma insertBy_sorted (x : SignedTx) (l : list SignedTx) :
  StronglySorted (fun a b => txLess b a = false) l ->
  StronglySorted (fun a b => txLess b a = false) (insertBy txLess x l).
Proof.
  induction 1 as [|y rest Hrest IH Hy]; cbn [insertBy].
  - constructor; constructor.
  - destruct (txLess y x) eqn:Hyx.
    + constructor; [exact IH|].
      eapply Permutation_Forall; [apply insertBy_perm|].
      constructor; [|exact Hy].
      unfold txLess in *. bools. apply Z.ltb_ge. lia.
    + constructor; [constructor; assumption|].
      constructor; [exact Hyx|].
      eapply List.Forall_impl; [|exact Hy].
      intros z Hz. unfold txLess in *. bools. apply Z.ltb_ge. lia.
Qed.

Lemma insertionSort_sorted (l : list SignedTx) :
  StronglySorted (fun a b => txLess b a = false) (insertionSort SignedTx txLess l).
Proof.
  unfold insertionSort. induction l as [|x rest IH]; cbn [foldr].
  - constructor.
  - apply insertBy_sorted. exact IH.
Qed.

Lemma stableNode_contract : SliceContract stableNode.
Proof.
  intros txs. split; [apply insertionSort_perm | apply insertionSort_sorted].
Qed.

Lemma swap_head_perm {A} (a y : A) (l : list A) (j : nat) :
  l !! j = Some y -> Permutation (a :: l) (y :: <[j := a]> l).
Proof.
  revert j. induction l as [|b rest IH]; intros [|j] Hj; try discriminate.
  - cbn in Hj. injection Hj as ->. apply perm_swap.
  - cbn in Hj. cbn [insert list_insert].
    rewrite perm_swap. rewrite (IH j Hj). apply perm_swap.
Qed.

Lemma swap_perm {A} (l : list A) (i j : nat) (x y : A) :
  i <> j -> l !! i = Some x -> l !! j = Some y ->
  Permutation l (<[i := y]> (<[j := x]> l)).
Proof.
  revert i j. induction l as [|a rest IH]; intros [|i] [|j] Hne Hi Hj;
    try discriminate; try congruence; cbn in Hi, Hj; cbn [insert list_insert].
  - injection Hi as ->. apply swap_head_perm. exact Hj.
  - injection Hj as ->. apply swap_head_perm. exact Hi.
  - apply perm_skip. apply IH; [lia | exact Hi | exact Hj].
Qed.

Lemma swapIfLess_perm {A} (less : A -> A -> bool) (l : list A) (i : nat) :
  (6 <= i)%nat -> Permutation l (swapIfLess less l i).
Proof.
  intros Hi. unfold swapIfLess.
  destruct (l !! i) as [x|] eqn:Hx; [|reflexivity].
  destruct (l !! (i - 6)%nat) as [y|] eqn:Hy; [|reflexivity].
  destruct (less x y); [|reflexivity].
  apply swap_perm; [lia | exact Hx | exact Hy].
Qed.

Lemma shellPass_perm {A} (less : A -> A -> bool) (l : list A) :
  Permutation l (shellPass less l).
Proof.
  assert (Hgen : forall (idx : list nat) (l0 : list A),
            List.Forall (fun i => (6 <= i)%nat) idx ->
            Permutation l0 (fold_left (swapIfLess less) idx l0)).
  { induction idx as [|i idx IH]; intros l0 Hidx; [reflexivity|].
    cbn [fold_left]. inversion Hidx as [|? ? Hi Hrest]; subst.
    rewrite <- (IH _ Hrest). apply swapIfLess_perm. exact Hi. }
  unfold shellPass. apply Hgen.
  apply List.Forall_forall. intros i Hin. apply in_seq in Hin. lia.
Qed.

Lemma shellNode_contract : SliceContract shellNode.
Proof.
  intros txs. cbn [sort_Slice shellNode toyExternal]. unfold shellInsertionSort. split.
  - rewrite <- insertionSort_perm. apply shellPass_perm.
  - apply insertionSort_sorted.
Qed.

Lemma sorted_ByTime (l : list SignedTx) :
  StronglySorted (fun a b => txLess b a = false) l -> ByTime l.
Proof.
  unfold ByTime. induction 1 as [|x rest Hrest IH Hx]; constructor; [exact IH|].
  eapply List.Forall_impl; [|exact Hx].
  intros y Hy. unfold txLess in Hy. bools. exact Hy.
Qed.

(** Insertion sort keeps transactions with equal timestamps in order. *)
Lemma insertBy_filter (t : Z) (x : SignedTx) (l : list SignedTx) :
  List.filter (fun tx => tx_Time tx =? t) (insertBy txLess x l) =
  List.filter (fun tx => tx_Time tx =? t) (x :: l).
Proof.
  induction l as [|y rest IH]; cbn [insertBy]; [reflexivity|].
  destruct (txLess y x) eqn:Hyx; [|reflexivity].
  cbn [List.filter] in *. rewrite IH.
  destruct (tx_Time x =? t) eqn:Hx; [|reflexivity].
  destruct (tx_Time y =? t) eqn:Hy; [|reflexivity].
  unfold txLess in Hyx. bools. lia.
Qed.

Lemma insertionSort_stable (l : list SignedTx) :
  TiesKeepOrder l (insertionSort SignedTx txLess l).
Proof.
  intros t. unfold insertionSort. induction l as [|x rest IH]; [reflexivity|].
  cbn [foldr]. rewrite insertBy_filter. cbn [List.filter]. rewrite IH. reflexivity.
Qed.

(** With distinct timestamps there is one sorted arrangement. *)
Lemma ByTime_strict (l : list SignedTx) :
  ByTime l -> List.NoDup (map tx_Time l) ->
  StronglySorted (fun a b => tx_Time a < tx_Time b) l.
Proof.
  unfold ByTime. induction 1 as [|x rest Hrest IH Hx]; intros Hnd; [constructor|].
  cbn [map] in Hnd. apply List.NoDup_cons_iff in Hnd as [Hnotin Hnd].
  constructor; [apply IH; exact Hnd|].
  apply List.Forall_forall. intros y Hy.
  rewrite List.Forall_forall in Hx. specialize (Hx y Hy).
  assert (tx_Time y <> tx_Time x).
  { intros Heq. apply Hnotin. rewrite <- Heq. apply in_map. exact Hy. }
  lia.
Qed.

Lemma strictly_sorted_unique (l1 l2 : list SignedTx) :
  StronglySorted (fun a b => tx_Time a < tx_Time b) l1 ->
  StronglySorted (fun a b => tx_Time a < tx_Time b) l2 ->
  Permutation l1 l2 -> l1 = l2.
Proof.
  intros H1. revert l2. induction H1 as [|x rest1 Hrest1 IH Hx]; intros l2 H2 Hperm.
  - apply Permutation_nil in Hperm. congruence.
  - destruct H2 as [|y rest2 Hrest2 Hy].
    + symmetry in Hperm. apply Permutation_nil in Hperm. discriminate.
    + assert (x = y) as ->.
      { assert (Hin1 : In x (y :: rest2)) by
          (eapply Permutation_in; [exact Hperm | left; reflexivity]).
        assert (Hin2 : In y (x :: rest1)) by
          (eapply Permutation_in; [symmetry; exact Hperm | left; reflexivity]).
        destruct Hin1 as [Heq|Hin1]; [congruence|].
        destruct Hin2 as [Heq|Hin2]; [congruence|].
        rewrite List.Forall_forall in Hx, Hy.
        specialize (Hx y Hin2). specialize (Hy x Hin1). lia. }
      f_equal. apply IH; [exact Hrest2|].
      eapply Permutation_cons_inv. exact Hperm.
Qed.

(** C2, as the code has it. [applyTXs] sorts before it applies anything:
    the transactions are applied in the order [sort.Slice] leaves them in,
    which is a rearrangement of the transactions of the block in ascending
    order of timestamp. [sort.Slice] is not a stable sort, so nothing is
    promised on the relative order of transactions with equal timestamps;
    when the timestamps of the block are all distinct the order is the one
    order there is, that of a stable sort. *)
Theorem applyTXs_order {E : External} (txs : list SignedTx) (c : Cfg) :
  SliceContract E ->
  let sorted := sort_Slice SignedTx txLess txs in
  applyTXs txs c = ((fst (applyEach sorted c), sorted), snd (applyEach sorted c)) /\
  Permutation txs sorted /\
  ByTime sorted /\
  (List.NoDup (map tx_Time txs) ->
   sorted = insertionSort SignedTx txLess txs /\ TiesKeepOrder txs sorted).
Proof.
  intros Hsort sorted. destruct (Hsort txs) as [Hperm Hsorted].
  fold sorted in Hperm, Hsorted.
  split; [apply applyTXs_run|]. split; [exact Hperm|].
  split; [apply sorted_ByTime; exact Hsorted|].
  intros Hnd.
  assert (Heq : sorted = insertionSort SignedTx txLess txs).
  { apply strictly_sorted_unique.
    - apply ByTime_strict; [apply sorted_ByTime; exact Hsorted|].
      eapply Permutation_NoDup; [|exact Hnd]. apply Permutation_map. exact Hperm.
    - apply ByTime_strict; [apply sorted_ByTime; apply insertionSort_sorted|].
      eapply Permutation_NoDup; [|exact Hnd].
      apply Permutation_map. apply insertionSort_perm.
    - rewrite <- Hperm. apply insertionSort_perm. }
  split; [exact Heq|]. rewrite Heq. apply insertionSort_stable.
Qed.

(** Two transactions stamped 20 and 10 are applied in the order 10, 20. *)
Lemma applyTXs_order_witness :
  let txs := [transfer alice bob 100 2 20 0 0; transfer alice bob 100 1 10 0 0] in
  snd (fst (applyTXs (E := stableNode) txs (ledger 35))) =
  [transfer alice bob 100 1 10 0 0; transfer alice bob 100 2 20 0 0] /\
  ByTime (sort_Slice (External := stableNode) SignedTx txLess txs).
Proof.
  intros txs.
  destruct (applyTXs_order (E := stableNode) txs (ledger 35) stableNode_contract)
    as (Hrun & _ & Hsorted & _).
  split; [rewrite Hrun; reflexivity | exact Hsorted].
Defined.

(** The statement of C2 does not hold as written: a [sort.Slice] that keeps
    its contract need not keep ties in order. [alice] signs seven transfers
    with nonces 1 to 7; the block lists those with nonces 2 to 7, stamped 20,
    before that with nonce 1, stamped 10. A stable sort applies them in the
    order of their nonces and all succeed. On a node whose sort is that of
    the Go releases up to 1.18 the pass with gap 6 exchanges the first and
    the seventh: the transfer with nonce 2 is applied last, and the block is
    refused for a bad nonce. *)
Lemma sort_Slice_may_reorder_ties :
  let tx n := transfer alice bob n (n + 1) 20 0 0 in
  let early := transfer alice bob 0 1 10 0 0 in
  let txs := [tx 1; tx 2; tx 3; tx 4; tx 5; tx 6; early] in
  SliceContract shellNode /\
  snd (fst (applyTXs (E := shellNode) txs (ledger 35))) =
  [early; tx 2; tx 3; tx 4; tx 5; tx 6; tx 1] /\
  ~ TiesKeepOrder txs (snd (fst (applyTXs (E := shellNode) txs (ledger 35)))) /\
  fst (fst (applyTXs (E := stableNode) txs (ledger 35))) = None /\
  fst (fst (applyTXs (E := shellNode) txs (ledger 35))) = Some (ErrNonce alice 2 3).
Proof.
  intros tx early txs. split; [apply shellNode_contract|]. split; [reflexivity|].
  split; [|split; vm_compute; reflexivity].
  intros Hties. specialize (Hties 20). vm_compute in Hties. discriminate.
Qed.

(** ** Reward of the miner *)

Lemma wrap_add_l (a b : Z) : wrap (wrap a + b) = wrap (a + b).
Proof. unfold wrap. apply Zplus_mod_idemp_l. Qed.

Lemma wrap_add_r (a b : Z) : wrap (a + wrap b) = wrap (a + b).
Proof. unfold wrap. apply Zplus_mod_idemp_r. Qed.

Lemma GasReward_fold (txs : list SignedTx) (acc : Z) :
  fold_left (fun reward tx => wrap (reward + GasCost tx)) txs (wrap acc) =
  wrap (acc + sumGasTimesPrice txs).
Proof.
  revert acc. induction txs as [|tx rest IH]; intros acc; cbn [fold_left sumGasTimesPrice foldr].
  - rewrite Z.add_0_r. reflexivity.
  - unfold GasCost at 2. rewrite wrap_add_l, wrap_add_r, IH.
    f_equal. fold (sumGasTimesPrice rest). lia.
Qed.

Lemma GasReward_sum (b : Block) : GasReward b = wrap (sumGasTimesPrice (TXs b)).
Proof. unfold GasReward. change 0 with (wrap 0) at 1. apply GasReward_fold. Qed.

Lemma sumGasTimesPrice_perm (txs txs' : list SignedTx) :
  Permutation txs txs' -> sumGasTimesPrice txs = sumGasTimesPrice txs'.
Proof.
  induction 1; cbn [sumGasTimesPrice foldr];
    fold sumGasTimesPrice in *; try fold (sumGasTimesPrice l) in *;
    try fold (sumGasTimesPrice l') in *; lia.
Qed.

Lemma ApplyTx_balance_other {E : External} (tx : SignedTx) (c : Cfg) (account : Address) :
  account <> tx_From tx -> account <> tx_To tx ->
  balanceOf (snd (ApplyTx tx c)) account = balanceOf c account.
Proof.
  intros Hfrom Hto. rewrite ApplyTx_run.
  destruct (fst (ValidateTx tx c)); [reflexivity|].
  cbn zeta. cbn [snd]. unfold balanceOf. cfg_proj. heap_cases.
Qed.

Lemma applyEach_balance_other {E : External} (txs : list SignedTx) (c : Cfg)
    (account : Address) :
  (forall tx, In tx txs -> tx_From tx <> account /\ tx_To tx <> account) ->
  balanceOf (snd (applyEach txs c)) account = balanceOf c account.
Proof.
  revert c. induction txs as [|tx rest IH]; intros c Hother; [reflexivity|].
  cbn [applyEach]. unfold mbind, M_bind.
  destruct (Hother tx (or_introl eq_refl)) as [Hfrom Hto].
  pose proof (ApplyTx_balance_other tx c account
                (not_eq_sym Hfrom) (not_eq_sym Hto)) as Hfirst.
  destruct (ApplyTx tx c) as [[e|] c1]; cbn [snd] in *; [exact Hfirst|].
  rewrite IH; [exact Hfirst|].
  intros tx' Hin. apply Hother. right. exact Hin.
Qed.

(** C5. When [applyBlock] succeeds, the balance of the miner of the block
    is, in [uint] arithmetic, its balance once the transactions of the block
    are applied, plus the block reward, plus, under the fork, the sum over
    the transactions of the block of gas times gas price and, before the
    fork, 22 times the number of transactions; the increase is exactly that
    amount when the total fits a [uint]. No other balance moves in this
    step, and the balance the reward is added to is that from before the
    block when the miner neither sends nor receives in the block. *)
Theorem applyBlock_reward {E : External} (b b' : Block) (c c' : Cfg) :
  SliceContract E ->
  applyBlock b c = ((None, b'), c') ->
  let miner := hd_Miner (Header b) in
  let c1 := snd (applyTXs (TXs b) c) in
  let fee :=
    if forkActive c then sumGasTimesPrice (TXs b)
    else Z.of_nat (length (TXs b)) * 22 in
  fst (fst (applyTXs (TXs b) c)) = None /\
  balanceOf c' miner = wrap (balanceOf c1 miner + BlockReward + fee) /\
  (is_uint (balanceOf c1 miner + BlockReward + fee) ->
   balanceOf c' miner = balanceOf c1 miner + BlockReward + fee) /\
  (forall account, account <> miner ->
   balanceOf c' account = balanceOf c1 account) /\
  ((forall tx, In tx (TXs b) -> tx_From tx <> miner /\ tx_To tx <> miner) ->
   balanceOf c1 miner = balanceOf c miner).
Proof.
  intros Hsort Happly miner c1 fee.
  destruct (Hsort (TXs b)) as [Hperm _].
  assert (Hc1 : balanceOf c' miner = wrap (balanceOf c1 miner + BlockReward + fee) /\
                fst (fst (applyTXs (TXs b) c)) = None /\
                forall account, account <> miner ->
                  balanceOf c' account = balanceOf c1 account).
  { revert Happly. rewrite applyBlock_run. cbn zeta.
    destruct (hasGenesisBlock (this c) && negb _); [discriminate|].
    destruct (hasGenesisBlock (this c) && _ && negb _); [discriminate|].
    destruct (Block_Hash b) as [msg|hash]; [discriminate|].
    destruct (negb (IsBlockHashValid _ _)); [discriminate|].
    subst c1. rewrite applyTXs_run. cbn zeta. cbn [fst snd].
    pose proof (applyEach_frame (sort_Slice SignedTx txLess (TXs b)) c) as (Hs & _).
    destruct (applyEach _ c) as [[e|] c1]; cbn [fst snd] in *; [discriminate|].
    intros Heq. apply pair_equal_spec in Heq as [_ <-].
    unfold balanceOf. cfg_proj. fold miner.
    split; [|split; [reflexivity|intros account Hne; heap_cases]].
    rewrite !index_store. rewrite !decide_True by done.
    rewrite (forkActive_this c c1 Hs).
    subst fee. destruct (forkActive c).
    - rewrite GasReward_sum. cbn [TXs withTXs].
      rewrite <- (sumGasTimesPrice_perm _ _ Hperm).
      rewrite wrap_add_r, wrap_add_l. f_equal; lia.
    - rewrite <- (Permutation_length Hperm). unfold TxFee.
      rewrite wrap_add_r, wrap_add_l. f_equal; lia. }
  destruct Hc1 as (Hminer & Hok & Hothers).
  split; [exact Hok|]. split; [exact Hminer|].
  split; [intros Hfits; rewrite Hminer; apply wrap_uint; exact Hfits|].
  split; [exact Hothers|].
  intros Hout. subst c1. rewrite applyTXs_run. cbn zeta. cbn [snd].
  apply applyEach_balance_other.
  intros tx Hin. apply Hout.
  eapply Permutation_in; [symmetry; exact Hperm | exact Hin].
Qed.

(** A block with two transfers mined by [carol] before the fork earns her
    the reward of 100 and twice the fee of 22. *)
Lemma applyBlock_reward_witness :
  let blk := blockOf 0 0%N carol [transfer alice bob 100 1 10 0 0;
                                  transfer alice bob 50 2 11 0 0] in
  balanceOf (snd (applyBlock (E := stableNode) blk (ledger 35))) carol = 0 + 100 + 2 * 22.
Proof.
  intros blk.
  destruct (applyBlock_reward (E := stableNode) blk
              (snd (fst (applyBlock (E := stableNode) blk (ledger 35))))
              (ledger 35)
              (snd (applyBlock (E := stableNode) blk (ledger 35)))
              stableNode_contract) as (_ & _ & Hexact & _ & Hbefore).
  - vm_compute. reflexivity.
  - assert (Hout : forall tx, In tx (TXs blk) ->
                     tx_From tx <> hd_Miner (Header blk) /\
                     tx_To tx <> hd_Miner (Header blk)).
    { intros tx [<-|[<-|[]]]; split; discriminate. }
    specialize (Hbefore Hout).
    refine (eq_trans (Hexact _) _); rewrite Hbefore.
    + vm_compute. split; [discriminate | reflexivity].
    + reflexivity.
Defined.

(** ** Start-up *)

Lemma NewStateFromDisk_run {E : External} (dataDir : string) (difficulty : Z)
    (w : World) (fs : gmap string (list byte)) (gen : Genesis) (f : string) :
  InitDataDirIfNotExists dataDir genesisJson (files w) = (None, fs) ->
  loadGenesis (getGenesisJsonFilePath dataDir) fs = inr gen ->
  os_OpenFile (getBlocksDbFilePath dataDir) fs = inr f ->
  NewStateFromDisk dataDir difficulty w =
  afterReplay (replay (bufio_Scan (default [] (fs !! f)))
                      (seedCfg gen f difficulty fs w)).
Proof.
  intros Hinit Hgen Hopen. unfold NewStateFromDisk.
  rewrite Hinit, Hgen. cbn [heap files]. rewrite Hopen.
  unfold afterReplay, seedCfg.
  destruct (replay _ _) as [[e|] c]; reflexivity.
Qed.

Lemma replay_empty_record {E : External}
    (pre rest : list (list byte * option string)) (c : Cfg) :
  replay (pre ++ ([], None) :: rest) c = replay pre c.
Proof.
  revert c. induction pre as [|[blockFsJson [scanErr|]] pre IH]; intros c;
    cbn [replay app]; try reflexivity.
  destruct (length blockFsJson =? 0)%nat; [reflexivity|].
  destruct (json_Unmarshal blockFsJson) as [msg|blockFs]; [reflexivity|].
  unfold mbind, M_bind.
  destruct (applyBlock (Value blockFs) c) as [[[e|] b] c1]; [reflexivity|].
  destruct (assign _ c1) as [[] c2]. apply IH.
Qed.

Lemma replay_app {E : External}
    (pre rest : list (list byte * option string)) (c c1 : Cfg) :
  List.Forall (fun token => fst token <> [] /\ snd token = None) pre ->
  replay pre c = (None, c1) ->
  replay (pre ++ rest) c = replay rest c1.
Proof.
  intros Hpre. revert c.
  induction Hpre as [|[blockFsJson scanErr] pre [Hnonempty Hscan] _ IH]; intros c.
  - cbn [replay app]. unfold mret, M_ret. intros [= <-]. reflexivity.
  - cbn [fst snd] in *. subst scanErr. cbn [replay app].
    destruct blockFsJson as [|byte0 bytes]; [congruence|]. cbn [length Nat.eqb].
    destruct (json_Unmarshal _) as [msg|blockFs]; [discriminate|].
    unfold mbind, M_bind.
    destruct (applyBlock (Value blockFs) c) as [[[e|] b] c2]; [discriminate|].
    destruct (assign _ c2) as [[] c3]. apply IH.
Qed.

(** C4, as the code has it. At start-up the tokens of the scanner are
    replayed in their order. An empty token ends the replay there:
    [NewStateFromDisk] returns what the tokens before it built, whatever
    follows. A token that is not empty and does not decode is a hard error:
    when the tokens before it were all replayed, [NewStateFromDisk] fails
    with the error of the decoder and returns no state. *)
Theorem NewStateFromDisk_end_of_log {E : External} (dataDir : string) (difficulty : Z)
    (w : World) (fs : gmap string (list byte)) (gen : Genesis) (f : string)
    (pre rest : list (list byte * option string)) :
  InitDataDirIfNotExists dataDir genesisJson (files w) = (None, fs) ->
  loadGenesis (getGenesisJsonFilePath dataDir) fs = inr gen ->
  os_OpenFile (getBlocksDbFilePath dataDir) fs = inr f ->
  let seed := seedCfg gen f difficulty fs w in
  (bufio_Scan (default [] (fs !! f)) = pre ++ ([], None) :: rest ->
   NewStateFromDisk dataDir difficulty w = afterReplay (replay pre seed)) /\
  (forall bad msg c1,
     bufio_Scan (default [] (fs !! f)) = pre ++ (bad, None) :: rest ->
     List.Forall (fun token => fst token <> [] /\ snd token = None) pre ->
     replay pre seed = (None, c1) ->
     bad <> [] ->
     json_Unmarshal bad = inl msg ->
     NewStateFromDisk dataDir difficulty w = (inl (ErrExternal msg), world c1)).
Proof.
  intros Hinit Hgen Hopen seed.
  rewrite (NewStateFromDisk_run dataDir difficulty w fs gen f Hinit Hgen Hopen).
  fold seed. split.
  - intros ->. rewrite replay_empty_record. reflexivity.
  - intros bad msg c1 -> Hpre Hreplay Hbad Hdecode.
    rewrite (replay_app pre _ seed c1 Hpre Hreplay).
    cbn [replay]. destruct bad as [|byte0 bytes]; [congruence|].
    cbn [length Nat.eqb]. rewrite Hdecode. reflexivity.
Qed.

(** A log of a record, an empty line and a second record: start-up succeeds
    with the first block as the latest one. *)
Lemma NewStateFromDisk_end_of_log_witness :
  let log := [Byte.x7b; Byte.x00; Byte.x7d; newline; newline;
              Byte.x7b; Byte.x01; Byte.x7d; newline] in
  exists s w,
    NewStateFromDisk (E := stableNode) "node" 0 (dataDirWith log) = (inr s, w) /\
    hd_Number (Header (latestBlock s)) = 0 /\ hasGenesisBlock s = true.
Proof.
  intros log.
  destruct (NewStateFromDisk_end_of_log (E := stableNode) "node" 0 (dataDirWith log)
              (files (dataDirWith log)) toyGenesis "node/block.db"
              [([Byte.x7b; Byte.x00; Byte.x7d], None)]
              [([Byte.x7b; Byte.x01; Byte.x7d], None)]) as [Hempty _];
    [reflexivity | reflexivity | reflexivity |].
  rewrite Hempty by reflexivity.
  eexists. eexists. split; [vm_compute; reflexivity|]. split; reflexivity.
Defined.

(** The statement of C4 does not hold as written for a malformed record: on
    a log of a well-formed record followed by a line that does not decode,
    start-up fails with the error of the decoder instead of returning the
    state built from the first record. *)
Lemma malformed_record_fails_startup :
  let log := [Byte.x7b; Byte.x00; Byte.x7d; newline; Byte.x78; newline] in
  bufio_Scan (External := stableNode) log =
    [([Byte.x7b; Byte.x00; Byte.x7d], None); ([Byte.x78], None)] /\
  (exists blockFs, json_Unmarshal (External := stableNode) [Byte.x7b; Byte.x00; Byte.x7d]
                   = inr blockFs) /\
  (exists msg, json_Unmarshal (External := stableNode) [Byte.x78] = inl msg) /\
  exists msg w,
    NewStateFromDisk (E := stableNode) "node" 0 (dataDirWith log)
    = (inl (ErrExternal msg), w).
Proof.
  intros log. split; [reflexivity|].
  split; [eexists; reflexivity|]. split; [eexists; reflexivity|].
  eexists. eexists. vm_compute. reflexivity.
Qed.

(** ** Scenarios *)

(** Before the fork [alice] sends 100 to [bob] in a block mined by [carol]:
    [alice] pays 100 and the fee of 22, [carol] earns the reward of 100 and
    the fee, the next nonce of [alice] is 2 and the record is in the log. *)
Example block_before_fork :
  let '(result, c) :=
    AddBlock (E := stableNode)
             (blockOf 0 0%N carol [transfer alice bob 100 1 10 0 0]) (ledger 35) in
  result = (2%N, None) /\
  balanceOf c alice = 1000 - 100 - 22 /\
  balanceOf c bob = 5 + 100 /\
  balanceOf c carol = 100 + 22 /\
  fst (GetNextAccountNonce alice c) = 2 /\
  files (world c) !! "block.db"%string = Some [Byte.x7b; Byte.x00; Byte.x7d; newline] /\
  hasGenesisBlock (this c) = true.
Proof. vm_compute. repeat split. Qed.

(** Under the fork a transfer of 50 with gas 22 at price 2 costs 50 + 44,
    and the miner earns the reward and 44. *)
Example block_after_fork :
  let '(result, c) :=
    AddBlock (E := stableNode)
             (blockOf 0 0%N carol [transfer alice bob 50 1 10 22 2]) (ledger 0) in
  snd result = None /\
  balanceOf c alice = 1000 - (50 + 44) /\
  balanceOf c carol = 100 + 44.
Proof. vm_compute. repeat split. Qed.

(** A first transaction with nonce 2 is refused, expected 1. *)
Example nonce_skipped :
  AddBlock (E := stableNode)
           (blockOf 0 0%N carol [transfer alice bob 100 2 10 0 0]) (ledger 35)
  = ((Hash_zero, Some (ErrNonce alice 1 2)),
     snd (AddBlock (E := stableNode)
            (blockOf 0 0%N carol [transfer alice bob 100 2 10 0 0]) (ledger 35))).
Proof. vm_compute. reflexivity. Qed.

(** * Further properties of state.go *)

(** ** Transactions that fail *)

(** [ApplyTx] that returns an error has written nothing: the configuration
    is the one it was given. *)
Theorem ApplyTx_failure_writes_nothing {E : External} (tx : SignedTx) (c c' : Cfg)
    (e : Error) :
  ApplyTx tx c = (Some e, c') -> c' = c /\ fst (ValidateTx tx c) = Some e.
Proof.
  rewrite ApplyTx_run.
  destruct (fst (ValidateTx tx c)) as [e0|]; [|discriminate].
  intros Heq. apply pair_equal_spec in Heq as [He <-].
  split; [reflexivity | exact He].
Qed.

Lemma ApplyTx_failure_writes_nothing_witness :
  snd (ApplyTx (E := stableNode) (transfer alice bob 100 2 10 0 0) (ledger 35))
  = ledger 35.
Proof.
  apply (ApplyTx_failure_writes_nothing (E := stableNode)
           (transfer alice bob 100 2 10 0 0) (ledger 35) _ (ErrNonce alice 1 2)).
  reflexivity.
Defined.

Lemma applyEach_app {E : External} (pre rest : list SignedTx) (c c1 : Cfg) :
  applyEach pre c = (None, c1) ->
  applyEach (pre ++ rest) c = applyEach rest c1.
Proof.
  revert c. induction pre as [|tx pre IH]; intros c.
  - cbn [applyEach app]. unfold mret, M_ret. intros Heq.
    apply pair_equal_spec in Heq as [_ <-]. reflexivity.
  - cbn [applyEach app]. unfold mbind, M_bind.
    destruct (ApplyTx tx c) as [[e|] c2]; [discriminate|]. apply IH.
Qed.

(** [applyBlock] does not undo what it has done: when the transaction after
    [pre] in the sorted order is refused, [applyBlock] returns its error and
    leaves the state as the transactions of [pre] made it. The errors that
    come before any transaction leave the configuration and the block as
    they were: a wrong number, a wrong parent, a hash that cannot be
    computed, whose error is returned as it is, and a hash that fails the
    proof-of-work check. *)
Theorem applyBlock_keeps_partial_application {E : External} (b : Block) (c : Cfg) :
  let headerFits :=
    hasGenesisBlock (this c) = true ->
    hd_Number (Header b) = wrap (hd_Number (Header (latestBlock (this c))) + 1) /\
    (0 < hd_Number (Header (latestBlock (this c))) ->
     hd_Parent (Header b) = latestBlockHash (this c)) in
  (forall e, fst (fst (applyBlock b c)) = Some e -> fromValidation e = false ->
     applyBlock b c = ((Some e, b), c)) /\
  (forall e, fst (fst (applyBlock b c)) = Some e -> ~ headerFits ->
     applyBlock b c = ((Some e, b), c) /\
     (isWrongBlockNumber (Some e) \/ isWrongParent (Some e))) /\
  (forall msg, headerFits -> Block_Hash b = inl msg ->
     applyBlock b c = ((Some (ErrExternal msg), b), c)) /\
  (forall hash, headerFits -> Block_Hash b = inr hash ->
     IsBlockHashValid hash (miningDifficulty (this c)) = false ->
     applyBlock b c = ((Some (ErrInvalidHash hash), b), c)) /\
  (forall pre tx rest c1 e hash,
     headerFits ->
     Block_Hash b = inr hash ->
     IsBlockHashValid hash (miningDifficulty (this c)) = true ->
     sort_Slice SignedTx txLess (TXs b) = pre ++ tx :: rest ->
     applyEach pre c = (None, c1) ->
     fst (ValidateTx tx c1) = Some e ->
     applyBlock b c = ((Some e, withTXs b (pre ++ tx :: rest)), c1)).
Proof.
  intros headerFits.
  assert (Hchecks : headerFits ->
    hasGenesisBlock (this c)
    && negb (hd_Number (Header b)
             =? wrap (hd_Number (Header (latestBlock (this c))) + 1)) = false /\
    hasGenesisBlock (this c)
    && (0 <? hd_Number (Header (latestBlock (this c))))
    && negb (bool_decide (hd_Parent (Header b) = latestBlockHash (this c))) = false).
  { intros Hhead. subst headerFits. cbn beta in Hhead.
    destruct (hasGenesisBlock (this c)); [|split; reflexivity].
    destruct (Hhead eq_refl) as [Hnum Hp]. split.
    - rewrite Hnum, Z.eqb_refl. reflexivity.
    - cbn [andb]. destruct (0 <? _) eqn:Hpos; [|reflexivity]. bools.
      rewrite (bool_decide_eq_true_2 _ (Hp Hpos)). reflexivity. }
  split; [|split; [|split; [|split]]].
  - intros e. rewrite applyBlock_run. cbn zeta.
    destruct (hasGenesisBlock (this c) && negb _);
      [cbn [fst]; intros [= <-] _; reflexivity|].
    destruct (hasGenesisBlock (this c) && _ && negb _);
      [cbn [fst]; intros [= <-] _; reflexivity|].
    destruct (Block_Hash b) as [msg|hash].
    { cbn [fst]. intros Heq. discriminate || (injection Heq as <-; discriminate). }
    destruct (negb (IsBlockHashValid _ _));
      [cbn [fst]; intros [= <-] _; reflexivity|].
    destruct (fst (applyEach _ c)) as [e0|] eqn:Htxs; cbn [fst]; [|discriminate].
    intros Heq Hkind. injection Heq as ->.
    apply applyEach_error_kind in Htxs. congruence.
  - intros e. rewrite applyBlock_run. cbn zeta.
    destruct (hasGenesisBlock (this c) && negb _) eqn:Hnum.
    { cbn [fst]. intros [= <-] _. split; [reflexivity|]. left. eexists _, _. reflexivity. }
    destruct (hasGenesisBlock (this c) && _ && negb _) eqn:Hpar.
    { cbn [fst]. intros [= <-] _. split; [reflexivity|]. right. eexists _, _. reflexivity. }
    intros _ Hnot. exfalso. apply Hnot. subst headerFits. cbn beta. intros Hhas.
    rewrite Hhas in Hnum, Hpar. cbn [andb] in Hnum, Hpar.
    apply negb_false_iff in Hnum. apply Z.eqb_eq in Hnum.
    split; [exact Hnum|]. intros Hpos.
    apply Z.ltb_lt in Hpos. rewrite Hpos in Hpar. cbn [andb] in Hpar.
    apply negb_false_iff in Hpar. apply bool_decide_eq_true_1 in Hpar. exact Hpar.
  - intros msg Hhead Hhash. destruct (Hchecks Hhead) as [Hnum Hpar].
    rewrite applyBlock_run. cbn zeta. rewrite Hnum, Hpar, Hhash. reflexivity.
  - intros hash Hhead Hhash Hinvalid. destruct (Hchecks Hhead) as [Hnum Hpar].
    rewrite applyBlock_run. cbn zeta. rewrite Hnum, Hpar, Hhash, Hinvalid. reflexivity.
  - intros pre tx rest c1 e hash Hhead Hhash Hvalid Hsorted Hpre Htx.
    destruct (Hchecks Hhead) as [Hnum Hpar].
    rewrite applyBlock_run. cbn zeta.
    rewrite Hnum, Hpar, Hhash, Hvalid, Hsorted. cbn [negb].
    rewrite (applyEach_app pre (tx :: rest) c c1 Hpre).
    cbn [applyEach]. unfold mbind, M_bind. rewrite ApplyTx_run, Htx.
    reflexivity.
Qed.

(** A block of a good transfer followed by one with a wrong nonce: the error
    is that of the second, and [alice] has paid for the first. *)
Lemma applyBlock_keeps_partial_application_witness :
  let blk := blockOf 0 0%N carol [transfer alice bob 100 1 10 0 0;
                                  transfer alice bob 1 5 11 0 0] in
  fst (fst (applyBlock (E := stableNode) blk (ledger 35))) = Some (ErrNonce alice 2 5) /\
  balanceOf (snd (applyBlock (E := stableNode) blk (ledger 35))) alice = 878.
Proof.
  intros blk.
  destruct (applyBlock_keeps_partial_application (E := stableNode) blk (ledger 35))
    as (_ & _ & _ & _ & H).
  rewrite (H [transfer alice bob 100 1 10 0 0] (transfer alice bob 1 5 11 0 0) []
             (snd (ApplyTx (E := stableNode) (transfer alice bob 100 1 10 0 0) (ledger 35)))
             (ErrNonce alice 2 5) 2%N); try reflexivity.
  - split; [reflexivity | vm_compute; reflexivity].
  - discriminate.
Defined.

(** ** The verdict of validation *)

Lemma ValidateTx_accepts_inv {E : External} (tx : SignedTx) (c : Cfg) :
  fst (ValidateTx tx c) = None ->
  IsAuthentic tx = (true, None) /\
  tx_Nonce tx = wrap (nonceOf c (tx_From tx) + 1) /\
  (if forkActive c then tx_Gas tx = 22 /\ 2 <= tx_GasPrice tx
   else tx_Gas tx = 0 /\ tx_GasPrice tx = 0) /\
  Cost tx (forkActive c) <= balanceOf c (tx_From tx).
Proof.
  rewrite ValidateTx_result, GetNextAccountNonce_run. cbn [fst].
  unfold TxGas, TxGasPriceDefault.
  destruct (IsAuthentic tx) as [[|] [msg|]]; try discriminate. cbn zeta.
  destruct (tx_Nonce tx =? _) eqn:Hnonce; cbn [negb]; [|discriminate].
  destruct (forkActive c); cbn [andb negb].
  - destruct (tx_Gas tx =? 22) eqn:Hgas; cbn [negb]; [|discriminate].
    destruct (tx_GasPrice tx <? 2) eqn:Hprice; [discriminate|].
    destruct (balanceOf c (tx_From tx) <? _) eqn:Hfunds; [discriminate|].
    bools. intros _. repeat split; assumption || lia.
  - destruct (tx_Gas tx =? 0) eqn:Hgas; cbn [negb orb]; [|discriminate].
    destruct (tx_GasPrice tx =? 0) eqn:Hprice; cbn [negb]; [|discriminate].
    destruct (balanceOf c (tx_From tx) <? _) eqn:Hfunds; [discriminate|].
    bools. intros _. repeat split; assumption || lia.
Qed.

(** [ValidateTx] accepts a transaction exactly when it is authentic, bears
    the nonce that follows the last one of its sender, has the gas fields of
    the regime of the state (gas 22 and a price of at least 2 under the fork,
    both zero before it) and costs no more than the balance of its sender.
    A collaborator error on the signature, then a forged sender, are reported
    before any of the other checks is made. *)
Theorem ValidateTx_accepts_iff {E : External} (tx : SignedTx) (c : Cfg) :
  (fst (ValidateTx tx c) = None <->
   IsAuthentic tx = (true, None) /\
   tx_Nonce tx = wrap (nonceOf c (tx_From tx) + 1) /\
   (if forkActive c then tx_Gas tx = 22 /\ 2 <= tx_GasPrice tx
    else tx_Gas tx = 0 /\ tx_GasPrice tx = 0) /\
   Cost tx (forkActive c) <= balanceOf c (tx_From tx)) /\
  (forall ok msg, IsAuthentic tx = (ok, Some msg) ->
     fst (ValidateTx tx c) = Some (ErrExternal msg)) /\
  (IsAuthentic tx = (false, None) ->
     fst (ValidateTx tx c) = Some (ErrForged (tx_From tx))).
Proof.
  split; [split; [apply ValidateTx_accepts_inv|]|split].
  - intros (Hauth & Hnonce & Hfee & Hfunds).
    rewrite ValidateTx_result, GetNextAccountNonce_run, Hauth. cbn [fst]. cbn zeta.
    rewrite <- Hnonce, Z.eqb_refl. cbn [negb].
    unfold TxGas, TxGasPriceDefault.
    destruct (forkActive c); cbn [andb negb]; destruct Hfee as [Hgas Hprice].
    + rewrite Hgas. cbn [Z.eqb Pos.eqb negb].
      destruct (tx_GasPrice tx <? 2) eqn:Hp; bools; [lia|].
      destruct (balanceOf c (tx_From tx) <? _) eqn:Hf; bools; [lia | reflexivity].
    + rewrite Hgas, Hprice. cbn [Z.eqb negb orb].
      destruct (balanceOf c (tx_From tx) <? _) eqn:Hf; bools; [lia | reflexivity].
  - intros ok msg Hauth. rewrite ValidateTx_result, Hauth.
    destruct ok; reflexivity.
  - intros Hauth. rewrite ValidateTx_result, Hauth. reflexivity.
Qed.

Lemma ValidateTx_accepts_iff_witness :
  fst (ValidateTx (E := stableNode) (transfer alice bob 100 1 10 0 0) (ledger 35)) = None.
Proof.
  apply (ValidateTx_accepts_iff (E := stableNode) (transfer alice bob 100 1 10 0 0)
           (ledger 35)).
  vm_compute. repeat split; discriminate.
Defined.

(** No transaction is valid on both sides of the fork: one accepted by a
    state under the fork is refused by every state before it, whatever its
    ledger, and one accepted before the fork is refused under it. *)
Theorem no_transaction_valid_across_the_fork {E : External} (tx : SignedTx)
    (before after : Cfg) :
  forkActive before = false -> forkActive after = true ->
  ~ (fst (ValidateTx tx before) = None /\ fst (ValidateTx tx after) = None).
Proof.
  intros Hb Ha [H1 H2].
  apply ValidateTx_accepts_inv in H1 as (_ & _ & Hfee1 & _).
  apply ValidateTx_accepts_inv in H2 as (_ & _ & Hfee2 & _).
  rewrite Hb in Hfee1. rewrite Ha in Hfee2. lia.
Qed.

Lemma no_transaction_valid_across_the_fork_witness :
  ~ (fst (ValidateTx (E := stableNode) (transfer alice bob 100 1 10 0 0) (ledger 35)) = None /\
     fst (ValidateTx (E := stableNode) (transfer alice bob 100 1 10 0 0) (ledger 0)) = None).
Proof.
  apply (no_transaction_valid_across_the_fork (E := stableNode)); reflexivity.
Defined.

(** ** Nonces *)

Lemma wrap_succ_neq (x : Z) : is_uint x -> wrap (x + 1) <> x.
Proof.
  unfold is_uint, wrap, uint_size. intros Hx.
  destruct (Z.eq_dec x (2 ^ 64 - 1)) as [->|Hne].
  - vm_compute. discriminate.
  - rewrite Z.mod_small by lia. lia.
Qed.

Lemma ApplyTx_nonces {E : External} (tx : SignedTx) (c c' : Cfg) :
  ApplyTx tx c = (None, c') ->
  this c' = this c /\
  tx_Nonce tx = wrap (nonceOf c (tx_From tx) + 1) /\
  nonceOf c' (tx_From tx) = tx_Nonce tx /\
  (Balances (this c) <> Account2Nonce (this c) ->
   forall account, account <> tx_From tx -> nonceOf c' account = nonceOf c account).
Proof.
  rewrite ApplyTx_run.
  destruct (fst (ValidateTx tx c)) eqn:Hvalid; [discriminate|].
  apply ValidateTx_accepts_inv in Hvalid as (_ & Hnonce & _).
  cbn zeta. intros Heq. apply pair_equal_spec in Heq as [_ <-].
  unfold nonceOf in *. cfg_proj.
  split; [reflexivity|]. split; [exact Hnonce|]. split; [heap_cases|].
  intros Hdistinct account Hother. heap_cases.
Qed.

(** A transaction that has just been applied is refused if it is presented
    again: its nonce is now the last-used one of its sender, not the next. *)
Theorem ApplyTx_refuses_replay {E : External} (tx : SignedTx) (c c' : Cfg) :
  ApplyTx tx c = (None, c') ->
  ApplyTx tx c' =
  (Some (ErrNonce (tx_From tx) (wrap (tx_Nonce tx + 1)) (tx_Nonce tx)), c').
Proof.
  intros Happly.
  destruct (ApplyTx_nonces tx c c' Happly) as (_ & Hnonce & Hlast & _).
  assert (Hauth : IsAuthentic tx = (true, None)).
  { rewrite ApplyTx_run in Happly.
    destruct (fst (ValidateTx tx c)) eqn:Hvalid; [discriminate|].
    apply ValidateTx_accepts_inv in Hvalid as (Hauth & _). exact Hauth. }
  rewrite ApplyTx_run, ValidateTx_result, GetNextAccountNonce_run, Hauth.
  cbn [fst]. cbn zeta. rewrite Hlast.
  destruct (tx_Nonce tx =? wrap (tx_Nonce tx + 1)) eqn:Heq; cbn [negb]; [|reflexivity].
  bools. exfalso. apply (wrap_succ_neq (tx_Nonce tx)); [|congruence].
  rewrite Hnonce. apply wrap_is_uint.
Qed.

Lemma ApplyTx_refuses_replay_witness :
  let tx := transfer alice bob 100 1 10 0 0 in
  fst (ApplyTx (E := stableNode) tx (snd (ApplyTx (E := stableNode) tx (ledger 35))))
  = Some (ErrNonce alice 2 1).
Proof.
  intros tx.
  rewrite (ApplyTx_refuses_replay (E := stableNode) tx (ledger 35)
             (snd (ApplyTx (E := stableNode) tx (ledger 35)))); reflexivity.
Defined.

Lemma sentBy_cons (account : Address) (tx : SignedTx) (txs : list SignedTx) :
  sentBy account (tx :: txs) =
  (if N.eqb (tx_From tx) account then 1 else 0) + sentBy account txs.
Proof.
  unfold sentBy. cbn [List.filter].
  destruct (N.eqb (tx_From tx) account); cbn [length]; lia.
Qed.

Lemma sentBy_perm (account : Address) (txs txs' : list SignedTx) :
  Permutation txs txs' -> sentBy account txs = sentBy account txs'.
Proof.
  induction 1 as [|tx l l' _ IH|x y l|l l' l'' _ IH1 _ IH2];
    rewrite ?sentBy_cons; try lia; congruence.
Qed.

Lemma applyEach_nonces {E : External} (txs : list SignedTx) (c c' : Cfg)
    (account : Address) :
  Balances (this c) <> Account2Nonce (this c) ->
  is_uint (nonceOf c account) ->
  applyEach txs c = (None, c') ->
  this c' = this c /\
  nonceOf c' account = wrap (nonceOf c account + sentBy account txs).
Proof.
  revert c. induction txs as [|tx rest IH]; intros c Hdistinct Huint.
  - cbn [applyEach]. unfold mret, M_ret. intros Heq.
    apply pair_equal_spec in Heq as [_ <-].
    split; [reflexivity|]. unfold sentBy. cbn. rewrite Z.add_0_r.
    symmetry. apply wrap_uint. exact Huint.
  - cbn [applyEach]. unfold mbind, M_bind.
    destruct (ApplyTx tx c) as [[e|] c1] eqn:Hfirst; [discriminate|].
    destruct (ApplyTx_nonces tx c c1 Hfirst) as (Hthis & Hnonce & Hlast & Hothers).
    specialize (Hothers Hdistinct).
    intros Hrest. rewrite sentBy_cons.
    destruct (N.eqb_spec (tx_From tx) account) as [Heq|Hne].
    + subst account.
      destruct (IH c1) as [Hthis' Hend]; [rewrite Hthis; exact Hdistinct| |exact Hrest|].
      { rewrite Hlast, Hnonce. apply wrap_is_uint. }
      split; [congruence|]. rewrite Hend, Hlast, Hnonce, wrap_add_l.
      f_equal; lia.
    + destruct (IH c1) as [Hthis' Hend]; [rewrite Hthis; exact Hdistinct| |exact Hrest|].
      { rewrite Hothers by congruence. exact Huint. }
      split; [congruence|]. rewrite Hend, Hothers by congruence. f_equal; lia.
Qed.

(** A block applied with success advances the last-used nonce of every
    account by the number of transactions of the block that the account
    sent, in [uint] arithmetic; the nonce of an account that sent none is
    untouched. *)
Theorem applyBlock_advances_nonces {E : External} (b b' : Block) (c c' : Cfg)
    (account : Address) :
  SliceContract E ->
  Balances (this c) <> Account2Nonce (this c) ->
  is_uint (nonceOf c account) ->
  applyBlock b c = ((None, b'), c') ->
  nonceOf c' account = wrap (nonceOf c account + sentBy account (TXs b)) /\
  (sentBy account (TXs b) = 0 -> nonceOf c' account = nonceOf c account).
Proof.
  intros Hsort Hdistinct Huint Happly.
  destruct (Hsort (TXs b)) as [Hperm _].
  assert (Hmain : nonceOf c' account = wrap (nonceOf c account + sentBy account (TXs b))).
  { revert Happly. rewrite applyBlock_run. cbn zeta.
    destruct (hasGenesisBlock (this c) && negb _); [discriminate|].
    destruct (hasGenesisBlock (this c) && _ && negb _); [discriminate|].
    destruct (Block_Hash b) as [msg|hash]; [discriminate|].
    destruct (negb (IsBlockHashValid _ _)); [discriminate|].
    destruct (applyEach _ c) as [[e|] c1] eqn:Htxs; cbn [fst snd]; [discriminate|].
    destruct (applyEach_nonces _ c c1 account Hdistinct Huint Htxs) as [Hthis Hend].
    intros Heq. apply pair_equal_spec in Heq as [_ <-].
    rewrite (sentBy_perm account _ _ Hperm), <- Hend.
    unfold nonceOf. cfg_proj. rewrite Hthis in *. heap_cases. }
  split; [exact Hmain|].
  intros Hnone. rewrite Hmain, Hnone, Z.add_0_r. apply wrap_uint. exact Huint.
Qed.

Lemma applyBlock_advances_nonces_witness :
  let blk := blockOf 0 0%N carol [transfer alice bob 100 1 10 0 0;
                                  transfer alice bob 50 2 11 0 0] in
  nonceOf (snd (applyBlock (E := stableNode) blk (ledger 35))) alice = 2.
Proof.
  intros blk.
  destruct (applyBlock_advances_nonces (E := stableNode) blk
              (snd (fst (applyBlock (E := stableNode) blk (ledger 35))))
              (ledger 35)
              (snd (applyBlock (E := stableNode) blk (ledger 35)))
              alice stableNode_contract) as [H _].
  - discriminate.
  - vm_compute. split; [discriminate | reflexivity].
  - vm_compute. reflexivity.
  - rewrite H. reflexivity.
Defined.

(** ** The regime of a block *)

Lemma applyEach_fee_fields {E : External} (txs : list SignedTx) (c c' : Cfg) :
  applyEach txs c = (None, c') ->
  forall tx, In tx txs ->
    if forkActive c then tx_Gas tx = 22 /\ 2 <= tx_GasPrice tx
    else tx_Gas tx = 0 /\ tx_GasPrice tx = 0.
Proof.
  revert c. induction txs as [|tx0 rest IH]; intros c Hrun tx Hin; [destruct Hin|].
  cbn [applyEach] in Hrun. unfold mbind, M_bind in Hrun.
  destruct (ApplyTx tx0 c) as [[e|] c1] eqn:Hfirst; [discriminate|].
  destruct Hin as [<-|Hin].
  - rewrite ApplyTx_run in Hfirst.
    destruct (fst (ValidateTx tx0 c)) eqn:Hvalid; [discriminate|].
    apply ValidateTx_accepts_inv in Hvalid as (_ & _ & Hfee & _). exact Hfee.
  - destruct (ApplyTx_nonces tx0 c c1 Hfirst) as (Hthis & _).
    rewrite <- (forkActive_this c c1 Hthis). apply (IH c1 Hrun tx Hin).
Qed.

(** The fee regime of a block is that of the next block number of the state
    it is applied to. On a state that holds a committed block this is the
    number of the block itself: all the transactions of an accepted block
    numbered [k] have gas 22 and a price of at least 2 when [k] has reached
    the fork threshold, and zero gas fields when it has not. On a state with
    no committed block the number of the block is not looked at and the
    regime is that of block 0. *)
Theorem applyBlock_fee_regime {E : External} (b b' : Block) (c c' : Cfg) :
  SliceContract E ->
  applyBlock b c = ((None, b'), c') ->
  let number := if hasGenesisBlock (this c) then hd_Number (Header b) else 0 in
  forkActive c = (forkTIP1 (this c) <=? number) /\
  forall tx, In tx (TXs b) ->
    if forkTIP1 (this c) <=? number then tx_Gas tx = 22 /\ 2 <= tx_GasPrice tx
    else tx_Gas tx = 0 /\ tx_GasPrice tx = 0.
Proof.
  intros Hsort Happly number.
  destruct (Hsort (TXs b)) as [Hperm _].
  revert Happly. rewrite applyBlock_run. cbn zeta.
  assert (Hflag : hasGenesisBlock (this c)
                  && negb (hd_Number (Header b)
                           =? wrap (hd_Number (Header (latestBlock (this c))) + 1))
                  = false ->
                  forkActive c = (forkTIP1 (this c) <=? number)).
  { intros Hnum. rewrite forkActive_eq, nextBlockNumber_eq. subst number.
    destruct (hasGenesisBlock (this c)); [|reflexivity].
    cbn [andb] in Hnum. bools. rewrite Hnum. reflexivity. }
  destruct (hasGenesisBlock (this c) && negb _); [discriminate|].
  specialize (Hflag eq_refl).
  destruct (hasGenesisBlock (this c) && _ && negb _); [discriminate|].
  destruct (Block_Hash b) as [msg|hash]; [discriminate|].
  destruct (negb (IsBlockHashValid _ _)); [discriminate|].
  destruct (applyEach _ c) as [[e|] c1] eqn:Htxs; cbn [fst snd]; [discriminate|].
  intros _. split; [exact Hflag|].
  intros tx Hin. rewrite <- Hflag.
  apply (applyEach_fee_fields _ c c1 Htxs).
  eapply Permutation_in; [exact Hperm | exact Hin].
Qed.

Lemma applyBlock_fee_regime_witness :
  let blk := blockOf 7 0%N carol [transfer alice bob 100 1 10 0 0] in
  forkActive (ledger 5) = false /\
  tx_Gas (transfer alice bob 100 1 10 0 0) = 0.
Proof.
  intros blk.
  destruct (applyBlock_fee_regime (E := stableNode) blk
              (snd (fst (applyBlock (E := stableNode) blk (ledger 5))))
              (ledger 5)
              (snd (applyBlock (E := stableNode) blk (ledger 5)))
              stableNode_contract) as [Hflag Htxs].
  - vm_compute. reflexivity.
  - split; [exact Hflag|].
    apply (Htxs (transfer alice bob 100 1 10 0 0)). left. reflexivity.
Defined.

(** ** The same ledger in two places of the heap *)

Lemma sameLedger_reads (c1 c2 : Cfg) :
  sameLedger c1 c2 ->
  forkActive c1 = forkActive c2 /\
  (forall account, balanceOf c1 account = balanceOf c2 account) /\
  (forall account, nonceOf c1 account = nonceOf c2 account).
Proof.
  intros (Hb & Hh & Hg & Hd & Hf & Hbal & Hnon).
  split; [|split].
  - rewrite !forkActive_eq, !nextBlockNumber_eq, Hb, Hg, Hf. reflexivity.
  - intros account. unfold balanceOf, index. rewrite Hbal. reflexivity.
  - intros account. unfold nonceOf, index. rewrite Hnon. reflexivity.
Qed.

Lemma ValidateTx_same {E : External} (tx : SignedTx) (c1 c2 : Cfg) :
  sameLedger c1 c2 -> fst (ValidateTx tx c1) = fst (ValidateTx tx c2).
Proof.
  intros Hsame. destruct (sameLedger_reads c1 c2 Hsame) as (Hfork & Hbal & Hnon).
  rewrite !ValidateTx_result, !GetNextAccountNonce_run. cbn [fst].
  rewrite Hfork, Hbal, Hnon. reflexivity.
Qed.

Lemma ApplyTx_tables {E : External} (tx : SignedTx) (c : Cfg) :
  fst (ValidateTx tx c) = None ->
  Balances (this c) <> Account2Nonce (this c) ->
  let c' := snd (ApplyTx tx c) in
  let debited :=
    <[tx_From tx := wrap (balanceOf c (tx_From tx) - Cost tx (forkActive c))]>
      (deref (heap (world c)) (Balances (this c))) in
  this c' = this c /\
  deref (heap (world c')) (Balances (this c)) =
    <[tx_To tx := wrap (default 0 (debited !! tx_To tx) + tx_Value tx)]> debited /\
  deref (heap (world c')) (Account2Nonce (this c)) =
    <[tx_From tx := tx_Nonce tx]> (deref (heap (world c)) (Account2Nonce (this c))).
Proof.
  intros Hvalid Hdistinct. rewrite ApplyTx_run, Hvalid. cbn zeta. cbn [snd]. cfg_proj.
  split; [reflexivity|]. unfold index. rewrite !deref_store.
  rewrite !(decide_True (P := Balances (this c) = Balances (this c))) by reflexivity.
  rewrite !(decide_True (P := Account2Nonce (this c) = Account2Nonce (this c)))
    by reflexivity.
  rewrite !(decide_False (P := Account2Nonce (this c) = Balances (this c)))
    by (apply not_eq_sym; exact Hdistinct).
  rewrite !(decide_False (P := Balances (this c) = Account2Nonce (this c)))
    by exact Hdistinct.
  split; reflexivity.
Qed.

Lemma ApplyTx_same {E : External} (tx : SignedTx) (c1 c2 : Cfg) :
  sameLedger c1 c2 ->
  Balances (this c1) <> Account2Nonce (this c1) ->
  Balances (this c2) <> Account2Nonce (this c2) ->
  fst (ApplyTx tx c1) = fst (ApplyTx tx c2) /\
  sameLedger (snd (ApplyTx tx c1)) (snd (ApplyTx tx c2)) /\
  this (snd (ApplyTx tx c1)) = this c1 /\
  this (snd (ApplyTx tx c2)) = this c2.
Proof.
  intros Hsame H1 H2.
  pose proof (ValidateTx_same tx c1 c2 Hsame) as Hverdict.
  destruct (fst (ValidateTx tx c1)) as [e|] eqn:Hv1.
  - rewrite !ApplyTx_run, Hv1, <- Hverdict. cbn [fst snd]. auto.
  - symmetry in Hverdict.
    destruct (ApplyTx_tables tx c1 Hv1 H1) as (Ht1 & Hb1 & Hn1).
    destruct (ApplyTx_tables tx c2 Hverdict H2) as (Ht2 & Hb2 & Hn2).
    destruct (sameLedger_reads c1 c2 Hsame) as (Hfork & Hbal & _).
    split; [rewrite !ApplyTx_run, Hv1, Hverdict; reflexivity|].
    split; [|split; assumption].
    destruct Hsame as (Hb & Hh & Hg & Hd & Hf & Hbalances & Hnonces).
    unfold sameLedger. rewrite Ht1, Ht2, Hb1, Hb2, Hn1, Hn2.
    rewrite Hfork, Hbal, Hbalances, Hnonces. auto 10.
Qed.

Lemma applyEach_same {E : External} (txs : list SignedTx) (c1 c2 : Cfg) :
  sameLedger c1 c2 ->
  Balances (this c1) <> Account2Nonce (this c1) ->
  Balances (this c2) <> Account2Nonce (this c2) ->
  fst (applyEach txs c1) = fst (applyEach txs c2) /\
  sameLedger (snd (applyEach txs c1)) (snd (applyEach txs c2)) /\
  this (snd (applyEach txs c1)) = this c1 /\
  this (snd (applyEach txs c2)) = this c2.
Proof.
  revert c1 c2. induction txs as [|tx rest IH]; intros c1 c2 Hsame H1 H2.
  - cbn. auto.
  - cbn [applyEach]. unfold mbind, M_bind.
    destruct (ApplyTx_same tx c1 c2 Hsame H1 H2) as (Hres & Hsame' & Ht1 & Ht2).
    destruct (ApplyTx tx c1) as [r1 d1]. destruct (ApplyTx tx c2) as [r2 d2].
    cbn [fst snd] in *. subst r2.
    destruct r1 as [e|]; [cbn; auto|].
    destruct (IH d1 d2 Hsame') as (Hres' & Hsame'' & Ht1' & Ht2');
      [rewrite Ht1; exact H1 | rewrite Ht2; exact H2|].
    split; [exact Hres'|]. split; [exact Hsame''|]. split; congruence.
Qed.

Lemma applyBlock_same {E : External} (b : Block) (c1 c2 : Cfg) :
  sameLedger c1 c2 ->
  Balances (this c1) <> Account2Nonce (this c1) ->
  Balances (this c2) <> Account2Nonce (this c2) ->
  fst (applyBlock b c1) = fst (applyBlock b c2) /\
  sameLedger (snd (applyBlock b c1)) (snd (applyBlock b c2)) /\
  this (snd (applyBlock b c2)) = this c2.
Proof.
  intros Hsame H1 H2.
  pose proof Hsame as (Hb & Hh & Hg & Hd & Hf & Hbalances & Hnonces).
  rewrite !applyBlock_run. cbn zeta. rewrite <- Hb, <- Hh, <- Hg, <- Hd.
  destruct (hasGenesisBlock (this c1) && negb _); [cbn; auto|].
  destruct (hasGenesisBlock (this c1) && _ && negb _); [cbn; auto|].
  destruct (Block_Hash b) as [msg|hash]; [cbn; auto|].
  destruct (negb (IsBlockHashValid _ _)); [cbn; auto|].
  destruct (applyEach_same (sort_Slice SignedTx txLess (TXs b)) c1 c2 Hsame H1 H2)
    as (Hres & Hsame' & Ht1 & Ht2).
  destruct (applyEach _ c1) as [r1 d1]. destruct (applyEach _ c2) as [r2 d2].
  cbn [fst snd] in *. subst r2.
  destruct r1 as [e|]; [cbn; auto|].
  cbn [fst snd]. cfg_proj.
  destruct (sameLedger_reads d1 d2 Hsame') as (Hfork & Hbal & _).
  unfold balanceOf in Hbal.
  destruct Hsame' as (Hb' & Hh' & Hg' & Hd' & Hf' & Hbalances' & Hnonces').
  split; [reflexivity|]. split; [|exact Ht2].
  unfold sameLedger. cfg_proj.
  rewrite !deref_store.
  rewrite !(decide_True (P := Balances (this d1) = Balances (this d1))) by reflexivity.
  rewrite !(decide_True (P := Balances (this d2) = Balances (this d2))) by reflexivity.
  rewrite !(decide_False (P := Balances (this d1) = Account2Nonce (this d1)))
    by (rewrite Ht1; exact H1).
  rewrite !(decide_False (P := Balances (this d2) = Account2Nonce (this d2)))
    by (rewrite Ht2; exact H2).
  rewrite !index_store.
  rewrite !(decide_True (P := _ /\ _)) by (split; reflexivity).
  rewrite Hfork, Hbal, Hbalances', Hnonces'. auto 10.
Qed.

(** ** Success of AddBlock *)

Lemma AddBlock_success_inv {E : External} (b : Block) (c c' : Cfg) (h : Hash) :
  AddBlock b c = ((h, None), c') ->
  let pending := fst (Copy c) in
  let c1 := snd (Copy c) in
  exists b' c2 blockFsJson path n,
    applyBlock b {| this := pending; world := world c1 |} = ((None, b'), c2) /\
    Block_Hash b' = inr h /\
    json_Marshal {| Key := h; Value := b' |} = inr blockFsJson /\
    dbFile (this c) = Some path /\
    os_Write (default [] (files (world c) !! path)) (blockFsJson ++ [newline])
      = (n, None) /\
    this c' = {| Balances := Balances pending;
                 Account2Nonce := Account2Nonce pending;
                 dbFile := dbFile (this c);
                 latestBlock := b';
                 latestBlockHash := h;
                 hasGenesisBlock := true;
                 miningDifficulty := miningDifficulty (this c);
                 forkTIP1 := forkTIP1 (this c) |} /\
    heap (world c') = heap (world c2) /\
    files (world c') =
      <[path := default [] (files (world c) !! path)
                ++ take n (blockFsJson ++ [newline])]> (files (world c)).
Proof.
  cbn zeta. unfold AddBlock, mbind, M_bind.
  destruct (Copy_spec c) as (Hs1 & Hf1 & _ & _ & _ & _ & _ & _ & _ & _ & Hdiff & _).
  destruct (Copy c) as [pending c1]. cbn [fst snd] in *.
  unfold on.
  pose proof (applyBlock_frame b {| this := pending; world := world c1 |}) as Hframe.
  destruct (applyBlock b _) as [[err b'] c2].
  destruct Hframe as (Ht2 & Hf2 & _). cbn [snd this world] in Ht2, Hf2.
  destruct err as [e0|]; [unfold mret, M_ret; discriminate|].
  destruct (Block_Hash b') as [msg|blockHash] eqn:Hhash;
    [unfold mret, M_ret; discriminate|].
  destruct (json_Marshal _) as [msg|blockFsJson] eqn:Hjson;
    [unfold mret, M_ret; discriminate|].
  unfold field, File_Write. cfg_proj.
  destruct (dbFile (this c1)) as [path|] eqn:Hdb;
    [|unfold mret, M_ret; discriminate].
  destruct (os_Write _ _) as [n [msg|]] eqn:Hwrite; cbn [fmap option_fmap option_map];
    [unfold mret, M_ret; discriminate|].
  unfold assign, mret, M_ret. cfg_proj.
  intros Heq. apply pair_equal_spec in Heq as [Hres <-].
  injection Hres as <-. cfg_proj. cbn [heap files].
  exists b', c2, blockFsJson, path, n.
  rewrite Ht2, Hdiff. rewrite <- Hs1, <- Hf1, <- Hf2, Hdb.
  repeat split; reflexivity || assumption.
Qed.

(** [AddBlock] that succeeds commits the block with its transactions in
    sorted order: the hash it returns and stores is the hash of that block,
    the next block number is the number of the block plus 1, the difficulty,
    the fork threshold and the file are kept, and, the write having taken all
    the bytes, the log has grown by the record of the block and a newline.
    The maps that existed before the call still hold what they held: the
    live state points to new tables. *)
Theorem AddBlock_commit {E : External} (b : Block) (c c' : Cfg) (h : Hash) :
  WriteContract E ->
  AddBlock b c = ((h, None), c') ->
  let sorted := withTXs b (sort_Slice SignedTx txLess (TXs b)) in
  Block_Hash sorted = inr h /\
  latestBlock (this c') = sorted /\
  latestBlockHash (this c') = h /\
  hasGenesisBlock (this c') = true /\
  nextBlockNumber c' = wrap (hd_Number (Header b) + 1) /\
  miningDifficulty (this c') = miningDifficulty (this c) /\
  forkTIP1 (this c') = forkTIP1 (this c) /\
  dbFile (this c') = dbFile (this c) /\
  (exists path blockFsJson,
     dbFile (this c) = Some path /\
     json_Marshal {| Key := h; Value := sorted |} = inr blockFsJson /\
     files (world c') =
       <[path := default [] (files (world c) !! path) ++ blockFsJson ++ [newline]]>
         (files (world c))) /\
  (forall l, l ∈ dom (heap (world c)) ->
     heap (world c') !! l = heap (world c) !! l).
Proof.
  intros Hwrite Hadd sorted.
  destruct (AddBlock_success_inv b c c' h Hadd)
    as (b' & c2 & blockFsJson & path & n & Happly & Hhash & Hjson & Hdb & Hos
        & Hthis & Hheap & Hfiles).
  destruct (applyBlock_success_block _ _ _ _ Happly) as (Hb' & _ & _).
  cbn [this TXs] in Hb'. fold sorted in Hb'. subst b'.
  rewrite Hthis. cbn [latestBlock latestBlockHash hasGenesisBlock miningDifficulty
                      forkTIP1 dbFile].
  repeat (split; [reflexivity || assumption|]).
  split.
  { rewrite nextBlockNumber_eq, Hthis. reflexivity. }
  repeat (split; [reflexivity|]).
  split.
  - exists path, blockFsJson. split; [exact Hdb|]. split; [exact Hjson|].
    rewrite Hfiles. rewrite (Hwrite _ _ _ Hos).
    rewrite firstn_all. reflexivity.
  - intros l Hl. rewrite Hheap.
    destruct (Copy_spec c) as (_ & _ & Hb & Hn & _ & Hh1 & _).
    pose proof (applyBlock_frame b {| this := fst (Copy c); world := world (snd (Copy c)) |})
      as (_ & _ & Hh2).
    rewrite Happly in Hh2. cbn [snd this world] in Hh2.
    rewrite Hh2, Hh1; [reflexivity| | | |]; intros ->; contradiction.
Qed.

Lemma AddBlock_commit_witness :
  let blk := blockOf 4 0%N carol [transfer alice bob 50 2 20 0 0;
                                  transfer alice bob 100 1 10 0 0] in
  let c' := snd (AddBlock (E := stableNode) blk (ledger 35)) in
  TXs (latestBlock (this c')) = [transfer alice bob 100 1 10 0 0;
                                 transfer alice bob 50 2 20 0 0] /\
  nextBlockNumber c' = 5.
Proof.
  intros blk c'.
  destruct (AddBlock_commit (E := stableNode) blk (ledger 35) c' 4002%N)
    as (_ & Hlatest & _ & _ & Hnext & _).
  - intros old data n. cbn [os_Write stableNode toyExternal]. unfold boundedWrite.
    destruct (_ <=? _)%nat; intros [= <-]. reflexivity.
  - vm_compute. reflexivity.
  - split; [rewrite Hlatest; reflexivity | rewrite Hnext; reflexivity].
Defined.

Lemma AddBlock_applyBlock_error {E : External} (b : Block) (c : Cfg) (e : Error) :
  fst (fst (applyBlock b {| this := fst (Copy c); world := world (snd (Copy c)) |}))
    = Some e ->
  fst (AddBlock b c) = (Hash_zero, Some e).
Proof.
  unfold AddBlock, mbind, M_bind.
  destruct (Copy c) as [pending c1]. cbn [fst snd]. unfold on.
  destruct (applyBlock b _) as [[err b'] c2]. cbn [fst].
  intros ->. reflexivity.
Qed.

Lemma Copy_sameLedger (c : Cfg) :
  Balances (this c) ∈ dom (heap (world c)) ->
  Account2Nonce (this c) ∈ dom (heap (world c)) ->
  sameLedger c {| this := fst (Copy c); world := world (snd (Copy c)) |} /\
  Balances (fst (Copy c)) <> Account2Nonce (fst (Copy c)).
Proof.
  intros Hbal Hnon.
  destruct (Copy_spec c) as (_ & _ & _ & _ & Hdistinct & _ & _ & Hb & Hh & Hg & Hd & Hf).
  destruct (Copy_contents c Hbal Hnon) as [Hbalances Hnonces].
  split; [|exact Hdistinct].
  unfold sameLedger. cfg_proj. rewrite Hb, Hh, Hg, Hd, Hf, Hbalances, Hnonces.
  auto 10.
Qed.

(** What [AddBlock] commits is what [applyBlock] computes: on a state whose
    tables are two distinct maps of the heap, [AddBlock] succeeds only if
    [applyBlock] succeeds on the live state, and then every balance and nonce
    of the new live state is the one [applyBlock] would have left had it been
    run on the live state itself; if [applyBlock] fails on the live state,
    [AddBlock] fails with the same error. *)
Theorem AddBlock_commits_applyBlock {E : External} (b : Block) (c : Cfg) :
  Balances (this c) ∈ dom (heap (world c)) ->
  Account2Nonce (this c) ∈ dom (heap (world c)) ->
  Balances (this c) <> Account2Nonce (this c) ->
  (forall h c', AddBlock b c = ((h, None), c') ->
     fst (fst (applyBlock b c)) = None /\
     forall account,
       balanceOf c' account = balanceOf (snd (applyBlock b c)) account /\
       nonceOf c' account = nonceOf (snd (applyBlock b c)) account) /\
  (forall e, fst (fst (applyBlock b c)) = Some e ->
     fst (AddBlock b c) = (Hash_zero, Some e)).
Proof.
  intros Hbal Hnon Hdistinct.
  destruct (Copy_sameLedger c Hbal Hnon) as [Hsame Hdistinct'].
  destruct (applyBlock_same b c _ Hsame Hdistinct Hdistinct') as (Hres & Hsame' & Hthis').
  split.
  - intros h c' Hadd.
    destruct (AddBlock_success_inv b c c' h Hadd)
      as (b' & c2 & _ & _ & _ & Happly & _ & _ & _ & _ & Hthis & Hheap & _).
    rewrite Happly in Hres, Hsame', Hthis'. cbn [fst snd this] in *.
    split; [rewrite Hres; reflexivity|].
    destruct (sameLedger_reads _ _ Hsame') as (_ & Hbalances & Hnonces).
    intros account. rewrite Hbalances, Hnonces.
    unfold balanceOf, nonceOf. rewrite Hthis, Hheap, Hthis'. split; reflexivity.
  - intros e He. apply AddBlock_applyBlock_error. rewrite <- Hres. exact He.
Qed.

Lemma AddBlock_commits_applyBlock_witness :
  let blk := blockOf 0 0%N carol [transfer alice bob 100 1 10 0 0] in
  balanceOf (snd (AddBlock (E := stableNode) blk (ledger 35))) alice =
  balanceOf (snd (applyBlock (E := stableNode) blk (ledger 35))) alice.
Proof.
  intros blk.
  destruct (AddBlock_commits_applyBlock (E := stableNode) blk (ledger 35)) as [H _].
  - apply elem_of_dom. eexists. reflexivity.
  - apply elem_of_dom. eexists. reflexivity.
  - discriminate.
  - apply (H 2%N (snd (AddBlock (E := stableNode) blk (ledger 35)))).
    vm_compute. reflexivity.
Defined.

(** ** AddBlocks *)

Lemma AddBlocks_app {E : External} (pre rest : list Block) (c c1 : Cfg) :
  AddBlocks pre c = (None, c1) ->
  AddBlocks (pre ++ rest) c = AddBlocks rest c1.
Proof.
  revert c. induction pre as [|b pre IH]; intros c.
  - cbn [AddBlocks app]. unfold mret, M_ret. intros Heq.
    apply pair_equal_spec in Heq as [_ <-]. reflexivity.
  - cbn [AddBlocks app]. unfold mbind, M_bind.
    destruct (AddBlock b c) as [[h [e|]] c2]; [discriminate|]. apply IH.
Qed.

(** [AddBlocks] adds the blocks in order and stops at the first that is
    refused: it returns the error of that block and the configuration that
    block's [AddBlock] left, so the blocks before it stay committed and the
    blocks after it are not looked at. A list that is accepted in full is
    added as its two halves in sequence. *)
Theorem AddBlocks_stops_at_first_failure {E : External}
    (pre rest : list Block) (c c1 : Cfg) :
  AddBlocks pre c = (None, c1) ->
  AddBlocks (pre ++ rest) c = AddBlocks rest c1 /\
  forall b h e c2,
    AddBlock b c1 = ((h, Some e), c2) ->
    AddBlocks (pre ++ b :: rest) c = (Some e, c2).
Proof.
  intros Hpre. split; [apply AddBlocks_app; exact Hpre|].
  intros b h e c2 Hfail. rewrite (AddBlocks_app pre (b :: rest) c c1 Hpre).
  cbn [AddBlocks]. unfold mbind, M_bind. rewrite Hfail. reflexivity.
Qed.

(** Three blocks of which the second bears the number of the first: the
    error is that of the second, and the configuration is the one its
    [AddBlock] left, with the first block committed. *)
Lemma AddBlocks_stops_at_first_failure_witness :
  AddBlocks (E := stableNode)
    ([blockOf 0 0%N carol [transfer alice bob 100 1 10 0 0]]
     ++ blockOf 0 0%N carol [transfer alice bob 100 1 10 0 0]
     :: [blockOf 2 0%N carol []])
    (ledger 35)
  = (Some (ErrBlockNumber 1 0),
     snd (AddBlock (E := stableNode)
            (blockOf 0 0%N carol [transfer alice bob 100 1 10 0 0])
            (snd (AddBlocks (E := stableNode)
                    [blockOf 0 0%N carol [transfer alice bob 100 1 10 0 0]]
                    (ledger 35))))).
Proof.
  refine (proj2 (AddBlocks_stops_at_first_failure (E := stableNode) _ _ _ _ _)
                _ Hash_zero _ _ _).
  - vm_compute. reflexivity.
  - vm_compute. reflexivity.
Defined.

(** ** Replay of the blocks that were added *)

Lemma sameLedger_sym (c1 c2 : Cfg) : sameLedger c1 c2 -> sameLedger c2 c1.
Proof. unfold sameLedger. intros (? & ? & ? & ? & ? & ? & ?). auto 10. Qed.

Lemma sameLedger_trans (c1 c2 c3 : Cfg) :
  sameLedger c1 c2 -> sameLedger c2 c3 -> sameLedger c1 c3.
Proof.
  unfold sameLedger.
  intros (? & ? & ? & ? & ? & ? & ?) (? & ? & ? & ? & ? & ? & ?).
  repeat split; congruence.
Qed.

Lemma store_dom (l l' : loc) (k : Address) (v : Z) (w : World) :
  l' ∈ dom (heap w) -> l' ∈ dom (heap (store l k v w)).
Proof.
  unfold store. cbn [heap]. rewrite dom_insert_L. intros H.
  apply elem_of_union. right. exact H.
Qed.

Lemma store_dom_self (l : loc) (k : Address) (v : Z) (w : World) :
  l ∈ dom (heap (store l k v w)).
Proof.
  unfold store. cbn [heap]. rewrite dom_insert_L.
  apply elem_of_union. left. apply elem_of_singleton. reflexivity.
Qed.

Lemma ApplyTx_dom {E : External} (tx : SignedTx) (c : Cfg) (l : loc) :
  l ∈ dom (heap (world c)) -> l ∈ dom (heap (world (snd (ApplyTx tx c)))).
Proof.
  intros Hl. rewrite ApplyTx_run.
  destruct (fst (ValidateTx tx c)); [exact Hl|].
  cbn zeta. cbn [snd]. cfg_proj. repeat apply store_dom. exact Hl.
Qed.

Lemma applyEach_dom {E : External} (txs : list SignedTx) (c : Cfg) (l : loc) :
  l ∈ dom (heap (world c)) -> l ∈ dom (heap (world (snd (applyEach txs c)))).
Proof.
  revert c. induction txs as [|tx rest IH]; intros c Hl; [exact Hl|].
  cbn [applyEach]. unfold mbind, M_bind.
  pose proof (ApplyTx_dom tx c l Hl) as Hfirst.
  destruct (ApplyTx tx c) as [[e|] c1]; cbn [snd] in *; [exact Hfirst|].
  apply IH. exact Hfirst.
Qed.

Lemma applyBlock_dom {E : External} (b : Block) (c : Cfg) (l : loc) :
  l ∈ dom (heap (world c)) -> l ∈ dom (heap (world (snd (applyBlock b c)))).
Proof.
  intros Hl. rewrite applyBlock_run. cbn zeta.
  destruct (hasGenesisBlock (this c) && negb _); [exact Hl|].
  destruct (hasGenesisBlock (this c) && _ && negb _); [exact Hl|].
  destruct (Block_Hash b) as [msg|hash]; [exact Hl|].
  destruct (negb (IsBlockHashValid _ _)); [exact Hl|].
  pose proof (applyEach_dom (sort_Slice SignedTx txLess (TXs b)) c l Hl) as Htxs.
  destruct (applyEach _ c) as [[e|] c1]; cbn [fst snd] in *; [exact Htxs|].
  cfg_proj. repeat apply store_dom. exact Htxs.
Qed.

Lemma copyEntries_dom (src dst : loc) (c : Cfg) (l : loc) :
  l ∈ dom (heap (world c)) ->
  l ∈ dom (heap (world (snd (copyEntries src dst c)))).
Proof.
  intros Hl. unfold copyEntries. cbn [snd]. cfg_proj.
  apply (map_fold_weak_ind
           (fun w (_ : gmap Address Z) => l ∈ dom (heap w))).
  - exact Hl.
  - intros k v m w _ Hw. apply store_dom. exact Hw.
Qed.

Lemma Copy_dom (c : Cfg) :
  Balances (fst (Copy c)) ∈ dom (heap (world (snd (Copy c)))) /\
  Account2Nonce (fst (Copy c)) ∈ dom (heap (world (snd (Copy c)))).
Proof.
  unfold Copy, mbind, M_bind, mret, M_ret, field, make.
  cbn [this world heap files].
  set (h := heap (world c)).
  set (l1 := fresh (dom h)).
  set (l2 := fresh (dom (<[l1:=∅]> h))).
  set (c2 := {| this := this c;
                world := {| heap := <[l2:=∅]> (<[l1:=∅]> h);
                            files := files (world c) |} |}).
  assert (H1 : l1 ∈ dom (heap (world c2))).
  { subst c2. cbn [world heap]. rewrite !dom_insert_L.
    apply elem_of_union. right. apply elem_of_union. left.
    apply elem_of_singleton. reflexivity. }
  assert (H2 : l2 ∈ dom (heap (world c2))).
  { subst c2. cbn [world heap]. rewrite !dom_insert_L.
    apply elem_of_union. left. apply elem_of_singleton. reflexivity. }
  pose proof (copyEntries_dom (Balances (this c)) l1 c2 l1 H1) as H13.
  pose proof (copyEntries_dom (Balances (this c)) l1 c2 l2 H2) as H23.
  destruct (copyEntries (Balances (this c)) l1 c2) as [[] c3]. cbn [snd] in *.
  pose proof (copyEntries_dom (Account2Nonce (this c)) l2 c3 l1 H13) as H14.
  pose proof (copyEntries_dom (Account2Nonce (this c)) l2 c3 l2 H23) as H24.
  destruct (copyEntries (Account2Nonce (this c)) l2 c3) as [[] c4].
  cbn [fst snd Balances Account2Nonce] in *. split; assumption.
Qed.

Lemma AddBlock_ledger_ok {E : External} (b : Block) (c c' : Cfg) (h : Hash) :
  AddBlock b c = ((h, None), c') -> ledger_ok c'.
Proof.
  intros Hadd.
  destruct (AddBlock_success_inv b c c' h Hadd)
    as (b' & c2 & _ & _ & _ & Happly & _ & _ & _ & _ & Hthis & Hheap & _).
  destruct (Copy_dom c) as [H1 H2].
  destruct (Copy_spec c) as (_ & _ & _ & _ & Hdistinct & _).
  pose proof (applyBlock_dom b {| this := fst (Copy c); world := world (snd (Copy c)) |})
    as Hdom.
  rewrite Happly in Hdom. cbn [snd world] in Hdom.
  unfold ledger_ok. rewrite Hthis, Hheap. cbn [Balances Account2Nonce].
  split; [apply Hdom; exact H1|]. split; [apply Hdom; exact H2 | exact Hdistinct].
Qed.

Lemma applyBlock_of_sorted {E : External} (b : Block) (c : Cfg) (h : Hash) :
  fst (fst (applyBlock b c)) = None ->
  sort_Slice SignedTx txLess (TXs (sortedBlock b)) = TXs (sortedBlock b) ->
  Block_Hash (sortedBlock b) = inr h ->
  IsBlockHashValid h (miningDifficulty (this c)) = true ->
  applyBlock (sortedBlock b) c = ((None, sortedBlock b), snd (applyBlock b c)).
Proof.
  intros Hok Hsorted Hhash Hvalid. revert Hok.
  rewrite !applyBlock_run. cbn zeta.
  change (Header (sortedBlock b)) with (Header b).
  destruct (hasGenesisBlock (this c) && negb _); [discriminate|].
  destruct (hasGenesisBlock (this c) && _ && negb _); [discriminate|].
  rewrite Hhash, Hvalid. cbn [negb]. rewrite Hsorted.
  destruct (Block_Hash b) as [msg|hash]; [discriminate|].
  destruct (negb (IsBlockHashValid hash _)); [discriminate|].
  change (TXs (sortedBlock b)) with (sort_Slice SignedTx txLess (TXs b)).
  destruct (fst (applyEach _ c)); [discriminate|].
  intros _. reflexivity.
Qed.

Lemma replay_added_block {E : External} (b : Block) (token : list byte * option string)
    (c1 c2 c1' : Cfg) (h : Hash) :
  ledger_ok c1 -> ledger_ok c2 -> sameLedger c1 c2 ->
  AddBlock b c1 = ((h, None), c1') ->
  sort_Slice SignedTx txLess (TXs (sortedBlock b)) = TXs (sortedBlock b) ->
  IsBlockHashValid h (miningDifficulty (this c1)) = true ->
  logged b token ->
  exists c2',
    (forall rest, replay (token :: rest) c2 = replay rest c2') /\
    sameLedger c1' c2' /\
    ledger_ok c2'.
Proof.
  intros (Hb1 & Hn1 & Hd1) (Hb2 & Hn2 & Hd2) Hsame Hadd Hsorted Hvalid
         (h0 & Hhash0 & _ & Hdecode & Hnonempty & Hscan).
  destruct (AddBlock_success_inv b c1 c1' h Hadd)
    as (b' & cx & _ & _ & _ & Happly & Hhash & _ & _ & _ & Hthis & Hheap & _).
  destruct (applyBlock_success_block _ _ _ _ Happly) as (Hb' & Hthisx & _).
  cbn [this TXs] in Hb', Hthisx. fold (sortedBlock b) in Hb'. subst b'.
  assert (h0 = h) as -> by congruence.
  destruct (Copy_sameLedger c1 Hb1 Hn1) as [Hcopy Hdp].
  assert (Hpc : sameLedger {| this := fst (Copy c1); world := world (snd (Copy c1)) |} c2).
  { eapply sameLedger_trans; [apply sameLedger_sym; exact Hcopy | exact Hsame]. }
  destruct (applyBlock_same b _ c2 Hpc Hdp Hd2) as (Hres & Hsame' & Hthisy).
  rewrite Happly in Hres, Hsame'. cbn [fst snd] in Hres, Hsame'.
  assert (Hdiff : miningDifficulty (this c1) = miningDifficulty (this c2)).
  { destruct Hsame as (_ & _ & _ & Hd & _). exact Hd. }
  assert (Hok2 : fst (fst (applyBlock b c2)) = None) by (rewrite <- Hres; reflexivity).
  rewrite Hdiff in Hvalid.
  pose proof (applyBlock_of_sorted b c2 h Hok2 Hsorted Hhash Hvalid) as Hreplayed.
  set (cy := snd (applyBlock b c2)) in *.
  exists {| this := {| Balances := Balances (this cy);
                       Account2Nonce := Account2Nonce (this cy);
                       dbFile := dbFile (this cy);
                       latestBlock := sortedBlock b;
                       latestBlockHash := h;
                       hasGenesisBlock := true;
                       miningDifficulty := miningDifficulty (this cy);
                       forkTIP1 := forkTIP1 (this cy) |};
            world := world cy |}.
  split; [|split].
  - intros rest. destruct token as [blockFsJson scanErr]. cbn [fst snd] in *.
    subst scanErr. cbn [replay].
    destruct blockFsJson as [|byte0 bytes]; [congruence|]. cbn [length Nat.eqb].
    rewrite Hdecode. unfold mbind, M_bind. cbn [Value Key].
    rewrite Hreplayed. reflexivity.
  - destruct Hsame' as (_ & _ & _ & _ & _ & Hbalances & Hnonces).
    destruct Hsame as (_ & _ & _ & _ & Hfork & _).
    unfold sameLedger. cfg_proj. rewrite Hthis, Hheap.
    cbn [latestBlock latestBlockHash hasGenesisBlock miningDifficulty forkTIP1
         Balances Account2Nonce].
    rewrite Hthisx in Hbalances, Hnonces. rewrite Hthisy in Hbalances, Hnonces.
    rewrite Hthisy.
    repeat split; assumption || reflexivity.
  - unfold ledger_ok. cfg_proj. cbn [Balances Account2Nonce]. rewrite Hthisy.
    split; [apply applyBlock_dom; exact Hb2|].
    split; [apply applyBlock_dom; exact Hn2 | exact Hd2].
Qed.

Lemma in_time_order_NoDup (txs : list SignedTx) :
  StronglySorted (fun tx tx' => tx_Time tx < tx_Time tx') txs ->
  List.NoDup (map tx_Time txs).
Proof.
  induction 1 as [|x rest Hrest IH Hx]; cbn [map]; constructor; [|exact IH].
  intros Hin. apply in_map_iff in Hin as (y & Heq & Hy).
  rewrite List.Forall_forall in Hx. specialize (Hx y Hy). lia.
Qed.

(** A block whose transactions are in time order is left as it is by the
    sort, whichever sort keeps the contract. *)
Lemma sortedBlock_in_time_order {E : External} (b : Block) :
  SliceContract E -> inTimeOrder b -> sortedBlock b = b.
Proof.
  intros Hsort Horder. destruct (Hsort (TXs b)) as [Hperm Hsorted].
  assert (Heq : TXs b = sort_Slice SignedTx txLess (TXs b)).
  { apply strictly_sorted_unique; [exact Horder| |exact Hperm].
    apply ByTime_strict; [apply sorted_ByTime; exact Hsorted|].
    eapply Permutation_NoDup; [apply Permutation_map; exact Hperm|].
    apply in_time_order_NoDup. exact Horder. }
  unfold sortedBlock, withTXs. rewrite <- Heq. destruct b; reflexivity.
Qed.

Lemma replay_in_time_order {E : External} (blocks : list Block)
    (tokens : list (list byte * option string)) (c1 c2 c1' : Cfg) :
  SliceContract E ->
  ledger_ok c1 -> ledger_ok c2 -> sameLedger c1 c2 ->
  AddBlocks blocks c1 = (None, c1') ->
  List.Forall inTimeOrder blocks ->
  List.Forall2 logged blocks tokens ->
  fst (replay tokens c2) = None /\
  sameLedger c1' (snd (replay tokens c2)).
Proof.
  intros Hsort Hok1 Hok2 Hsame Hadd Horder Hrec.
  revert c1 c2 Hok1 Hok2 Hsame Hadd Horder Hrec.
  revert tokens. induction blocks as [|b blocks IH];
    intros tokens c1 c2 Hok1 Hok2 Hsame Hadd Horder Hrec.
  - inversion Hrec; subst. cbn [AddBlocks] in Hadd. unfold mret, M_ret in Hadd.
    apply pair_equal_spec in Hadd as [_ <-]. cbn. split; [reflexivity | exact Hsame].
  - inversion Hrec as [|? token ? rest Hfirst Hrest]; subst.
    inversion Horder as [|? ? Hb Hblocks]; subst.
    cbn [AddBlocks] in Hadd. unfold mbind, M_bind in Hadd.
    destruct (AddBlock b c1) as [[h [e|]] d1] eqn:Hblock; [discriminate|].
    pose proof (sortedBlock_in_time_order b Hsort Hb) as Hsame_block.
    assert (Hvalid : IsBlockHashValid h (miningDifficulty (this c1)) = true).
    { destruct (AddBlock_success_inv b c1 d1 h Hblock)
        as (b' & cx & _ & _ & _ & Happly & Hhash & _).
      destruct (applyBlock_success_block _ _ _ _ Happly)
        as (Hb' & _ & hash & Hchecked & Hpow).
      cbn [this TXs] in Hb', Hpow. fold (sortedBlock b) in Hb'. subst b'.
      rewrite Hsame_block in Hhash.
      assert (hash = h) as -> by congruence.
      destruct (Copy_spec c1) as (_ & _ & _ & _ & _ & _ & _ & _ & _ & _ & Hdiff & _).
      cbn zeta in Hdiff. rewrite <- Hdiff. exact Hpow. }
    assert (Hsorted : sort_Slice SignedTx txLess (TXs (sortedBlock b))
                      = TXs (sortedBlock b)).
    { rewrite Hsame_block.
      change (sort_Slice SignedTx txLess (TXs b)) with (TXs (sortedBlock b)).
      rewrite Hsame_block. reflexivity. }
    destruct (replay_added_block b token c1 c2 d1 h Hok1 Hok2 Hsame Hblock
                Hsorted Hvalid Hfirst) as (d2 & Hstep & Hsame' & Hok2').
    rewrite Hstep.
    apply (IH rest d1 d2); try assumption.
    eapply AddBlock_ledger_ok. exact Hblock.
Qed.

Lemma applyBlock_success_header {E : External} (b : Block) (c : Cfg) :
  fst (fst (applyBlock b c)) = None ->
  hasGenesisBlock (this c)
  && negb (hd_Number (Header b)
           =? wrap (hd_Number (Header (latestBlock (this c))) + 1)) = false /\
  hasGenesisBlock (this c)
  && (0 <? hd_Number (Header (latestBlock (this c))))
  && negb (bool_decide (hd_Parent (Header b) = latestBlockHash (this c))) = false.
Proof.
  rewrite applyBlock_run. cbn zeta.
  destruct (hasGenesisBlock (this c) && negb _); [discriminate|].
  destruct (hasGenesisBlock (this c) && _ && negb _); [discriminate|].
  intros _. split; reflexivity.
Qed.

(** The hash [AddBlock] stores is that of the block after the sort, the
    hash [applyBlock] checked that of the block before it: replay refuses
    the record of an accepted block whose stored hash fails the
    proof-of-work check. *)
Lemma replay_unchecked_hash {E : External} (b : Block)
    (token : list byte * option string) (rest : list (list byte * option string))
    (c1 c2 c1' : Cfg) (h : Hash) :
  ledger_ok c1 -> ledger_ok c2 -> sameLedger c1 c2 ->
  AddBlock b c1 = ((h, None), c1') ->
  logged b token ->
  IsBlockHashValid h (miningDifficulty (this c1)) = false ->
  replay (token :: rest) c2 = (Some (ErrInvalidHash h), c2).
Proof.
  intros (Hb1 & Hn1 & Hd1) (Hb2 & Hn2 & Hd2) Hsame Hadd
         (h0 & Hhash0 & _ & Hdecode & Hnonempty & Hscan) Hinvalid.
  destruct (AddBlock_success_inv b c1 c1' h Hadd)
    as (b' & cx & _ & _ & _ & Happly & Hhash & _).
  destruct (applyBlock_success_block _ _ _ _ Happly) as (Hb' & _ & _).
  cbn [this TXs] in Hb'. fold (sortedBlock b) in Hb'. subst b'.
  assert (h0 = h) as -> by congruence.
  destruct (Copy_sameLedger c1 Hb1 Hn1) as [Hcopy Hdp].
  assert (Hpc : sameLedger {| this := fst (Copy c1); world := world (snd (Copy c1)) |} c2).
  { eapply sameLedger_trans; [apply sameLedger_sym; exact Hcopy | exact Hsame]. }
  destruct (applyBlock_same b _ c2 Hpc Hdp Hd2) as (Hres & _ & _).
  rewrite Happly in Hres. cbn [fst] in Hres.
  assert (Hok2 : fst (fst (applyBlock b c2)) = None) by (rewrite <- Hres; reflexivity).
  destruct (applyBlock_success_header b c2 Hok2) as [Hnum Hpar].
  assert (Hdiff : miningDifficulty (this c1) = miningDifficulty (this c2)).
  { destruct Hsame as (_ & _ & _ & Hd & _). exact Hd. }
  rewrite Hdiff in Hinvalid.
  assert (Hrefused : applyBlock (sortedBlock b) c2
                     = ((Some (ErrInvalidHash h), sortedBlock b), c2)).
  { rewrite applyBlock_run. cbn zeta.
    change (Header (sortedBlock b)) with (Header b).
    rewrite Hnum, Hpar, Hhash, Hinvalid. reflexivity. }
  destruct token as [blockFsJson scanErr]. cbn [fst snd] in *.
  subst scanErr. cbn [replay].
  destruct blockFsJson as [|byte0 bytes]; [congruence|]. cbn [length Nat.eqb].
  rewrite Hdecode. unfold mbind, M_bind. cbn [Value Key].
  rewrite Hrefused. reflexivity.
Qed.

(** Replaying the records of the blocks that [AddBlocks] accepted rebuilds
    the ledger it built, when the blocks came with their transactions in
    time order. From two configurations that hold the same ledger, under the
    contract of [sort.Slice], the replay of the records [AddBlocks] wrote
    succeeds and ends in the ledger [AddBlocks] ended in: the same balances
    and nonces, the same latest block and hash. Without the time order the
    round trip can fail: [applyBlock] checks the hash the block has before
    the sort and [AddBlock] stores the hash it has after it, and the record
    of an accepted block whose stored hash fails the proof-of-work check is
    refused by the replay, which stops there with the state as it was. *)
Theorem replay_rebuilds_added_blocks {E : External} (c1 c2 : Cfg) :
  SliceContract E ->
  ledger_ok c1 -> ledger_ok c2 -> sameLedger c1 c2 ->
  (forall blocks tokens c1',
     AddBlocks blocks c1 = (None, c1') ->
     List.Forall inTimeOrder blocks ->
     List.Forall2 logged blocks tokens ->
     fst (replay tokens c2) = None /\
     sameLedger c1' (snd (replay tokens c2))) /\
  (forall b token rest h c1',
     AddBlock b c1 = ((h, None), c1') ->
     logged b token ->
     IsBlockHashValid h (miningDifficulty (this c1)) = false ->
     replay (token :: rest) c2 = (Some (ErrInvalidHash h), c2)).
Proof.
  intros Hsort Hok1 Hok2 Hsame. split.
  - intros blocks tokens c1' Hadd Horder Hrec.
    exact (replay_in_time_order blocks tokens c1 c2 c1' Hsort Hok1 Hok2 Hsame
             Hadd Horder Hrec).
  - intros b token rest h c1' Hadd Hlogged Hinvalid.
    exact (replay_unchecked_hash b token rest c1 c2 c1' h Hok1 Hok2 Hsame
             Hadd Hlogged Hinvalid).
Qed.

Lemma sameLedger_refl (c : Cfg) : sameLedger c c.
Proof. unfold sameLedger. auto 10. Qed.

Lemma recordingNode_contract : SliceContract recordingNode.
Proof.
  intros txs. cbn [sort_Slice recordingNode]. split.
  - apply insertionSort_perm.
  - apply insertionSort_sorted.
Qed.

(** At difficulty 1 a miner adds two blocks whose transactions are in time
    order, the first with two transfers of [alice], the second with one of
    [bob]: the replay of the two lines of the log ends in the same ledger.
    A block that lists the transfer stamped 20 before the one stamped 10 is
    accepted, the hash 2 of that order passing the check, and is logged
    under the hash 1 of the sorted order, which has no zero bit at its end:
    the replay of its line is refused. *)
Lemma replay_rebuilds_added_blocks_witness :
  let start := snd (ChangeMiningDifficulty 1 (ledger 35)) in
  let logOf (c : Cfg) :=
    bufio_Scan (External := recordingNode)
               (default [] (files (world c) !! "block.db"%string)) in
  let blocks :=
    [mined 1 (blockOf 0 0%N carol [transfer alice bob 100 1 10 0 0;
                                   transfer alice bob 50 2 20 0 0]);
     mined 1 (blockOf 1 0%N carol [transfer bob alice 10 1 30 0 0])] in
  let swapped := blockOf 0 0%N carol [transfer alice bob 50 2 20 0 0;
                                      transfer alice bob 100 1 10 0 0] in
  let added := snd (AddBlocks (E := recordingNode) blocks start) in
  let once := snd (AddBlock (E := recordingNode) swapped start) in
  (length (logOf added) = 2%nat /\
   sameLedger added (snd (replay (E := recordingNode) (logOf added) start))) /\
  (Block_Hash (External := recordingNode) swapped = inr 2%N /\
   fst (AddBlock (E := recordingNode) swapped start) = (1%N, None) /\
   fst (replay (E := recordingNode) (logOf once) start) = Some (ErrInvalidHash 1%N)).
Proof.
  intros start logOf blocks swapped added once.
  assert (Hok : ledger_ok start).
  { split; [|split; [|discriminate]]; apply elem_of_dom; eexists; reflexivity. }
  destruct (replay_rebuilds_added_blocks (E := recordingNode) start start
              recordingNode_contract Hok Hok (sameLedger_refl start)) as [Hround Hfail].
  split.
  - split; [vm_compute; reflexivity|].
    refine (proj2 (Hround blocks (logOf added) added _ _ _)).
    + vm_compute. reflexivity.
    + repeat constructor; cbn; lia.
    + assert (Hlog : exists t0 t1, logOf added = [(t0, None); (t1, None)] /\
                       logged (E := recordingNode) (nth 0 blocks Block_zero) (t0, None) /\
                       logged (E := recordingNode) (nth 1 blocks Block_zero) (t1, None)).
      { eexists _, _. split; [vm_compute; reflexivity|].
        split.
        - exists 2%N. split; [vm_compute; reflexivity|].
          split; [vm_compute; reflexivity|]. split; [vm_compute; reflexivity|].
          split; [discriminate | reflexivity].
        - exists 1002%N. split; [vm_compute; reflexivity|].
          split; [vm_compute; reflexivity|]. split; [vm_compute; reflexivity|].
          split; [discriminate | reflexivity]. }
      destruct Hlog as (t0 & t1 & -> & H0 & H1).
      constructor; [exact H0|]. constructor; [exact H1|]. constructor.
  - split; [reflexivity|]. split; [vm_compute; reflexivity|].
    assert (Hlog : exists t, logOf once = [(t, None)] /\
                     logged (E := recordingNode) swapped (t, None)).
    { eexists. split; [vm_compute; reflexivity|].
      exists 1%N. split; [vm_compute; reflexivity|].
      split; [vm_compute; reflexivity|]. split; [vm_compute; reflexivity|].
      split; [discriminate | reflexivity]. }
    destruct Hlog as (t & -> & Hlogged).
    rewrite (Hfail swapped (t, None) [] 1%N once); [reflexivity| |exact Hlogged|].
    + vm_compute. reflexivity.
    + vm_compute. reflexivity.
Defined.

(** ** The total of the balances *)

Lemma sum_insert_fresh (m : gmap Address Z) (k : Address) (v : Z) :
  m !! k = None ->
  map_fold (fun _ balance sum => balance + sum) 0 (<[k := v]> m) =
  v + map_fold (fun _ balance sum => balance + sum) 0 m.
Proof.
  intros Hk. apply (map_fold_insert_L (fun _ balance sum => balance + sum));
    [intros; lia | exact Hk].
Qed.

Lemma sum_insert (m : gmap Address Z) (k : Address) (v : Z) :
  map_fold (fun _ balance sum => balance + sum) 0 (<[k := v]> m) =
  map_fold (fun _ balance sum => balance + sum) 0 m - default 0 (m !! k) + v.
Proof.
  destruct (m !! k) as [old|] eqn:Hk; cbn [default from_option]; unfold id.
  - assert (H1 : map_fold (fun _ balance sum => balance + sum) 0 (<[k := v]> m) =
                 v + map_fold (fun _ balance sum => balance + sum) 0 (delete k m)).
    { rewrite <- (insert_delete_eq m k v). apply sum_insert_fresh, lookup_delete_eq. }
    assert (H2 : map_fold (fun _ balance sum => balance + sum) 0 m =
                 old + map_fold (fun _ balance sum => balance + sum) 0 (delete k m)).
    { transitivity (map_fold (fun _ balance sum => balance + sum) 0
                             (<[k := old]> (delete k m))).
      - f_equal. symmetry. apply insert_delete_id. exact Hk.
      - apply sum_insert_fresh, lookup_delete_eq. }
    lia.
  - rewrite sum_insert_fresh by exact Hk. lia.
Qed.

Lemma sum_nonneg (m : gmap Address Z) :
  map_Forall (fun _ balance => is_uint balance) m ->
  0 <= map_fold (fun _ balance sum => balance + sum) 0 m.
Proof.
  apply (map_fold_weak_ind
           (fun sum (m0 : gmap Address Z) =>
              map_Forall (fun _ balance => is_uint balance) m0 -> 0 <= sum)).
  - intros _. lia.
  - intros k v m0 sum Hk IH Hall.
    apply map_Forall_insert in Hall as [Hv Hrest]; [|exact Hk].
    specialize (IH Hrest). unfold is_uint in Hv. lia.
Qed.

Lemma lookup_uint (m : gmap Address Z) (k : Address) :
  map_Forall (fun _ balance => is_uint balance) m -> is_uint (default 0 (m !! k)).
Proof.
  intros Hall. destruct (m !! k) as [v|] eqn:Hk; cbn [default from_option]; unfold id.
  - exact (Hall k v Hk).
  - unfold is_uint, uint_size. lia.
Qed.

Lemma sum_bounds_one (m : gmap Address Z) (a : Address) :
  map_Forall (fun _ balance => is_uint balance) m ->
  default 0 (m !! a) <= map_fold (fun _ balance sum => balance + sum) 0 m.
Proof.
  intros Hall.
  assert (Hzero : is_uint 0) by (unfold is_uint, uint_size; lia).
  pose proof (sum_nonneg (<[a := 0]> m) (map_Forall_insert_2 _ _ _ _ Hzero Hall)) as H.
  rewrite sum_insert in H. lia.
Qed.

Lemma sum_bounds_two (m : gmap Address Z) (a b : Address) :
  map_Forall (fun _ balance => is_uint balance) m -> a <> b ->
  default 0 (m !! a) + default 0 (m !! b)
  <= map_fold (fun _ balance sum => balance + sum) 0 m.
Proof.
  intros Hall Hne.
  assert (Hzero : is_uint 0) by (unfold is_uint, uint_size; lia).
  pose proof (map_Forall_insert_2 _ _ a 0 Hzero Hall) as Hall'.
  pose proof (sum_bounds_one (<[a := 0]> m) b Hall') as H.
  rewrite sum_insert, lookup_insert_ne in H by exact Hne. lia.
Qed.

Lemma feeOf_nonneg (fork : bool) (tx : SignedTx) : 0 <= feeOf fork tx.
Proof.
  unfold feeOf, TxFee. destruct fork; [|lia].
  pose proof (wrap_is_uint (tx_Gas tx * tx_GasPrice tx)) as H.
  unfold GasCost, is_uint in *. lia.
Qed.

Lemma Cost_fee (tx : SignedTx) (fork : bool) :
  is_uint (tx_Value tx + feeOf fork tx) ->
  Cost tx fork = tx_Value tx + feeOf fork tx.
Proof.
  intros Hfits. unfold Cost, feeOf in *. destruct fork; apply wrap_uint; exact Hfits.
Qed.

Lemma ApplyTx_supply {E : External} (tx : SignedTx) (c c' : Cfg) :
  tables_ok c ->
  totalSupply c < uint_size ->
  0 <= tx_Value tx ->
  tx_Value tx + feeOf (forkActive c) tx < uint_size ->
  ApplyTx tx c = (None, c') ->
  totalSupply c' = totalSupply c - feeOf (forkActive c) tx /\
  tables_ok c' /\ this c' = this c.
Proof.
  intros Hok Htotal Hvalue Hfits Happly.
  pose proof Hok as [Hdistinct Hall].
  pose proof (feeOf_nonneg (forkActive c) tx) as Hfee.
  assert (Hcost : Cost tx (forkActive c) = tx_Value tx + feeOf (forkActive c) tx).
  { apply Cost_fee. unfold is_uint. lia. }
  assert (Hvalid : fst (ValidateTx tx c) = None).
  { rewrite ApplyTx_run in Happly. destruct (fst (ValidateTx tx c)); [discriminate|].
    reflexivity. }
  destruct (ValidateTx_funds tx c) as [_ Hle]. specialize (Hle Hvalid).
  destruct (ApplyTx_tables tx c Hvalid Hdistinct) as (Hthis & Htable & _).
  rewrite Happly in Hthis, Htable. cbn [snd] in Hthis, Htable.
  set (m := deref (heap (world c)) (Balances (this c))) in *.
  pose proof (lookup_uint m (tx_From tx) Hall) as Hfrom.
  pose proof (lookup_uint m (tx_To tx) Hall) as Hto.
  assert (Hbal : balanceOf c (tx_From tx) = default 0 (m !! tx_From tx)) by reflexivity.
  rewrite Hbal in *.
  set (bal := default 0 (m !! tx_From tx)) in *.
  assert (Hdebit : wrap (bal - Cost tx (forkActive c)) = bal - Cost tx (forkActive c)).
  { apply wrap_uint. unfold is_uint in *. lia. }
  rewrite Hdebit in Htable.
  set (debited := <[tx_From tx := bal - Cost tx (forkActive c)]> m) in *.
  assert (Hcredit : is_uint (default 0 (debited !! tx_To tx) + tx_Value tx)).
  { subst debited. destruct (decide (tx_From tx = tx_To tx)) as [Heq|Hne].
    - rewrite <- Heq, lookup_insert_eq. cbn [default from_option]; unfold id. unfold is_uint in *. lia.
    - rewrite lookup_insert_ne by exact Hne.
      pose proof (sum_bounds_two m (tx_From tx) (tx_To tx) Hall Hne) as Hsum.
      fold bal in Hsum. unfold totalSupply in Htotal. fold m in Htotal.
      unfold is_uint in *. lia. }
  rewrite (wrap_uint _ Hcredit) in Htable.
  split; [|split; [split|exact Hthis]].
  - unfold totalSupply. rewrite Hthis, Htable. fold m.
    rewrite sum_insert. subst debited. rewrite sum_insert. fold bal. lia.
  - rewrite Hthis. exact Hdistinct.
  - rewrite Hthis, Htable. apply map_Forall_insert_2; [exact Hcredit|].
    subst debited. apply map_Forall_insert_2; [|exact Hall].
    unfold is_uint in *. lia.
Qed.

Lemma applyEach_supply {E : External} (txs : list SignedTx) (c c' : Cfg) :
  tables_ok c ->
  totalSupply c < uint_size ->
  (forall tx, In tx txs ->
     0 <= tx_Value tx /\ tx_Value tx + feeOf (forkActive c) tx < uint_size) ->
  applyEach txs c = (None, c') ->
  totalSupply c' = totalSupply c - feesOf (forkActive c) txs /\
  0 <= feesOf (forkActive c) txs /\
  tables_ok c' /\ this c' = this c.
Proof.
  revert c. induction txs as [|tx rest IH]; intros c Hok Htotal Htxs Hrun.
  - cbn [applyEach] in Hrun. unfold mret, M_ret in Hrun.
    apply pair_equal_spec in Hrun as [_ <-]. cbn [feesOf foldr].
    split; [lia|]. split; [lia|]. split; [exact Hok | reflexivity].
  - cbn [applyEach] in Hrun. unfold mbind, M_bind in Hrun.
    destruct (ApplyTx tx c) as [[e|] c1] eqn:Hfirst; [discriminate|].
    destruct (Htxs tx (or_introl eq_refl)) as [Hvalue Hfits].
    destruct (ApplyTx_supply tx c c1 Hok Htotal Hvalue Hfits Hfirst)
      as (Hsupply & Hok1 & Hthis).
    pose proof (feeOf_nonneg (forkActive c) tx) as Hfee.
    pose proof (forkActive_this c c1 Hthis) as Hfork.
    destruct (IH c1 Hok1) as (Hsupply' & Hfees & Hok' & Hthis').
    + lia.
    + intros tx' Hin. rewrite Hfork. apply Htxs. right. exact Hin.
    + exact Hrun.
    + rewrite Hfork in Hsupply', Hfees. cbn [feesOf foldr]. fold (feesOf (forkActive c) rest).
      split; [lia|]. split; [lia|]. split; [exact Hok' | congruence].
Qed.

Lemma GasReward_fees (txs : list SignedTx) (acc : Z) :
  fold_left (fun reward tx => wrap (reward + GasCost tx)) txs (wrap acc) =
  wrap (acc + feesOf true txs).
Proof.
  revert acc. induction txs as [|tx rest IH]; intros acc; cbn [fold_left feesOf foldr].
  - rewrite Z.add_0_r. reflexivity.
  - rewrite wrap_add_l, IH. fold (feesOf true rest). unfold feeOf. f_equal; lia.
Qed.

Lemma feesOf_flat (txs : list SignedTx) :
  feesOf false txs = Z.of_nat (length txs) * TxFee.
Proof.
  induction txs as [|tx rest IH]; cbn [feesOf foldr length]; [reflexivity|].
  fold (feesOf false rest). rewrite IH. unfold feeOf. lia.
Qed.

(** A block applied with success creates the block reward and nothing else:
    on a state whose tables are distinct maps of [uint] balances, when no
    sum wraps (the total of the balances plus the reward fits a [uint], and
    so does the value plus the fee of each transaction), the total of the
    balances after [applyBlock] is the total before plus [BlockReward]. What
    the senders pay above the values they send is what the miner receives
    besides the reward. *)
Theorem applyBlock_mints_block_reward {E : External} (b b' : Block) (c c' : Cfg) :
  SliceContract E ->
  tables_ok c ->
  0 <= BlockReward ->
  totalSupply c + BlockReward < uint_size ->
  (forall tx, In tx (TXs b) ->
     0 <= tx_Value tx /\ tx_Value tx + feeOf (forkActive c) tx < uint_size) ->
  applyBlock b c = ((None, b'), c') ->
  totalSupply c' = totalSupply c + BlockReward.
Proof.
  intros Hsort Hok Hreward Htotal Htxs.
  destruct (Hsort (TXs b)) as [Hperm _].
  rewrite applyBlock_run. cbn zeta.
  destruct (hasGenesisBlock (this c) && negb _); [discriminate|].
  destruct (hasGenesisBlock (this c) && _ && negb _); [discriminate|].
  destruct (Block_Hash b) as [msg|hash]; [discriminate|].
  destruct (negb (IsBlockHashValid _ _)); [discriminate|].
  set (sorted := sort_Slice SignedTx txLess (TXs b)) in *.
  destruct (applyEach sorted c) as [[e|] c1] eqn:Hrun; cbn [fst snd]; [discriminate|].
  destruct (applyEach_supply sorted c c1 Hok) as (Hsupply & Hfees & Hok1 & Hthis);
    [lia | | exact Hrun |].
  { intros tx Hin. apply Htxs. eapply Permutation_in; [symmetry; exact Hperm | exact Hin]. }
  intros Heq. apply pair_equal_spec in Heq as [_ <-].
  rewrite (forkActive_this c c1 Hthis).
  destruct Hok1 as [_ Hall].
  set (balances := Balances (this c1)) in *.
  set (m := deref (heap (world c1)) balances) in *.
  set (miner := hd_Miner (Header b)).
  pose proof (sum_nonneg m Hall) as Hnonneg.
  pose proof (sum_bounds_one m miner Hall) as Hminer.
  pose proof (lookup_uint m miner Hall) as Hm0.
  assert (Htotal1 : map_fold (fun _ balance sum => balance + sum) 0 m
                    = totalSupply c - feesOf (forkActive c) sorted).
  { rewrite <- Hsupply. reflexivity. }
  assert (Hfee : (if forkActive c
                  then GasReward (withTXs b sorted)
                  else wrap (Z.of_nat (length sorted) * TxFee))
                 = feesOf (forkActive c) sorted).
  { destruct (forkActive c).
    - unfold GasReward. cbn [TXs withTXs]. change 0 with (wrap 0) at 1.
      rewrite GasReward_fees. apply wrap_uint. unfold is_uint. lia.
    - rewrite <- feesOf_flat. apply wrap_uint. unfold is_uint. lia. }
  unfold totalSupply at 1. cfg_proj. fold balances.
  rewrite !deref_store. rewrite !decide_True by reflexivity. fold m.
  rewrite !index_store. rewrite !decide_True by (split; reflexivity).
  rewrite Hfee.
  assert (Hindex : index (heap (world c1)) balances miner = default 0 (m !! miner))
    by reflexivity.
  rewrite Hindex.
  set (m0 := default 0 (m !! miner)) in *.
  rewrite (wrap_uint (m0 + BlockReward)) by (unfold is_uint in *; lia).
  rewrite wrap_uint by (unfold is_uint in *; lia).
  rewrite !sum_insert, lookup_insert_eq. fold m0.
  replace (default 0 (Some (m0 + BlockReward))) with (m0 + BlockReward) by reflexivity.
  lia.
Qed.

Lemma applyBlock_mints_block_reward_witness :
  let blk := blockOf 0 0%N carol [transfer alice bob 100 1 10 0 0;
                                  transfer alice bob 50 2 11 0 0] in
  totalSupply (snd (applyBlock (E := stableNode) blk (ledger 35))) = 1005 + 100.
Proof.
  intros blk.
  rewrite (applyBlock_mints_block_reward (E := stableNode) blk
             (snd (fst (applyBlock (E := stableNode) blk (ledger 35))))
             (ledger 35)
             (snd (applyBlock (E := stableNode) blk (ledger 35)))
             stableNode_contract).
  - vm_compute. reflexivity.
  - split; [discriminate|]. refine (bool_decide_unpack _ _). vm_compute. exact I.
  - discriminate.
  - vm_compute. reflexivity.
  - intros tx [<-|[<-|[]]]; vm_compute; split; discriminate || reflexivity.
  - vm_compute. reflexivity.
Defined.

(** ** The copy *)

(** [Copy] is a deep copy. On a state whose tables are maps of the heap, it
    returns a struct with the scalar fields of the state and no file, whose
    tables are two new, distinct maps holding the entries of the tables of
    the state; it leaves the struct, the files and every existing map as
    they are, and a later write to a table of the copy does not show in the
    balances of the state. *)
Theorem Copy_is_deep (c : Cfg) :
  Balances (this c) ∈ dom (heap (world c)) ->
  Account2Nonce (this c) ∈ dom (heap (world c)) ->
  let pending := fst (Copy c) in
  let c' := snd (Copy c) in
  this c' = this c /\
  files (world c') = files (world c) /\
  (forall l, l ∈ dom (heap (world c)) -> heap (world c') !! l = heap (world c) !! l) /\
  (Balances pending ∉ dom (heap (world c))) /\
  (Account2Nonce pending ∉ dom (heap (world c))) /\
  Balances pending <> Account2Nonce pending /\
  sameLedger c {| this := pending; world := world c' |} /\
  dbFile pending = None /\
  (forall k v account,
     index (heap (store (Balances pending) k v (world c'))) (Balances (this c)) account
     = balanceOf c account).
Proof.
  intros Hbal Hnon pending c'.
  destruct (Copy_spec c) as (Hs & Hf & Hb & Hn & Hdistinct & Hh & Hfile & _).
  destruct (Copy_sameLedger c Hbal Hnon) as [Hsame _].
  fold pending c' in Hs, Hf, Hb, Hn, Hdistinct, Hh, Hfile, Hsame.
  assert (Hold : forall l, l ∈ dom (heap (world c)) ->
                   heap (world c') !! l = heap (world c) !! l).
  { intros l Hl. apply Hh; intros ->; contradiction. }
  repeat (split; [assumption|]).
  intros k v account. rewrite index_store.
  rewrite decide_False by (intros [Heq _]; rewrite Heq in Hb; contradiction).
  unfold balanceOf, index, deref. rewrite (Hold _ Hbal). reflexivity.
Qed.

Lemma Copy_is_deep_witness :
  sameLedger (ledger 35)
    {| this := fst (Copy (ledger 35)); world := world (snd (Copy (ledger 35))) |} /\
  dbFile (fst (Copy (ledger 35))) = None.
Proof.
  destruct (Copy_is_deep (ledger 35)) as (_ & _ & _ & _ & _ & _ & Hsame & Hfile & _).
  - apply elem_of_dom. eexists. reflexivity.
  - apply elem_of_dom. eexists. reflexivity.
  - split; [exact Hsame | exact Hfile].
Defined.

(** ** The fork along the chain *)

Lemma applyBlock_success_number {E : External} (b b' : Block) (c c' : Cfg) :
  applyBlock b c = ((None, b'), c') ->
  hasGenesisBlock (this c) = true ->
  hd_Number (Header b) = nextBlockNumber c.
Proof.
  intros Happly Hgen. apply (f_equal fst) in Happly. revert Happly.
  rewrite applyBlock_run, nextBlockNumber_eq, Hgen. cbn zeta. cbn [andb].
  destruct (hd_Number (Header b) =? _) eqn:Hnum; cbn [negb]; [|discriminate].
  bools. intros _. exact Hnum.
Qed.

(** Once the fork is active it stays active from block to block: if
    [IsTIP1Fork] holds of the state and [AddBlock] accepts a block whose
    number is a [uint64] below the largest, [IsTIP1Fork] holds of the new
    state. *)
Theorem fork_stays_active {E : External} (b : Block) (c c' : Cfg) (h : Hash) :
  AddBlock b c = ((h, None), c') ->
  0 <= hd_Number (Header b) < uint_size - 1 ->
  forkActive c = true ->
  forkActive c' = true.
Proof.
  intros Hadd Hrange Hactive.
  destruct (AddBlock_success_inv b c c' h Hadd)
    as (b' & c2 & _ & _ & _ & Happly & _ & _ & _ & _ & Hthis & _).
  destruct (applyBlock_success_block _ _ _ _ Happly) as (Hb' & _ & _).
  destruct (Copy_spec c) as (_ & _ & _ & _ & _ & _ & _ & Hlatest & _ & Hgen & _).
  rewrite forkActive_eq, nextBlockNumber_eq, Hthis.
  cbn [forkTIP1 hasGenesisBlock latestBlock]. rewrite Hb'. cbn [Header withTXs].
  rewrite wrap_uint by (unfold is_uint; lia).
  rewrite forkActive_eq in Hactive. bools. apply Z.leb_le.
  destruct (hasGenesisBlock (this c)) eqn:Hhas.
  - pose proof (applyBlock_success_number b b' _ c2 Happly) as Hnum.
    cbn [this] in Hnum. specialize (Hnum Hgen).
    rewrite nextBlockNumber_eq in Hnum. cbn [this] in Hnum.
    rewrite Hgen, Hlatest in Hnum.
    rewrite nextBlockNumber_eq, Hhas in Hactive. lia.
  - rewrite nextBlockNumber_eq, Hhas in Hactive. lia.
Qed.

Lemma fork_stays_active_witness :
  forkActive (snd (AddBlock (E := stableNode)
                     (blockOf 0 0%N carol [transfer alice bob 50 1 10 22 2])
                     (ledger 0))) = true.
Proof.
  apply (fork_stays_active (E := stableNode)
           (blockOf 0 0%N carol [transfer alice bob 50 1 10 22 2]) (ledger 0) _ 2%N).
  - vm_compute. reflexivity.
  - vm_compute. split; [discriminate | reflexivity].
  - reflexivity.
Defined.

(** ** Start-up on a new or a broken data directory *)

Lemma seedCfg_tables (gen : Genesis) (f : string) (difficulty : Z)
    (fs : gmap string (list byte)) (w : World) :
  let c := seedCfg gen f difficulty fs w in
  ledger_ok c /\
  deref (heap (world c)) (Balances (this c)) = gen_Balances gen /\
  deref (heap (world c)) (Account2Nonce (this c)) = ∅ /\
  (forall l, l ∈ dom (heap w) -> heap (world c) !! l = heap w !! l).
Proof.
  unfold seedCfg, ledger_ok, deref. cbn [this world heap Balances Account2Nonce].
  set (l1 := fresh (dom (heap w))).
  set (h1 := <[l1 := gen_Balances gen]> (heap w)).
  set (l2 := fresh (dom h1)).
  assert (H1 : l1 ∉ dom (heap w)) by apply is_fresh.
  assert (H2 : l2 ∉ dom h1) by apply is_fresh.
  assert (Hin : l1 ∈ dom h1).
  { subst h1. rewrite dom_insert_L. apply elem_of_union. left.
    apply elem_of_singleton. reflexivity. }
  assert (Hne : l1 <> l2) by (intros Heq; apply H2; rewrite <- Heq; exact Hin).
  split; [split; [|split; [|exact Hne]]|split; [|split]].
  - rewrite dom_insert_L. apply elem_of_union. right. exact Hin.
  - rewrite dom_insert_L. apply elem_of_union. left. apply elem_of_singleton. reflexivity.
  - rewrite lookup_insert_ne by (apply not_eq_sym; exact Hne).
    subst h1. rewrite lookup_insert_eq. reflexivity.
  - rewrite lookup_insert_eq. reflexivity.
  - intros l Hl.
    rewrite lookup_insert_ne.
    + subst h1. rewrite lookup_insert_ne; [reflexivity|].
      intros Heq. apply H1. rewrite Heq. exact Hl.
    + intros Heq. apply H2. rewrite Heq. subst h1. rewrite dom_insert_L.
      apply elem_of_union. right. exact Hl.
Qed.

(** On a data directory whose block log holds no record, [NewStateFromDisk]
    returns the state of the genesis: every account has its balance of the
    genesis file, or 0, and next nonce 1; no block is committed and the next
    block number is 0; the fork threshold is that of the genesis, the
    difficulty the one asked for, the file the block log that was opened. The
    tables are two new, distinct maps, and the maps that existed are not
    touched. *)
Theorem NewStateFromDisk_genesis_state {E : External} (dataDir : string)
    (difficulty : Z) (w : World) (fs : gmap string (list byte)) (gen : Genesis)
    (f : string) :
  InitDataDirIfNotExists dataDir genesisJson (files w) = (None, fs) ->
  loadGenesis (getGenesisJsonFilePath dataDir) fs = inr gen ->
  os_OpenFile (getBlocksDbFilePath dataDir) fs = inr f ->
  bufio_Scan (default [] (fs !! f)) = [] ->
  exists s w',
    NewStateFromDisk dataDir difficulty w = (inr s, w') /\
    let c := {| this := s; world := w' |} in
    (forall account, balanceOf c account = default 0 (gen_Balances gen !! account)) /\
    (forall account, fst (GetNextAccountNonce account c) = 1) /\
    hasGenesisBlock s = false /\
    nextBlockNumber c = 0 /\
    forkTIP1 s = gen_ForkTIP1 gen /\
    miningDifficulty s = difficulty /\
    dbFile s = Some f /\
    files w' = fs /\
    ledger_ok c /\
    (forall l, l ∈ dom (heap w) -> heap w' !! l = heap w !! l).
Proof.
  intros Hinit Hgen Hopen Hscan.
  rewrite (NewStateFromDisk_run dataDir difficulty w fs gen f Hinit Hgen Hopen), Hscan.
  cbn [replay]. unfold afterReplay, mret, M_ret. cbn [fst snd].
  destruct (seedCfg_tables gen f difficulty fs w) as (Hok & Hbal & Hnon & Hold).
  set (seed := seedCfg gen f difficulty fs w) in *.
  exists (this seed), (world seed). split; [reflexivity|]. cbn zeta.
  assert (Hseed : {| this := this seed; world := world seed |} = seed)
    by (destruct seed; reflexivity).
  rewrite Hseed.
  split; [intros account; unfold balanceOf, index; rewrite Hbal; reflexivity|].
  split; [intros account; rewrite GetNextAccountNonce_run; unfold nonceOf, index;
          rewrite Hnon; reflexivity|].
  split; [reflexivity|]. split; [reflexivity|]. split; [reflexivity|].
  split; [reflexivity|]. split; [reflexivity|]. split; [reflexivity|].
  split; [exact Hok | exact Hold].
Qed.

Lemma NewStateFromDisk_genesis_state_witness :
  exists s w',
    NewStateFromDisk (E := stableNode) "node" 3 (dataDirWith []) = (inr s, w') /\
    balanceOf {| this := s; world := w' |} alice = 1000 /\
    miningDifficulty s = 3.
Proof.
  destruct (NewStateFromDisk_genesis_state (E := stableNode) "node" 3 (dataDirWith [])
              (files (dataDirWith [])) toyGenesis "node/block.db")
    as (s & w' & Hrun & Hbal & _ & _ & _ & _ & Hdiff & _);
    [reflexivity | reflexivity | reflexivity | reflexivity |].
  exists s, w'. split; [exact Hrun|]. split; [rewrite Hbal; reflexivity | exact Hdiff].
Defined.

(** [NewStateFromDisk] returns no state when a step of start-up fails: the
    error of the data directory, of reading or decoding the genesis file, or
    of opening the block log is returned as it is, and nothing is replayed;
    an error of the scanner after a token, and the error of a logged block
    that does not apply, are returned as well, whatever the records before
    them built. *)
Theorem NewStateFromDisk_failures {E : External} (dataDir : string) (difficulty : Z)
    (w : World) (fs : gmap string (list byte)) :
  (forall msg,
     InitDataDirIfNotExists dataDir genesisJson (files w) = (Some msg, fs) ->
     NewStateFromDisk dataDir difficulty w
     = (inl (ErrExternal msg), {| heap := heap w; files := fs |})) /\
  (InitDataDirIfNotExists dataDir genesisJson (files w) = (None, fs) ->
   (forall msg,
      ioutil_ReadFile (getGenesisJsonFilePath dataDir) fs = inl msg ->
      NewStateFromDisk dataDir difficulty w
      = (inl (ErrExternal msg), {| heap := heap w; files := fs |})) /\
   (forall content msg,
      ioutil_ReadFile (getGenesisJsonFilePath dataDir) fs = inr content ->
      json_Unmarshal_Genesis content = inl msg ->
      NewStateFromDisk dataDir difficulty w
      = (inl (ErrExternal msg), {| heap := heap w; files := fs |})) /\
   (forall gen msg,
      loadGenesis (getGenesisJsonFilePath dataDir) fs = inr gen ->
      os_OpenFile (getBlocksDbFilePath dataDir) fs = inl msg ->
      fst (NewStateFromDisk dataDir difficulty w) = inl (ErrExternal msg)) /\
   (forall gen f pre rest c1,
      loadGenesis (getGenesisJsonFilePath dataDir) fs = inr gen ->
      os_OpenFile (getBlocksDbFilePath dataDir) fs = inr f ->
      List.Forall (fun token => fst token <> [] /\ snd token = None) pre ->
      replay pre (seedCfg gen f difficulty fs w) = (None, c1) ->
      (forall blockFsJson msg,
         bufio_Scan (default [] (fs !! f)) = pre ++ (blockFsJson, Some msg) :: rest ->
         NewStateFromDisk dataDir difficulty w = (inl (ErrExternal msg), world c1)) /\
      (forall blockFsJson blockFs e,
         bufio_Scan (default [] (fs !! f)) = pre ++ (blockFsJson, None) :: rest ->
         blockFsJson <> [] ->
         json_Unmarshal blockFsJson = inr blockFs ->
         fst (fst (applyBlock (Value blockFs) c1)) = Some e ->
         fst (NewStateFromDisk dataDir difficulty w) = inl e))).
Proof.
  split; [|intros Hinit; split; [|split; [|split]]].
  - intros msg Hinit. unfold NewStateFromDisk. rewrite Hinit. reflexivity.
  - intros msg Hread. unfold NewStateFromDisk, loadGenesis.
    rewrite Hinit, Hread. reflexivity.
  - intros content msg Hread Hdecode. unfold NewStateFromDisk, loadGenesis.
    rewrite Hinit, Hread, Hdecode. reflexivity.
  - intros gen msg Hgen Hopen. unfold NewStateFromDisk.
    rewrite Hinit, Hgen. cbn [heap files]. rewrite Hopen. reflexivity.
  - intros gen f pre rest c1 Hgen Hopen Hpre Hreplay.
    rewrite (NewStateFromDisk_run dataDir difficulty w fs gen f Hinit Hgen Hopen).
    split.
    + intros blockFsJson msg ->.
      rewrite (replay_app pre _ _ c1 Hpre Hreplay). reflexivity.
    + intros blockFsJson blockFs e -> Hnonempty Hdecode Hfail.
      rewrite (replay_app pre _ _ c1 Hpre Hreplay). cbn [replay].
      destruct blockFsJson as [|byte0 bytes]; [congruence|]. cbn [length Nat.eqb].
      rewrite Hdecode. unfold mbind, M_bind.
      destruct (applyBlock (Value blockFs) c1) as [[err b'] c2]. cbn [fst] in Hfail.
      subst err. reflexivity.
Qed.

(** A log that holds the record of block 0 twice: the second record does
    not apply and start-up fails with its error. *)
Lemma NewStateFromDisk_failures_witness :
  let log := [Byte.x7b; Byte.x00; Byte.x7d; newline;
              Byte.x7b; Byte.x00; Byte.x7d; newline] in
  fst (NewStateFromDisk (E := stableNode) "node" 0 (dataDirWith log))
  = inl (ErrBlockNumber 1 0).
Proof.
  intros log.
  destruct (NewStateFromDisk_failures (E := stableNode) "node" 0 (dataDirWith log)
              (files (dataDirWith log))) as [_ H].
  destruct H as (_ & _ & _ & H); [reflexivity|].
  destruct (H toyGenesis "node/block.db"%string
              [([Byte.x7b; Byte.x00; Byte.x7d], None)] []
              (snd (replay (E := stableNode) [([Byte.x7b; Byte.x00; Byte.x7d], None)]
                      (seedCfg toyGenesis "node/block.db" 0
                               (files (dataDirWith log)) (dataDirWith log)))))
    as [_ Hblock].
  - reflexivity.
  - reflexivity.
  - constructor; [split; [discriminate | reflexivity] | constructor].
  - vm_compute. reflexivity.
  - eapply (Hblock [Byte.x7b; Byte.x00; Byte.x7d]).
    + reflexivity.
    + discriminate.
    + reflexivity.
    + vm_compute. reflexivity.
Defined.
